(** * Hybrid knowledge-base search engine: a shallow embedding

    Embedding of [mcp-ecosystem/knowledge-base/search-engine.py]:
    [KnowledgeItem], [VectorSearchEngine] ([add_items], [search],
    [_semantic_search], [_fulltext_search], [_generate_highlight]) and
    [UniversalSearchAPI] ([refresh_knowledge_base], [search_knowledge_base]).

    Modelling choices.
    - Python [float] scores, distances and ranks are exact rationals ([Q]).
    - [datetime] values are integers (microseconds); [datetime.now] reads an
      explicit clock: the n-th read of a run returns [clock n].
    - Text is a [string] taken to hold ASCII characters only, with the
      ASCII case mapping ([lower]/[upper] only move A-Z/a-z) and Python's
      ASCII white space.  On other text Python follows Unicode, so the
      statements that depend on the case or the position of characters
      assume [is_ascii].
    - Exceptions are the [Raise] results of a small state-and-error monad;
      [try ... except Exception] is [try_except].
    - The ChromaDB collection, the sentence-transformer model and the FTS5
      [MATCH ... ORDER BY rank] query are third-party code: they are
      parameters of the engine (Section variables).  The two SQLite tables
      are modelled from their DDL in [_init_sqlite]. *)

From Stdlib Require Import List String Ascii Bool Arith ZArith QArith Qminmax Lia.
From Stdlib Require Import Sorted Permutation.
Import ListNotations.

Local Open Scope list_scope.
Local Open Scope string_scope.
Local Open Scope nat_scope.

(** ** Content types *)

Inductive ContentType : Type :=
| CODE | DOCUMENTATION | CONFIG | SECRET_METADATA | REPOSITORY
| ISSUE | COMMIT | FILE | NOTE.

Definition value (ct : ContentType) : string :=
  match ct with
  | CODE => "code"
  | DOCUMENTATION => "documentation"
  | CONFIG => "config"
  | SECRET_METADATA => "secret_metadata"
  | REPOSITORY => "repository"
  | ISSUE => "issue"
  | COMMIT => "commit"
  | FILE => "file"
  | NOTE => "note"
  end.

Definition all_content_types : list ContentType :=
  [CODE; DOCUMENTATION; CONFIG; SECRET_METADATA; REPOSITORY; ISSUE; COMMIT; FILE; NOTE].

(** [ContentType(s)]: the member whose value is [s]; [None] stands for the
    [ValueError] Python raises on any other string. *)
Definition ContentType_of_value (s : string) : option ContentType :=
  find (fun ct => String.eqb (value ct) s) all_content_types.

(** ** Results and exceptions *)

Inductive Exn : Type :=
| ValueError (msg : string)
| TypeError (msg : string)
| ReError (msg : string)
| IndexFailure (msg : string)      (* raised by the ChromaDB client *)
| OperationalError (msg : string)  (* raised by sqlite3 *)
| KeyError (key : string)
| RuntimeError (msg : string).

Inductive Result (A : Type) : Type :=
| Ok (a : A)
| Raise (e : Exn).
Arguments Ok {A} a.
Arguments Raise {A} e.

Definition is_ok {A} (r : Result A) : bool :=
  match r with Ok _ => true | Raise _ => false end.

(** ** Knowledge items *)

Definition datetime := Z.
Definition Metadata := list (string * string).
Definition Embedding := list Q.

(** The dataclass.  [embedding], [created_at], [updated_at] and [tags] are
    declared with default [None], hence the options. *)
Record KnowledgeItem : Type := mkKnowledgeItem {
  id : string;
  title : string;
  content : string;
  content_type : ContentType;
  source : string;
  metadata : Metadata;
  embedding : option Embedding;
  created_at : option datetime;
  updated_at : option datetime;
  tags : option (list string)
}.

Inductive Context : Type :=
| Semantic (distance : Q)   (* {"search_type": "semantic", "distance": d} *)
| Fulltext (rank : Q).      (* {"search_type": "fulltext", "rank": r} *)

Record SearchResult : Type := mkSearchResult {
  item : KnowledgeItem;
  score : Q;
  highlight : string;
  context : Context
}.

(** [__post_init__], given the value [datetime.now(timezone.utc)] would
    return.  The clock is read only when [created_at] is [None]. *)
Definition __post_init__ (now : datetime) (self : KnowledgeItem) : KnowledgeItem :=
  let created := match created_at self with None => Some now | c => c end in
  let updated := match updated_at self with None => created | u => u end in
  let tgs := match tags self with None => Some [] | t => t end in
  mkKnowledgeItem (id self) (title self) (content self) (content_type self)
    (source self) (metadata self) (embedding self) created updated tgs.

(** ** Text

    A Python [str] is modelled as a [string] of ASCII characters, on which
    the operations below are Python's, character for character.  They are
    not Python's outside ASCII: [str.lower()], [str.upper()] and
    [re.IGNORECASE] follow the case mappings of Unicode, which can change
    the length of a text (the lower case of U+0130 has two code points), and
    [str.split()] knows more white space.  A statement that depends on the
    case or on the position of characters therefore assumes [is_ascii] of
    the texts it is about. *)

Fixpoint all_chars (p : ascii -> bool) (s : string) : bool :=
  match s with
  | EmptyString => true
  | String c rest => p c && all_chars p rest
  end.

Definition is_ascii_char (c : ascii) : bool := nat_of_ascii c <? 128.
Definition is_ascii (s : string) : bool := all_chars is_ascii_char s.

(** ** Python string operations used by the engine *)

Module PyStr.

Definition code (c : ascii) : nat := nat_of_ascii c.

Definition is_upper (c : ascii) : bool := (65 <=? code c) && (code c <=? 90).
Definition is_lower (c : ascii) : bool := (97 <=? code c) && (code c <=? 122).
Definition is_letter (c : ascii) : bool := is_upper c || is_lower c.
Definition is_digit (c : ascii) : bool := (48 <=? code c) && (code c <=? 57).
Definition is_octdigit (c : ascii) : bool := (48 <=? code c) && (code c <=? 55).

(** White space of [str.split()]: TAB, LF, VT, FF, CR, FS, GS, RS, US, SPACE. *)
Definition is_space (c : ascii) : bool :=
  ((9 <=? code c) && (code c <=? 13)) || ((28 <=? code c) && (code c <=? 32)).

Definition lower_char (c : ascii) : ascii :=
  if is_upper c then ascii_of_nat (code c + 32) else c.
Definition upper_char (c : ascii) : ascii :=
  if is_lower c then ascii_of_nat (code c - 32) else c.

(** [s.lower()] and [s.upper()] of an ASCII [s]. *)
Fixpoint lower (s : string) : string :=
  match s with
  | EmptyString => EmptyString
  | String c s' => String (lower_char c) (lower s')
  end.

Fixpoint upper (s : string) : string :=
  match s with
  | EmptyString => EmptyString
  | String c s' => String (upper_char c) (upper s')
  end.

(** [s.split()] of an ASCII [s]: maximal runs of non-space characters. *)
Fixpoint split (s : string) : list string :=
  match s with
  | EmptyString => []
  | String c s' =>
      if is_space c then split s'
      else match s' with
           | EmptyString => [String c EmptyString]
           | String c' _ =>
               if is_space c' then String c EmptyString :: split s'
               else match split s' with
                    | w :: ws => String c w :: ws
                    | [] => [String c EmptyString]
                    end
           end
  end.

(** [s.split(sep)] for a one-character separator: never the empty list. *)
Fixpoint split_on (sep : ascii) (s : string) : list string :=
  match s with
  | EmptyString => [EmptyString]
  | String c s' =>
      if Ascii.eqb c sep then EmptyString :: split_on sep s'
      else match split_on sep s' with
           | w :: ws => String c w :: ws
           | [] => [String c EmptyString]
           end
  end.

(** [sep.join(l)]. *)
Fixpoint join (sep : string) (l : list string) : string :=
  match l with
  | [] => EmptyString
  | [w] => w
  | w :: ws => w ++ sep ++ join sep ws
  end.

(** [s.find(w)] scanning from offset [i]; [None] is Python's [-1]. *)
Fixpoint find_from (w s : string) (i : nat) : option nat :=
  if prefix w s then Some i
  else match s with
       | EmptyString => None
       | String _ s' => find_from w s' (S i)
       end.

Definition find (s w : string) : option nat := find_from w s 0.

(** [s[a:b]] for [0 <= a], [0 <= b]. *)
Definition slice (s : string) (a b : nat) : string := substring a (b - a) s.

(** [w in s]. *)
Definition contains (s w : string) : Prop :=
  exists i, substring i (String.length w) s = w.

End PyStr.

(** ** Regular-expression substitution with a literal, case-insensitive pattern *)

Module Re.
Import PyStr.

(** Does the literal [w], compiled with [re.IGNORECASE], match at the head
    of [s]?  On ASCII text a character matches the characters of the same
    lower case. *)
Fixpoint match_here (w s : string) : bool :=
  match w, s with
  | EmptyString, _ => true
  | String a w', String b s' =>
      Ascii.eqb (lower_char a) (lower_char b) && match_here w' s'
  | String _ _, EmptyString => false
  end.

Definition octal (c : ascii) : nat := code c - 48.

(** [re]'s parsing of a replacement template for a pattern without groups.
    [\\] is a backslash, [\0], [\0d], [\0dd] and [\ddd] are octal escapes,
    any other [\d] or [\dd] is a reference to a group that does not exist,
    [\a \b \f \n \r \t \v] are control characters, a backslash before any
    other ASCII letter is a bad escape, before anything else it is kept.
    ([\g<0>] is not modelled: the templates built below are upper-cased.) *)
Fixpoint expand_template (t : string) : Result string :=
  let lit (c : ascii) (rest : string) :=
    match expand_template rest with
    | Ok r => Ok (String c r)
    | Raise e => Raise e
    end in
  match t with
  | EmptyString => Ok EmptyString
  | String c rest =>
      if negb (Ascii.eqb c "\") then
        match expand_template rest with
        | Ok r => Ok (String c r)
        | Raise e => Raise e
        end
      else
        match rest with
        | EmptyString => Raise (ReError "bad escape (end of pattern)")
        | String d rest1 =>
            if Ascii.eqb d "0" then
              match rest1 with
              | String d1 rest2 =>
                  if is_octdigit d1 then
                    match rest2 with
                    | String d2 rest3 =>
                        if is_octdigit d2 then
                          match expand_template rest3 with
                          | Ok r => Ok (String (ascii_of_nat ((octal d1 * 8 + octal d2) mod 256)) r)
                          | Raise e => Raise e
                          end
                        else
                          match expand_template rest2 with
                          | Ok r => Ok (String (ascii_of_nat (octal d1)) r)
                          | Raise e => Raise e
                          end
                    | EmptyString => Ok (String (ascii_of_nat (octal d1)) EmptyString)
                    end
                  else
                    match expand_template rest1 with
                    | Ok r => Ok (String zero r)
                    | Raise e => Raise e
                    end
              | EmptyString => Ok (String zero EmptyString)
              end
            else if is_digit d then
              match rest1 with
              | String d1 (String d2 rest3) =>
                  if is_digit d1 && is_octdigit d && is_octdigit d1 && is_octdigit d2 then
                    let v := (octal d * 8 + octal d1) * 8 + octal d2 in
                    if 255 <? v then Raise (ReError "octal escape value outside of range 0-0o377")
                    else match expand_template rest3 with
                         | Ok r => Ok (String (ascii_of_nat v) r)
                         | Raise e => Raise e
                         end
                  else Raise (ReError "invalid group reference")
              | _ => Raise (ReError "invalid group reference")
              end
            else if Ascii.eqb d "\" then
              match expand_template rest1 with
              | Ok r => Ok (String "\" r)
              | Raise e => Raise e
              end
            else if is_letter d then
              let ctl (n : nat) :=
                match expand_template rest1 with
                | Ok r => Ok (String (ascii_of_nat n) r)
                | Raise e => Raise e
                end in
              if Ascii.eqb d "a" then ctl 7
              else if Ascii.eqb d "b" then ctl 8
              else if Ascii.eqb d "f" then ctl 12
              else if Ascii.eqb d "n" then ctl 10
              else if Ascii.eqb d "r" then ctl 13
              else if Ascii.eqb d "t" then ctl 9
              else if Ascii.eqb d "v" then ctl 11
              else Raise (ReError "bad escape")
            else
              match expand_template rest1 with
              | Ok r => Ok (String "\" (String d r))
              | Raise e => Raise e
              end
        end
  end.

(** Replace the leftmost non-overlapping matches of a non-empty literal [w]
    by [repl]; [skip] counts the characters of the current match still to be
    consumed. *)
Fixpoint sub_lit (w repl : string) (skip : nat) (s : string) : string :=
  match s with
  | EmptyString => EmptyString
  | String c s' =>
      match skip with
      | S k => sub_lit w repl k s'
      | O =>
          if match_here w s then repl ++ sub_lit w repl (String.length w - 1) s'
          else String c (sub_lit w repl 0 s')
      end
  end.

(** An empty pattern matches before every character and at the end. *)
Fixpoint sub_empty (repl s : string) : string :=
  match s with
  | EmptyString => repl
  | String c s' => repl ++ String c (sub_empty repl s')
  end.

(** [re.compile(re.escape(w), re.IGNORECASE).sub(template, s)].  The
    template is compiled before the scan, so a bad template raises even
    when nothing matches. *)
Definition sub (w template s : string) : Result string :=
  match expand_template template with
  | Raise e => Raise e
  | Ok repl =>
      Ok (match w with
          | EmptyString => sub_empty repl s
          | String _ _ => sub_lit w repl 0 s
          end)
  end.

End Re.

(** ** Highlights *)

Import PyStr.

(** The loop that finds the first occurrence of any query word; [None] is
    [float('inf')]. *)
Definition best_pos_step (content_lower : string) (best : option nat) (word : string)
  : option nat :=
  match find content_lower word with
  | Some pos =>
      match best with
      | None => Some pos
      | Some b => if pos <? b then Some pos else best
      end
  | None => best
  end.

Definition best_pos (words : list string) (content_lower : string) : option nat :=
  fold_left (best_pos_step content_lower) words None.

(** The snippet around the match, with its ellipsis markers, before the
    query words are marked. *)
Definition window (content : string) (bp : nat) : string :=
  let start := Nat.max 0 (bp - 100) in
  let end_ := Nat.min (String.length content) (bp + 200) in
  let snippet := slice content start end_ in
  let snippet := if 0 <? start then "..." ++ snippet else snippet in
  if end_ <? String.length content then snippet ++ "..." else snippet.

(** The loop that wraps every occurrence of every query word. *)
Fixpoint mark_words (words : list string) (snippet : string) : Result string :=
  match words with
  | [] => Ok snippet
  | word :: rest =>
      match Re.sub word ("**" ++ upper word ++ "**") snippet with
      | Ok snippet' => mark_words rest snippet'
      | Raise e => Raise e
      end
  end.

Definition _generate_highlight (content query : string) : Result string :=
  let words := split (lower query) in
  let content_lower := lower content in
  match best_pos words content_lower with
  | None =>
      Ok (if 200 <? String.length content
          then slice content 0 200 ++ "..."
          else content)
  | Some bp => mark_words words (window content bp)
  end.


(** ** Stored rows *)

(** What [add_items] hands to [collection.add] and what [collection.query]
    gives back. *)
Module Chroma.

Record Meta : Type := mkMeta {
  title : string;
  content_type : string;
  source : string;
  created_at : datetime;       (* the isoformat string, kept as the instant *)
  tags : string
}.

Record Entry : Type := mkEntry {
  id : string;
  embedding : Embedding;
  metadata : Meta;
  document : string
}.

(** The [where] dictionary: [{"content_type": {"$in": ...}, "source": {"$in": ...}}],
    each key optional. *)
Record Where : Type := mkWhere {
  content_type_in : option (list string);
  source_in : option (list string)
}.

Record Hit : Type := mkHit {
  hit_id : string;
  hit_metadata : Meta;
  hit_document : string;
  hit_distance : Q
}.

End Chroma.

(** The two tables of [_init_sqlite]. *)
Module Sqlite.

(** A row of the FTS5 virtual table [knowledge_fts]. *)
Record FtsRow : Type := mkFtsRow {
  id : string;
  title : string;
  content : string;
  content_type : string;
  source : string;
  tags : string;
  metadata : Metadata          (* the JSON text, kept as the mapping *)
}.

(** A row of [knowledge_metadata], whose [id] is the PRIMARY KEY. *)
Record MetaRow : Type := mkMetaRow {
  m_id : string;
  m_title : string;
  m_content_type : string;
  m_source : string;
  m_created_at : datetime;
  m_updated_at : datetime;
  m_metadata : Metadata;
  m_tags : string
}.

(** [INSERT OR REPLACE INTO knowledge_fts]: an FTS5 table declares no key
    or uniqueness constraint on its columns, so no conflict arises and the
    statement adds a row. *)
Definition insert_fts (row : FtsRow) (table : list FtsRow) : list FtsRow :=
  (table ++ [row])%list.

(** [INSERT OR REPLACE INTO knowledge_metadata]: the row holding the same
    primary key, if any, is deleted and the new row is inserted. *)
Definition insert_or_replace (row : MetaRow) (table : list MetaRow) : list MetaRow :=
  (filter (fun r => negb (String.eqb (m_id r) (m_id row))) table ++ [row])%list.

Definition select_by_id (i : string) (table : list MetaRow) : list MetaRow :=
  filter (fun r => String.eqb (m_id r) i) table.

End Sqlite.

(** ** Sorting, slicing, deduplication *)

Definition Qltb (x y : Q) : bool := negb (Qle_bool y x).

(** Python's [max(0, x)]: [x] when [x > 0], else [0]. *)
Definition max0 (x : Q) : Q := if Qltb 0 x then x else 0%Q.

(** [results.sort(key=lambda x: x.score, reverse=True)]: the sort is stable,
    and [reverse=True] keeps the original order of equal keys. *)
Fixpoint insert_desc (x : SearchResult) (l : list SearchResult) : list SearchResult :=
  match l with
  | [] => [x]
  | y :: l' => if Qltb (score x) (score y) then y :: insert_desc x l' else x :: y :: l'
  end.

Definition sort_by_score_desc (l : list SearchResult) : list SearchResult :=
  fold_right insert_desc [] l.

(** [l[:n]] for any integer [n]. *)
Definition slice_to {A : Type} (l : list A) (n : Z) : list A :=
  if (0 <=? n)%Z then firstn (Z.to_nat n) l
  else firstn (List.length l - Z.to_nat (- n)) l.

(** The loop over [semantic_results + fts_results] with [seen_ids]. *)
Fixpoint dedup (seen_ids : list string) (rs : list SearchResult) : list SearchResult :=
  match rs with
  | [] => []
  | result :: rs' =>
      if existsb (String.eqb (id (item result))) seen_ids
      then dedup seen_ids rs'
      else result :: dedup (id (item result) :: seen_ids) rs'
  end.

(** Vocabulary for the properties of a result list. *)

Definition rid (r : SearchResult) : string := id (item r).

(** [ge_score a b]: [a] may stand before [b] in a list sorted by score,
    highest first. *)
Definition ge_score (a b : SearchResult) : Prop := (score b <= score a)%Q.

Definition has_score (q : Q) (r : SearchResult) : bool := Qeq_bool (score r) q.

(** The content-type strings of a request that name a member of the enum. *)
Fixpoint valid_content_types (content_types : list string) : list ContentType :=
  match content_types with
  | [] => []
  | ct :: rest =>
      match ContentType_of_value ct with
      | Some e => e :: valid_content_types rest
      | None => valid_content_types rest
      end
  end.

(** ** The engine *)

Inductive Event : Type :=
| VectorQuery (query : string) (n_results : Z)
| LexicalQuery (query : string) (limit : Z).

Inductive LogRecord : Type :=
| LogInfo (msg : string)
| LogWarning (msg : string)
| LogError (msg : string) (e : Exn).

(** One entry of the ["results"] list of the API reply. *)
Record ResultDict : Type := mkResultDict {
  r_id : string;
  r_title : string;
  r_content_type : string;
  r_source : string;
  r_score : Q;
  r_highlight : string;
  r_metadata : Metadata;
  r_tags : option (list string);
  r_context : Context
}.

(** The reply of [search_knowledge_base] (without ["execution_time"]). *)
Inductive Response : Type :=
| Success (query : string) (total_results : nat) (results : list ResultDict)
          (timestamp : datetime)
| Error (query : string) (error : Exn) (timestamp : datetime).

Section Engine.

(** The third-party parts. *)
Variable Collection : Type.
Variable collection_add : Collection -> list Chroma.Entry -> Result Collection.
Variable collection_query :
  Collection -> Embedding -> Z -> option Chroma.Where -> Result (list Chroma.Hit).
Variable encode : string -> Embedding.
(** [SELECT ..., rank FROM knowledge_fts WHERE knowledge_fts MATCH ? [AND
    content_type IN (...)] [AND source IN (...)] ORDER BY rank LIMIT ?]. *)
Variable fts_select :
  list Sqlite.FtsRow -> string -> option (list string) -> option (list string) -> Z ->
  Result (list (Sqlite.FtsRow * Q)).
Variable clock : nat -> datetime.

Record World : Type := mkWorld {
  ticks : nat;                               (* clock reads so far *)
  collection : Collection;
  knowledge_fts : list Sqlite.FtsRow;
  knowledge_metadata : list Sqlite.MetaRow;
  db_up : bool;                              (* can sqlite3.connect succeed? *)
  queries : list Event;                      (* index queries issued, oldest first *)
  log : list LogRecord
}.

Definition M (A : Type) : Type := World -> Result A * World.

Definition ret {A} (a : A) : M A := fun w => (Ok a, w).
Definition raise {A} (e : Exn) : M A := fun w => (Raise e, w).
Definition bind {A B} (m : M A) (k : A -> M B) : M B :=
  fun w => match m w with
           | (Ok a, w') => k a w'
           | (Raise e, w') => (Raise e, w')
           end.
Definition try_except {A} (m : M A) (handler : Exn -> M A) : M A :=
  fun w => match m w with
           | (Ok a, w') => (Ok a, w')
           | (Raise e, w') => handler e w'
           end.
Definition lift {A} (r : Result A) : M A := fun w => (r, w).

Notation "x <- m ;; k" := (bind m (fun x => k))
  (at level 61, m at next level, right associativity).
Notation "m ;; k" := (bind m (fun _ => k))
  (at level 61, right associativity).

Fixpoint mapM {A B} (f : A -> M B) (l : list A) : M (list B) :=
  match l with
  | [] => ret []
  | a :: l' => b <- f a ;; bs <- mapM f l' ;; ret (b :: bs)
  end.

Definition datetime_now : M datetime :=
  fun w => (Ok (clock (ticks w)),
            mkWorld (S (ticks w)) (collection w) (knowledge_fts w)
              (knowledge_metadata w) (db_up w) (queries w) (log w)).

Definition logger (r : LogRecord) : M unit :=
  fun w => (Ok tt,
            mkWorld (ticks w) (collection w) (knowledge_fts w)
              (knowledge_metadata w) (db_up w) (queries w) (log w ++ [r])%list).

Definition record_query (ev : Event) : M unit :=
  fun w => (Ok tt,
            mkWorld (ticks w) (collection w) (knowledge_fts w)
              (knowledge_metadata w) (db_up w) (queries w ++ [ev])%list (log w)).

Definition get_world : M World := fun w => (Ok w, w).

Definition set_collection (c : Collection) : M unit :=
  fun w => (Ok tt,
            mkWorld (ticks w) c (knowledge_fts w)
              (knowledge_metadata w) (db_up w) (queries w) (log w)).

Definition set_tables (fts : list Sqlite.FtsRow) (meta : list Sqlite.MetaRow) : M unit :=
  fun w => (Ok tt,
            mkWorld (ticks w) (collection w) fts meta (db_up w) (queries w) (log w)).

(** *** Vocabulary for what a computation may change *)

(** [frame w w']: from [w] to [w'] only the clock and the log moved. *)
Definition frame (w w' : World) : Prop :=
  collection w' = collection w /\ knowledge_fts w' = knowledge_fts w /\
  knowledge_metadata w' = knowledge_metadata w /\ db_up w' = db_up w /\
  queries w' = queries w.

Definition quiet {A} (m : M A) : Prop := forall w, frame w (snd (m w)).

(** [stores w w']: the two indexes and the reachability of the database
    are the same in [w] and [w']. *)
Definition stores (w w' : World) : Prop :=
  collection w' = collection w /\ knowledge_fts w' = knowledge_fts w /\
  knowledge_metadata w' = knowledge_metadata w /\ db_up w' = db_up w.

(** [sqlite3.connect(self.sqlite_path)]. *)
Definition sqlite_connect : M unit :=
  fun w => if db_up w then (Ok tt, w)
           else (Raise (OperationalError "unable to open database file"), w).

(** [KnowledgeItem(...)]: the generated [__init__] stores its arguments and
    calls [__post_init__]. *)
Definition KnowledgeItem_init (args : KnowledgeItem) : M KnowledgeItem :=
  match created_at args with
  | None => now <- datetime_now ;; ret (__post_init__ now args)
  | Some c => ret (__post_init__ c args)
  end.

(** *** Ingestion *)

Definition chroma_meta (it : KnowledgeItem) : Result Chroma.Meta :=
  match created_at it, tags it with
  | Some c, Some tg =>
      Ok (Chroma.mkMeta (title it) (value (content_type it)) (source it) c (join "," tg))
  | None, _ => Raise (TypeError "'NoneType' object has no attribute 'isoformat'")
  | _, None => Raise (TypeError "can only join an iterable")
  end.

Definition fts_row (it : KnowledgeItem) : Result Sqlite.FtsRow :=
  match tags it with
  | Some tg =>
      Ok (Sqlite.mkFtsRow (id it) (title it) (content it) (value (content_type it))
            (source it) (join "," tg) (metadata it))
  | None => Raise (TypeError "can only join an iterable")
  end.

Definition meta_row (it : KnowledgeItem) : Result Sqlite.MetaRow :=
  match created_at it, updated_at it, tags it with
  | Some c, Some u, Some tg =>
      Ok (Sqlite.mkMetaRow (id it) (title it) (value (content_type it)) (source it)
            c u (metadata it) (join "," tg))
  | None, _, _ | _, None, _ =>
      Raise (TypeError "'NoneType' object has no attribute 'isoformat'")
  | _, _, None => Raise (TypeError "can only join an iterable")
  end.

Fixpoint mapR {A B} (f : A -> Result B) (l : list A) : Result (list B) :=
  match l with
  | [] => Ok []
  | a :: l' =>
      match f a with
      | Raise e => Raise e
      | Ok b => match mapR f l' with
                | Raise e => Raise e
                | Ok bs => Ok (b :: bs)
                end
      end
  end.

(** The loop of SQLite inserts; the [with] block commits it as a whole or,
    on an exception, not at all. *)
Fixpoint sqlite_inserts (items : list KnowledgeItem)
    (fts : list Sqlite.FtsRow) (meta : list Sqlite.MetaRow)
  : Result (list Sqlite.FtsRow * list Sqlite.MetaRow) :=
  match items with
  | [] => Ok (fts, meta)
  | it :: items' =>
      match fts_row it with
      | Raise e => Raise e
      | Ok fr =>
          match meta_row it with
          | Raise e => Raise e
          | Ok mr =>
              sqlite_inserts items' (Sqlite.insert_fts fr fts)
                (Sqlite.insert_or_replace mr meta)
          end
      end
  end.

Definition add_items (items : list KnowledgeItem) : M unit :=
  match items with
  | [] => ret tt
  | _ :: _ =>
      logger (LogInfo "Adding items to knowledge base") ;;
      let contents := map content items in
      let embeddings := map encode contents in
      let ids := map id items in
      metadatas <- lift (mapR chroma_meta items) ;;
      let documents := contents in
      let entries :=
        map (fun e => Chroma.mkEntry (fst (fst (fst e))) (snd (fst (fst e)))
                        (snd (fst e)) (snd e))
            (combine (combine (combine ids embeddings) metadatas) documents) in
      w <- get_world ;;
      c <- lift (collection_add (collection w) entries) ;;
      set_collection c ;;
      sqlite_connect ;;
      w <- get_world ;;
      tables <- lift (sqlite_inserts items (knowledge_fts w) (knowledge_metadata w)) ;;
      set_tables (fst tables) (snd tables) ;;
      logger (LogInfo "Successfully added items to knowledge base")
  end.

(** *** Search *)

(** Python truth value of an optional list argument: [None] and [[]] are
    both false. *)
Definition truthy {A} (o : option (list A)) : option (list A) :=
  match o with
  | Some (x :: l) => Some (x :: l)
  | _ => None
  end.

Definition where_clause (content_types : option (list ContentType))
    (sources : option (list string)) : option Chroma.Where :=
  let ct := option_map (map value) (truthy content_types) in
  let src := truthy sources in
  match ct, src with
  | None, None => None
  | _, _ => Some (Chroma.mkWhere ct src)
  end.

(** [s.split(',') if s else []]. *)
Definition split_tags (s : string) : list string :=
  match s with
  | EmptyString => []
  | _ => split_on "," s
  end.

Definition to_ContentType (s : string) : Result ContentType :=
  match ContentType_of_value s with
  | Some ct => Ok ct
  | None => Raise (ValueError (s ++ " is not a valid ContentType"))
  end.

(** Body of the loop of [_semantic_search]. *)
Definition semantic_result (query : string) (h : Chroma.Hit) : M SearchResult :=
  let metadata := Chroma.hit_metadata h in
  let content := Chroma.hit_document h in
  let distance := Chroma.hit_distance h in
  let score := max0 (1 - distance)%Q in
  ct <- lift (to_ContentType (Chroma.content_type metadata)) ;;
  item <- KnowledgeItem_init
            (mkKnowledgeItem (Chroma.hit_id h) (Chroma.title metadata) content ct
               (Chroma.source metadata) [] None None None
               (Some (split_tags (Chroma.tags metadata)))) ;;
  highlight <- lift (_generate_highlight content query) ;;
  ret (mkSearchResult item score highlight (Semantic distance)).

Definition _semantic_search (query : string) (limit : Z)
    (content_types : option (list ContentType)) (sources : option (list string))
    (tags : option (list string)) : M (list SearchResult) :=
  let where_ := where_clause content_types sources in
  try_except
    (let query_embedding := encode query in
     record_query (VectorQuery query limit) ;;
     w <- get_world ;;
     results <- lift (collection_query (collection w) query_embedding limit where_) ;;
     mapM (semantic_result query) results)
    (fun e => logger (LogError "Semantic search error" e) ;; ret []).

(** Body of the loop of [_fulltext_search]. *)
Definition fulltext_result (query : string) (row : Sqlite.FtsRow * Q) : M SearchResult :=
  let r := fst row in
  let rank := snd row in
  let score := max0 (- rank / 10)%Q in
  ct <- lift (to_ContentType (Sqlite.content_type r)) ;;
  item <- KnowledgeItem_init
            (mkKnowledgeItem (Sqlite.id r) (Sqlite.title r) (Sqlite.content r) ct
               (Sqlite.source r) (Sqlite.metadata r) None None None
               (Some (split_tags (Sqlite.tags r)))) ;;
  highlight <- lift (_generate_highlight (Sqlite.content r) query) ;;
  ret (mkSearchResult item score highlight (Fulltext rank)).

Definition _fulltext_search (query : string) (limit : Z)
    (content_types : option (list ContentType)) (sources : option (list string))
    (tags : option (list string)) : M (list SearchResult) :=
  try_except
    (sqlite_connect ;;
     let ct := option_map (map value) (truthy content_types) in
     let src := truthy sources in
     record_query (LexicalQuery query limit) ;;
     w <- get_world ;;
     rows <- lift (fts_select (knowledge_fts w) query ct src limit) ;;
     mapM (fulltext_result query) rows)
    (fun e => logger (LogError "Full-text search error" e) ;; ret []).

Definition search (query : string) (limit : Z)
    (content_types : option (list ContentType)) (sources : option (list string))
    (tags : option (list string)) : M (list SearchResult) :=
  semantic_results <- _semantic_search query (limit * 2) content_types sources tags ;;
  fts_results <- _fulltext_search query (limit * 2) content_types sources tags ;;
  let results := dedup [] (semantic_results ++ fts_results)%list in
  let results := sort_by_score_desc results in
  ret (slice_to results limit).

(** *** The API layer *)

(** The loop turning content-type strings into enum members. *)
Fixpoint convert_content_types (content_types : list string) : M (list ContentType) :=
  match content_types with
  | [] => ret []
  | ct :: rest =>
      match ContentType_of_value ct with
      | Some e => es <- convert_content_types rest ;; ret (e :: es)
      | None =>
          logger (LogWarning ("Invalid content type: " ++ ct)) ;;
          convert_content_types rest
      end
  end.

Definition result_dict (result : SearchResult) : ResultDict :=
  mkResultDict (id (item result)) (title (item result))
    (value (content_type (item result))) (source (item result))
    (score result) (highlight result) (metadata (item result))
    (tags (item result)) (context result).

Definition search_knowledge_base (query : string) (limit : Z)
    (content_types : option (list string)) (sources : option (list string))
    (tags : option (list string)) : M Response :=
  try_except
    (content_type_enums <-
       match content_types with
       | Some cts => convert_content_types cts
       | None => ret []
       end ;;
     results <- search query limit
                  (match content_type_enums with [] => None | _ => Some content_type_enums end)
                  sources tags ;;
     timestamp <- datetime_now ;;
     ret (Success query (List.length results) (map result_dict results) timestamp))
    (fun e =>
       logger (LogError "Search failed" e) ;;
       timestamp <- datetime_now ;;
       ret (Error query e timestamp)).

Inductive RefreshReply : Type :=
| RefreshSuccess (items_collected : nat) (timestamp : datetime)
| RefreshError (error : Exn) (timestamp : datetime).

(** [collect_all_data], given the constructor arguments the collectors
    assemble from the replies of the MCP servers: one [KnowledgeItem] is
    built per record. *)
Definition collect_all_data (records : list KnowledgeItem) : M (list KnowledgeItem) :=
  items <- mapM KnowledgeItem_init records ;;
  logger (LogInfo "Collected knowledge items from MCP servers") ;;
  ret items.

Definition refresh_knowledge_base (records : list KnowledgeItem) : M RefreshReply :=
  try_except
    (items <- collect_all_data records ;;
     match items with
     | [] => ret tt
     | _ :: _ => add_items items
     end ;;
     timestamp <- datetime_now ;;
     ret (RefreshSuccess (List.length items) timestamp))
    (fun e =>
       logger (LogError "Knowledge base refresh failed" e) ;;
       timestamp <- datetime_now ;;
       ret (RefreshError e timestamp)).

End Engine.

Arguments ret {Collection A}.
Arguments raise {Collection A}.
Arguments bind {Collection A B}.
Arguments try_except {Collection A}.
Arguments lift {Collection A}.
Arguments mapM {Collection A B}.
Arguments logger {Collection}.
Arguments record_query {Collection}.
Arguments get_world {Collection}.
Arguments sqlite_connect {Collection}.
Arguments set_collection {Collection}.
Arguments set_tables {Collection}.
Arguments datetime_now {Collection}.
Arguments KnowledgeItem_init {Collection}.
Arguments frame {Collection}.
Arguments stores {Collection}.
Arguments quiet {Collection A}.
Arguments mkWorld {Collection}.
Arguments ticks {Collection}.
Arguments collection {Collection}.
Arguments knowledge_fts {Collection}.
Arguments knowledge_metadata {Collection}.
Arguments db_up {Collection}.
Arguments queries {Collection}.
Arguments log {Collection}.

(** ** A small in-memory instance of the third-party parts

    Used to run the engine on concrete inputs.  The collection keeps its
    entries in a list, ignores an added id it already holds (what the
    ChromaDB client does), and answers a query with the [n_results] nearest
    entries by squared Euclidean distance.  The lexical index matches the
    rows whose title or content holds every word of the query, and rejects
    the empty query as FTS5 does.  Embeddings and ranks come from tables. *)
Module Mem.

Definition Collection : Type := list Chroma.Entry.

Definition has_id (c : Collection) (i : string) : bool :=
  existsb (fun e => String.eqb (Chroma.id e) i) c.

Fixpoint collection_add (c : Collection) (entries : list Chroma.Entry) : Result Collection :=
  match entries with
  | [] => Ok c
  | e :: rest =>
      if has_id c (Chroma.id e) then collection_add c rest
      else collection_add (c ++ [e])%list rest
  end.

Fixpoint sq_distance (a b : Embedding) : Q :=
  match a, b with
  | x :: a', y :: b' => ((x - y) * (x - y) + sq_distance a' b')%Q
  | _, _ => 0%Q
  end.

Definition in_opt (o : option (list string)) (s : string) : bool :=
  match o with
  | None => true
  | Some l => existsb (String.eqb s) l
  end.

Definition passes (wh : option Chroma.Where) (e : Chroma.Entry) : bool :=
  match wh with
  | None => true
  | Some f =>
      in_opt (Chroma.content_type_in f) (Chroma.content_type (Chroma.metadata e))
      && in_opt (Chroma.source_in f) (Chroma.source (Chroma.metadata e))
  end.

Fixpoint insert_hit (h : Chroma.Hit) (l : list Chroma.Hit) : list Chroma.Hit :=
  match l with
  | [] => [h]
  | h' :: l' =>
      if Qltb (Chroma.hit_distance h') (Chroma.hit_distance h) then h' :: insert_hit h l'
      else h :: h' :: l'
  end.

Definition collection_query (c : Collection) (q : Embedding) (n_results : Z)
    (wh : option Chroma.Where) : Result (list Chroma.Hit) :=
  if (n_results <=? 0)%Z
  then Raise (IndexFailure "Number of requested results cannot be negative, or zero")
  else
    let hits :=
      map (fun e => Chroma.mkHit (Chroma.id e) (Chroma.metadata e) (Chroma.document e)
                      (sq_distance q (Chroma.embedding e)))
          (filter (passes wh) c) in
    Ok (firstn (Z.to_nat n_results) (fold_right insert_hit [] hits)).

Fixpoint lookup {A} (table : list (string * A)) (default : A) (k : string) : A :=
  match table with
  | [] => default
  | (k', v) :: rest => if String.eqb k' k then v else lookup rest default k
  end.

Definition encode (table : list (string * Embedding)) (text : string) : Embedding :=
  lookup table [0%Q] text.

Definition occurs (text word : string) : bool :=
  match PyStr.find text word with Some _ => true | None => false end.

Definition matches (words : list string) (r : Sqlite.FtsRow) : bool :=
  forallb (occurs (PyStr.lower (Sqlite.title r ++ " " ++ Sqlite.content r))) words.

Fixpoint insert_row (x : Sqlite.FtsRow * Q) (l : list (Sqlite.FtsRow * Q))
  : list (Sqlite.FtsRow * Q) :=
  match l with
  | [] => [x]
  | y :: l' => if Qltb (snd y) (snd x) then y :: insert_row x l' else x :: y :: l'
  end.

Definition fts_select (ranks : list (string * Q)) (rows : list Sqlite.FtsRow)
    (query : string) (content_types sources : option (list string)) (limit : Z)
  : Result (list (Sqlite.FtsRow * Q)) :=
  match PyStr.split (PyStr.lower query) with
  | [] => Raise (OperationalError "fts5: syntax error near the empty string")
  | words =>
      let hits :=
        filter (fun r => matches words r
                         && in_opt content_types (Sqlite.content_type r)
                         && in_opt sources (Sqlite.source r)) rows in
      let ranked :=
        fold_right insert_row []
          (map (fun r => (r, lookup ranks (-1)%Q (Sqlite.id r))) hits) in
      Ok (if (limit <? 0)%Z then ranked else firstn (Z.to_nat limit) ranked)
  end.

(** The clock of the runs below: one microsecond per read, from 1000. *)
Definition clock (n : nat) : datetime := (1000 + Z.of_nat n)%Z.

Definition empty_world : World Collection :=
  mkWorld 0 [] [] [] true [] [].

(** Two records as a collector hands them to the [KnowledgeItem]
    constructor: no embedding, no timestamps. *)
Definition a1 : KnowledgeItem :=
  mkKnowledgeItem "a1" "queue notes" "add retry logic to the queue consumer"
    NOTE "filesystem_mcp" [] None None None (Some ["queue"]).

Definition a2 : KnowledgeItem :=
  mkKnowledgeItem "a2" "fonts" "unrelated topic about fonts, with one retry"
    DOCUMENTATION "filesystem_mcp" [] None None None (Some ["fonts"]).

Definition a3 : KnowledgeItem :=
  mkKnowledgeItem "a3" "release" "deployment checklist: retry failed jobs"
    DOCUMENTATION "github_mcp" [] None None None (Some ["release"]).

(** The embedding model of the runs: the query "retry" at the origin, [a2]
    next to it, [a1] and [a3] further away; any other text at the origin. *)
Definition embeddings : list (string * Embedding) :=
  [("retry", [0%Q]); (content a1, [1%Q]); (content a2, [(1 # 2)%Q]); (content a3, [3%Q])].

(** Two sets of FTS ranks for the rows matching a query; a row that is not
    listed has rank -1. *)
Definition ranks_large : list (string * Q) := [("a3", (-25)%Q); ("a2", (-9)%Q)].
Definition ranks_small : list (string * Q) := [("a1", (-8)%Q); ("a2", (-9)%Q)].

Definition refresh : list KnowledgeItem -> M Collection RefreshReply :=
  refresh_knowledge_base Collection collection_add (encode embeddings) clock.

Definition semantic_search :=
  _semantic_search Collection collection_query (encode embeddings) clock.

Definition fulltext_search (ranks : list (string * Q)) :=
  _fulltext_search Collection (fts_select ranks) clock.

Definition search (ranks : list (string * Q)) :=
  search Collection collection_query (encode embeddings) (fts_select ranks) clock.

Definition search_knowledge_base (ranks : list (string * Q)) :=
  search_knowledge_base Collection collection_query (encode embeddings)
    (fts_select ranks) clock.

(** The world after one refresh that collected [a1], [a2] and [a3]. *)
Definition indexed : World Collection := snd (refresh [a1; a2; a3] empty_world).

(** The worlds after one and after two refreshes that collected [a1]. *)
Definition once : World Collection := snd (refresh [a1] empty_world).
Definition twice : World Collection := snd (refresh [a1] once).

(** A content of 200 letters. *)
Definition many_a : string := string_of_list_ascii (repeat "a"%char 200).

(** A vector index that cannot be reached, and a world whose database
    cannot be opened. *)
Definition unreachable_query (c : Collection) (q : Embedding) (n_results : Z)
    (wh : option Chroma.Where) : Result (list Chroma.Hit) :=
  Raise (IndexFailure "could not connect to the collection").

Definition offline : World Collection :=
  mkWorld (ticks indexed) (collection indexed) (knowledge_fts indexed)
    (knowledge_metadata indexed) false [] [].

End Mem.

(** ** Character classes of a whole string *)

Definition not_comma (c : ascii) : bool := negb (Ascii.eqb c ",").
Definition not_backslash (c : ascii) : bool := negb (Ascii.eqb c "\").

(** ** Statistics *)

(** [SELECT key, COUNT( * ) ... GROUP BY key ORDER BY count DESC] over a
    list of keys.  SQL leaves the order of groups of equal count open; here
    they stay in the order of their first row. *)
Section GroupBy.

Context {K : Type} (eqb : K -> K -> bool).

Fixpoint bump (k : K) (acc : list (K * nat)) : list (K * nat) :=
  match acc with
  | [] => [(k, 1)]
  | (k', n) :: rest => if eqb k' k then (k', S n) :: rest else (k', n) :: bump k rest
  end.

Definition group_count (keys : list K) : list (K * nat) :=
  fold_left (fun acc k => bump k acc) keys [].

Fixpoint insert_by_count (x : K * nat) (l : list (K * nat)) : list (K * nat) :=
  match l with
  | [] => [x]
  | y :: l' => if snd x <? snd y then y :: insert_by_count x l' else x :: y :: l'
  end.

Definition order_by_count_desc (l : list (K * nat)) : list (K * nat) :=
  fold_right insert_by_count [] l.

Definition group_by_count (keys : list K) : list (K * nat) :=
  order_by_count_desc (group_count keys).

End GroupBy.

Definition pair_eqb (a b : string * string) : bool :=
  String.eqb (fst a) (fst b) && String.eqb (snd a) (snd b).

Definition total {K : Type} (counts : list (K * nat)) : nat :=
  fold_right (fun kv acc => snd kv + acc) 0 counts.

(** The dictionary [get_statistics] returns on success. *)
Record Statistics : Type := mkStatistics {
  total_items : nat;
  by_type : list (string * nat);
  by_source : list (string * nat);
  by_type_source : list ((string * string) * nat);
  last_updated : datetime
}.

Inductive StatisticsReply : Type :=
| Stats (s : Statistics)
| StatsError (error : Exn).          (* {"error": str(e)} *)

Local Notation "x <- m ;; k" := (bind m (fun x => k))
  (at level 61, m at next level, right associativity).
Local Notation "m ;; k" := (bind m (fun _ => k))
  (at level 61, right associativity).

Section StatisticsEngine.

Variable Collection : Type.
(** [collection.count()]. *)
Variable collection_count : Collection -> Result nat.
Variable clock : nat -> datetime.

Definition get_statistics : M Collection StatisticsReply :=
  try_except
    (w <- get_world ;;
     total_items <- lift (collection_count (collection w)) ;;
     sqlite_connect ;;
     w <- get_world ;;
     let rows := knowledge_metadata w in
     let stats_by_type_source :=
       group_by_count pair_eqb
         (map (fun r => (Sqlite.m_content_type r, Sqlite.m_source r)) rows) in
     let stats_by_type :=
       group_by_count String.eqb (map Sqlite.m_content_type rows) in
     let stats_by_source :=
       group_by_count String.eqb (map Sqlite.m_source rows) in
     now <- datetime_now clock ;;
     ret (Stats (mkStatistics total_items stats_by_type stats_by_source
                   stats_by_type_source now)))
    (fun e => logger (LogError "Error getting statistics" e) ;; ret (StatsError e)).

End StatisticsEngine.

(** ** The file-system collector *)

(** One entry of the ["files"] list of the [list_files] reply: a JSON
    object whose ["name"], ["path"] and ["size"] may be missing.  A name and
    a path that are there are strings; the size is kept as the text of the
    JSON number. *)
Record FileInfo : Type := mkFileInfo {
  fi_name : option string;
  fi_path : option string;
  fi_size : option string
}.

(** [d[key]] on a dict read through one of its optional fields. *)
Definition getitem (key : string) (field : option string) : Result string :=
  match field with
  | Some v => Ok v
  | None => Raise (KeyError key)
  end.

(** What the HTTP POST of [_call_mcp_server] comes to: a reply with status
    200 and its JSON body, a reply with another status, or an exception
    raised on the way. *)
Inductive Post (A : Type) : Type :=
| Replied (json : A)
| Status (code : Z)
| Failed (e : Exn).
Arguments Replied {A} json.
Arguments Status {A} code.
Arguments Failed {A} e.

Module Collector.
Import PyStr.

(** [s.endswith(suffix)] and [s.endswith((suffix1, suffix2, ...))]. *)
Definition endswith (s suffix : string) : bool :=
  (String.length suffix <=? String.length s)
  && String.eqb (substring (String.length s - String.length suffix)
                   (String.length suffix) s) suffix.

Definition endswith_any (s : string) (suffixes : list string) : bool :=
  existsb (endswith s) suffixes.

(** ['.' in name]. *)
Fixpoint has_dot (name : string) : bool :=
  match name with
  | EmptyString => false
  | String c rest => Ascii.eqb c "." || has_dot rest
  end.

(** [name.split('.')[-1] if '.' in name else ""]. *)
Definition extension (name : string) : string :=
  if has_dot name then List.last (split_on "." name) "" else "".

(** 10000. *)
Definition max_content : nat := 100 * 100.

(** [content[:10000] + "...[truncated]"] when the content is longer than
    10000 characters. *)
Definition truncate_content (content : string) : string :=
  if max_content <? String.length content
  then slice content 0 max_content ++ "...[truncated]"
  else content.

Definition documentation_suffixes : list string := [".md"; ".txt"; ".rst"].
Definition config_suffixes : list string := [".json"; ".yml"; ".yaml"; ".toml"; ".ini"].

Definition file_content_type (name : string) : ContentType :=
  if endswith_any name documentation_suffixes then DOCUMENTATION
  else if endswith_any name config_suffixes then CONFIG
  else CODE.

(** The ["content"] of a [read_file] reply: a text, or JSON [null], on
    which [len(content)] raises.  (A content that is a JSON array or object
    is not modelled.) *)
Inductive Content : Type :=
| Text (text : string)
| Null.

(** [len(content)], then the truncation. *)
Definition truncated (content : Content) : Result string :=
  match content with
  | Text text => Ok (truncate_content text)
  | Null => Raise (TypeError "object of type 'NoneType' has no len()")
  end.

Section FileSystem.

Variable Collection : Type.
Variable clock : nat -> datetime.
(** Is [self.session] set? *)
Variable session : bool.
(** The POSTs to the file-system server.  A JSON body is kept as what the
    collector reads off it: the ["files"] of a [list_files] reply (the empty
    list when it has none) and the ["content"] of a [read_file] reply (the
    empty text when it has none). *)
Variable post_list_files : Post (list FileInfo).
Variable post_read_file : string -> Post Content.
(** [hashlib.md5(s.encode()).hexdigest()]; [s.encode()] raises a
    [UnicodeEncodeError], which is a [ValueError], on a path that cannot be
    encoded. *)
Variable md5_hexdigest : string -> Result string.
(** [str(Path(p).parent)] and [Path(p).parent.name]. *)
Variable path_parent : string -> string.
Variable path_parent_name : string -> string.

Local Abbreviation M := (M Collection).

(** [_call_mcp_server]: the JSON body of a reply with status 200; any other
    outcome of the POST is logged with a warning and answered with the empty
    dict, given here as what the caller reads off it.  Without a session
    the call raises.  (The status and the exception are left out of the
    messages.) *)
Definition _call_mcp_server {A} (server method : string) (post : Post A) (empty : A)
  : M A :=
  if session then
    match post with
    | Replied json => ret json
    | Status _ =>
        logger (LogWarning ("MCP call failed: " ++ server ++ "/" ++ method)) ;;
        ret empty
    | Failed _ =>
        logger (LogWarning ("MCP call error: " ++ server ++ "/" ++ method)) ;;
        ret empty
    end
  else raise (RuntimeError "MCPDataCollector must be used as async context manager").

(** The body of the inner [try]. *)
Definition file_body (items : list KnowledgeItem) (file_info : FileInfo)
  : M (list KnowledgeItem) :=
  path <- lift (getitem "path" (fi_path file_info)) ;;
  content_data <- _call_mcp_server "filesystem" "read_file" (post_read_file path)
                    (Text "") ;;
  content <- lift (truncated content_data) ;;
  name <- lift (getitem "name" (fi_name file_info)) ;;
  let content_type := file_content_type name in
  digest <- lift (md5_hexdigest path) ;;
  file_item <- KnowledgeItem_init clock
                 (mkKnowledgeItem
                    ("filesystem_" ++ digest)
                    name
                    content
                    content_type
                    "filesystem_mcp"
                    [("path", path);
                     ("size", match fi_size file_info with Some n => n | None => "0" end);
                     ("extension", extension name);
                     ("directory", path_parent path)]
                    None None None
                    (Some [lower (extension name); lower (path_parent_name path)])) ;;
  ret (items ++ [file_item])%list.

(** One turn of the loop: the inner [try ... except Exception: ... continue].
    The handler reads [file_info['path']] for its message, and raises in
    its turn when the entry has no path.  (The exception is left out of the
    message.) *)
Definition file_step (items : list KnowledgeItem) (file_info : FileInfo)
  : M (list KnowledgeItem) :=
  try_except
    (file_body items file_info)
    (fun e =>
       path <- lift (getitem "path" (fi_path file_info)) ;;
       logger (LogWarning ("Error reading file " ++ path)) ;;
       ret items).

(** The loop inside the outer [try]: an exception that leaves a turn ends
    the loop, is logged, and the items collected so far are returned. *)
Fixpoint collect_loop (files : list FileInfo) (items : list KnowledgeItem)
  : M (list KnowledgeItem) :=
  match files with
  | [] => ret items
  | file_info :: rest =>
      fun w =>
        match file_step items file_info w with
        | (Ok items', w') => collect_loop rest items' w'
        | (Raise e, w') =>
            (logger (LogError "Error collecting FileSystem data" e) ;; ret items) w'
        end
  end.

(** [_collect_filesystem_data]: the listing, inside the outer [try], then
    the loop over its first 100 entries. *)
Definition _collect_filesystem_data : M (list KnowledgeItem) :=
  fun w =>
    match _call_mcp_server "filesystem" "list_files" post_list_files [] w with
    | (Ok files, w') => collect_loop (firstn 100 files) [] w'
    | (Raise e, w') =>
        (logger (LogError "Error collecting FileSystem data" e) ;; ret []) w'
    end.

(** What the collector reads off the two calls: of the listing, nothing
    when it has no session. *)
Definition listed : list FileInfo :=
  if session then
    match post_list_files with
    | Replied files => files
    | _ => []
    end
  else [].

Definition read (path : string) : Content :=
  match post_read_file path with
  | Replied content => content
  | _ => Text ""
  end.

(** The entries in front of the first one that has no path. *)
Fixpoint before_pathless (files : list FileInfo) : list FileInfo :=
  match files with
  | [] => []
  | file_info :: rest =>
      match fi_path file_info with
      | Some _ => file_info :: before_pathless rest
      | None => []
      end
  end.

(** An entry with a name and a path whose content is a text and whose path
    can be hashed. *)
Definition collectable (file_info : FileInfo) : bool :=
  match fi_path file_info, fi_name file_info with
  | Some path, Some _ =>
      match read path with
      | Text _ => is_ok (md5_hexdigest path)
      | Null => false
      end
  | _, _ => false
  end.

End FileSystem.

End Collector.

(** ** Vocabulary for ingestion *)

(** An item whose optional fields have been filled, as [__post_init__]
    leaves them. *)
Definition ready (it : KnowledgeItem) : Prop :=
  exists c u tg, created_at it = Some c /\ updated_at it = Some u /\ tags it = Some tg.

Definition meta_ids (table : list Sqlite.MetaRow) : list string := map Sqlite.m_id table.

(** The number of clock reads the construction of these items takes: one
    per record that comes without [created_at]. *)
Definition is_none {A} (o : option A) : bool :=
  match o with None => true | Some _ => false end.

Definition clock_reads (records : list KnowledgeItem) : nat :=
  List.length (filter (fun r => is_none (created_at r)) records).

(** The items [collect_all_data] builds from the records when the clock
    has been read [n] times before. *)
Fixpoint stamp (clock : nat -> datetime) (n : nat) (records : list KnowledgeItem)
  : list KnowledgeItem :=
  match records with
  | [] => []
  | r :: rest =>
      match created_at r with
      | None => __post_init__ (clock n) r :: stamp clock (S n) rest
      | Some c => __post_init__ c r :: stamp clock n rest
      end
  end.

(** The entries [add_items] hands to [collection.add] for a batch. *)
Definition chroma_entries (encode : string -> Embedding) (items : list KnowledgeItem)
    (metadatas : list Chroma.Meta) : list Chroma.Entry :=
  map (fun e => Chroma.mkEntry (fst (fst (fst e))) (snd (fst (fst e)))
                  (snd (fst e)) (snd e))
      (combine (combine (combine (map id items) (map encode (map content items)))
                  metadatas) (map content items)).

Definition batch_entries (encode : string -> Embedding) (items : list KnowledgeItem)
  : list Chroma.Entry :=
  match mapR chroma_meta items with
  | Ok metadatas => chroma_entries encode items metadatas
  | Raise _ => []
  end.

(** The warnings the conversion loop of [search_knowledge_base] writes. *)
Definition invalid_warnings (content_types : list string) : list LogRecord :=
  map (fun ct => LogWarning ("Invalid content type: " ++ ct))
      (filter (fun ct => is_none (ContentType_of_value ct)) content_types).

(** ** Vocabulary for highlights *)

(** [s[k:]]. *)
Fixpoint drop (k : nat) (s : string) : string :=
  match k, s with
  | O, _ => s
  | S _, EmptyString => EmptyString
  | S k', String _ s' => drop k' s'
  end.

(** The word [w] is read at offset [i] of [s], whatever the case. *)
Definition occurs_at (w s : string) (i : nat) : Prop :=
  PyStr.lower (substring i (String.length w) s) = PyStr.lower w.

(** [marked w s s']: [s'] is [s] with the leftmost non-overlapping
    occurrences of [w], whatever their case, replaced by [w] in upper case
    between two pairs of asterisks.  Either [w] occurs nowhere and [s'] is
    [s], or [s] is [before ++ m ++ rest] where [m] is the first occurrence,
    which is replaced, and the marking goes on in [rest]. *)
Inductive marked (w : string) : string -> string -> Prop :=
| marked_none (s : string) :
    (forall i, ~ occurs_at w s i) -> marked w s s
| marked_first (before m rest rest' : string) :
    PyStr.lower m = PyStr.lower w ->
    (forall i, i < String.length before -> ~ occurs_at w (before ++ m ++ rest) i) ->
    marked w rest rest' ->
    marked w (before ++ m ++ rest) (before ++ "**" ++ PyStr.upper w ++ "**" ++ rest').

(** The words are marked one after the other, each in the text the words
    before it have left. *)
Inductive marked_all : list string -> string -> string -> Prop :=
| marked_all_nil (s : string) : marked_all [] s s
| marked_all_cons (w : string) (ws : list string) (s s1 s' : string) :
    marked w s s1 -> marked_all ws s1 s' -> marked_all (w :: ws) s s'.

(** ** Vocabulary for statistics *)

(** The number of keys equal to [k], and the count listed for [k]. *)
Definition occurrences {K : Type} (eqb : K -> K -> bool) (k : K) (keys : list K) : nat :=
  List.length (filter (fun k' => eqb k' k) keys).

Fixpoint count_in {K : Type} (eqb : K -> K -> bool) (acc : list (K * nat)) (k : K) : nat :=
  match acc with
  | [] => 0
  | (k', n) :: rest => if eqb k' k then n else count_in eqb rest k
  end.

Definition by_count_desc {K : Type} (a b : K * nat) : Prop := snd b <= snd a.

(** ** More of the in-memory instance *)

Module MemMore.

(** [collection.count()] on the in-memory collection. *)
Definition collection_count (c : Mem.Collection) : Result nat := Ok (List.length c).

(** A vector index that rejects every batch. *)
Definition rejecting_add (c : Mem.Collection) (entries : list Chroma.Entry)
  : Result Mem.Collection :=
  Raise (IndexFailure "could not connect to the collection").

(** A world whose vector index holds nothing yet and whose database cannot
    be opened. *)
Definition closed_world : World Mem.Collection := mkWorld 0 [] [] [] false [] [].

(** The item built from [Mem.a1] at time 1000. *)
Definition a1_item : KnowledgeItem := __post_init__ 1000%Z Mem.a1.

Definition add_items := add_items Mem.Collection Mem.collection_add (Mem.encode Mem.embeddings).

(** The worlds after a refresh that collected [a1] and [a2], and after a
    second one that collected [a3] and [a1]. *)
Definition first_batch : World Mem.Collection :=
  snd (Mem.refresh [Mem.a1; Mem.a2] Mem.empty_world).
Definition second_batch : World Mem.Collection :=
  snd (Mem.refresh [Mem.a3; Mem.a1] first_batch).

(** A file-system server: its listing, the replies to [read_file], and
    stand-ins for the hash and for the parent directory of a path. *)
Definition listing : list FileInfo :=
  [mkFileInfo (Some "README.md") (Some "/srv/README.md") (Some "12");
   mkFileInfo (Some "data.json") (Some "/srv/data.json") None;
   mkFileInfo None (Some "/srv/unnamed") None;
   mkFileInfo (Some "lost.py") None None;
   mkFileInfo (Some "main.py") (Some "/srv/main.py") None].

Definition read_reply (path : string) : Post Collector.Content :=
  if String.eqb path "/srv/README.md" then Replied (Collector.Text "# Notes")
  else if String.eqb path "/srv/data.json" then Replied Collector.Null
  else if String.eqb path "/srv/main.py" then Replied (Collector.Text "print(1)")
  else Status 404.

Definition collect_files : M Mem.Collection (list KnowledgeItem) :=
  Collector._collect_filesystem_data Mem.Collection Mem.clock true
    (Replied listing) read_reply (fun path => Ok path)
    (fun _ => "/srv") (fun _ => "srv").

End MemMore.

(** A character that [lower] leaves as it is. *)
Definition lower_fixed (c : ascii) : bool := Ascii.eqb (PyStr.lower_char c) c.
(** * Properties *)

(** ** KnowledgeItem construction invariant *)

Section Construction.

Variable Collection : Type.
Variable clock : nat -> datetime.

(** C10: constructing a [KnowledgeItem] always yields an item whose
    [created_at], [updated_at] and [tags] are not [None].  When [created_at]
    is not supplied the clock is read once and [created_at] is that
    construction time; when [updated_at] is not supplied it is [created_at]
    (so both are the construction time when neither was supplied); when
    [tags] is not supplied it is the empty list.  Supplied values and all
    other fields are kept, and the clock is not read when [created_at] is
    supplied. *)
Theorem post_init_fields_set (args : KnowledgeItem) (w : World Collection) :
  exists it w',
    KnowledgeItem_init clock args w = (Ok it, w') /\
    created_at it <> None /\ updated_at it <> None /\ tags it <> None /\
    (created_at args = None ->
       created_at it = Some (clock (ticks w)) /\ ticks w' = S (ticks w)) /\
    (updated_at args = None -> updated_at it = created_at it) /\
    (created_at args = None -> updated_at args = None ->
       updated_at it = Some (clock (ticks w)) /\ updated_at it = created_at it) /\
    (tags args = None -> tags it = Some []) /\
    (forall c, created_at args = Some c -> created_at it = Some c /\ w' = w) /\
    (forall u, updated_at args = Some u -> updated_at it = Some u) /\
    (forall t, tags args = Some t -> tags it = Some t) /\
    (id it = id args /\ title it = title args /\ content it = content args /\
     content_type it = content_type args /\ source it = source args /\
     metadata it = metadata args /\ embedding it = embedding args) /\
    it = __post_init__ (match created_at args with
                        | Some c => c
                        | None => clock (ticks w)
                        end) args.
Proof.
  unfold KnowledgeItem_init.
  destruct args as [i t c ct s m e [ca|] [ua|] [tg|]]; cbn [created_at];
    unfold bind, datetime_now, ret;
    eexists _, _; (split; [reflexivity|]);
    cbn [__post_init__ created_at updated_at tags id title content content_type
         source metadata embedding ticks];
    repeat split; intros; try congruence; try discriminate.
Qed.

End Construction.

(** ** Highlight examples *)

Example highlight_retry_queue :
  _generate_highlight "add retry logic to the queue consumer" "retry queue"
  = Ok "add **RETRY** logic to the **QUEUE** consumer".
Proof. reflexivity. Qed.

Example highlight_no_match :
  _generate_highlight "unrelated topic about fonts" "retry queue"
  = Ok "unrelated topic about fonts".
Proof. reflexivity. Qed.

Example highlight_bad_template :
  is_ok (_generate_highlight "a path C:\dev here" "c:\dev") = false.
Proof. reflexivity. Qed.

(** ** Facts about the string operations *)

Module PyStrFacts.
Import PyStr.

Lemma length_app (a b : string) :
  String.length (a ++ b) = String.length a + String.length b.
Proof. induction a as [|c a IH]; simpl; [reflexivity | now rewrite IH]. Qed.

Lemma length_lower (s : string) : String.length (lower s) = String.length s.
Proof. induction s as [|c s IH]; simpl; [reflexivity | now rewrite IH]. Qed.

Lemma lower_app (a b : string) : lower (a ++ b) = lower a ++ lower b.
Proof. induction a as [|c a IH]; simpl; [reflexivity | now rewrite IH]. Qed.

Lemma lower_substring (n m : nat) (s : string) :
  lower (substring n m s) = substring n m (lower s).
Proof.
  revert n m; induction s as [|c s IH]; intros [|n] [|m]; simpl;
    try reflexivity; try apply IH.
  now rewrite IH.
Qed.

Lemma substring_length_le (n m : nat) (s : string) :
  String.length (substring n m s) <= m.
Proof.
  revert n m; induction s as [|c s IH]; intros [|n] [|m]; simpl; try lia.
  - specialize (IH 0 m); lia.
  - apply (IH n 0).
  - apply (IH n (S m)).
Qed.

Lemma substring_app_right (a b : string) (i n : nat) :
  substring (String.length a + i) n (a ++ b) = substring i n b.
Proof. induction a as [|c a IH]; simpl; [reflexivity | exact IH]. Qed.

Lemma substring_app_left (a b : string) (i n : nat) :
  i + n <= String.length a -> substring i n (a ++ b) = substring i n a.
Proof.
  revert i n; induction a as [|c a IH]; intros i n H; simpl in *.
  - assert (i = 0) by lia; assert (n = 0) by lia; subst.
    destruct b; reflexivity.
  - destruct i as [|i].
    + destruct n as [|n]; [reflexivity|].
      f_equal. apply (IH 0 n). lia.
    + apply IH. lia.
Qed.

Lemma substring_substring (s : string) (a n b m : nat) :
  a + n <= m -> substring a n (substring b m s) = substring (b + a) n s.
Proof.
  revert a n b m; induction s as [|c s IH]; intros a n b m H.
  - destruct a, n, b, m; reflexivity.
  - destruct b as [|b].
    + destruct m as [|m].
      * assert (a = 0) by lia; assert (n = 0) by lia; subst. reflexivity.
      * simpl substring at 2. destruct a as [|a].
        -- destruct n as [|n]; [reflexivity|]. simpl. f_equal.
           apply (IH 0 n 0 m). lia.
        -- simpl. apply (IH a n 0 m). lia.
    + simpl. apply IH. exact H.
Qed.

Lemma prefix_length (w s : string) :
  prefix w s = true -> String.length w <= String.length s.
Proof.
  revert s; induction w as [|a w IH]; intros s H; simpl; [lia|].
  destruct s as [|b s]; simpl in H; [discriminate|].
  destruct (ascii_dec a b); [|discriminate].
  apply IH in H. simpl. lia.
Qed.

Lemma find_from_nil (w : string) (i : nat) :
  find_from w "" i = if prefix w "" then Some i else None.
Proof. reflexivity. Qed.

Lemma find_from_cons (w : string) (c : ascii) (s : string) (i : nat) :
  find_from w (String c s) i
  = if prefix w (String c s) then Some i else find_from w s (S i).
Proof. reflexivity. Qed.

(** [find_from] returns an occurrence, inside the string, and no earlier
    offset is one. *)
Lemma find_from_sound (w s : string) (i p : nat) :
  find_from w s i = Some p ->
  i <= p /\ substring (p - i) (String.length w) s = w /\
  (p - i) + String.length w <= String.length s.
Proof.
  revert i; induction s as [|c s IH]; intros i H;
    [rewrite find_from_nil in H | rewrite find_from_cons in H].
  - destruct (prefix w "") eqn:E; [|discriminate].
    injection H as <-. rewrite Nat.sub_diag.
    split; [lia|]. split; [now apply prefix_correct|].
    apply prefix_length in E. simpl in *; lia.
  - destruct (prefix w (String c s)) eqn:E.
    + injection H as <-. rewrite Nat.sub_diag.
      split; [lia|]. split; [now apply prefix_correct|].
      apply prefix_length in E. simpl in *; lia.
    + apply IH in H. destruct H as (Hle & Hsub & Hlen).
      split; [lia|].
      replace (p - i) with (S (p - S i)) by lia.
      simpl. split; [exact Hsub | lia].
Qed.

Lemma find_from_earliest (w s : string) (i p q : nat) :
  find_from w s i = Some p -> i <= q -> q < p ->
  substring (q - i) (String.length w) s <> w.
Proof.
  revert i; induction s as [|c s IH]; intros i H Hiq Hqp;
    [rewrite find_from_nil in H | rewrite find_from_cons in H].
  - destruct (prefix w "") eqn:E; [injection H as <-; lia | discriminate].
  - destruct (prefix w (String c s)) eqn:E; [injection H as <-; lia|].
    destruct (Nat.eq_dec q i) as [->|Hne].
    + rewrite Nat.sub_diag. intro Hc. apply prefix_correct in Hc. congruence.
    + replace (q - i) with (S (q - S i)) by lia. simpl.
      apply IH; [exact H | lia | exact Hqp].
Qed.

Lemma find_from_complete (w s : string) (i : nat) :
  find_from w s i = None ->
  forall q, substring q (String.length w) s <> w.
Proof.
  revert i; induction s as [|c s IH]; intros i H q;
    [rewrite find_from_nil in H | rewrite find_from_cons in H].
  - destruct (prefix w "") eqn:E; [discriminate|].
    intro Hc. destruct w as [|a w]; [simpl in E; discriminate E|].
    destruct q; simpl in Hc; discriminate Hc.
  - destruct (prefix w (String c s)) eqn:E; [discriminate|].
    destruct q as [|q].
    + intro Hc. apply prefix_correct in Hc. congruence.
    + simpl. eapply IH; eassumption.
Qed.

Lemma find_none_iff (s w : string) : find s w = None <-> ~ contains s w.
Proof.
  unfold find, contains; split.
  - intros H [q Hq]. exact (find_from_complete _ _ _ H q Hq).
  - intros H. destruct (find_from w s 0) as [p|] eqn:E; [|reflexivity].
    exfalso. apply H. apply find_from_sound in E.
    exists p. rewrite Nat.sub_0_r in E. tauto.
Qed.

Lemma contains_app_l (a b w : string) : contains b w -> contains (a ++ b) w.
Proof.
  intros [i Hi]. exists (String.length a + i). now rewrite substring_app_right.
Qed.

Lemma substring_overrun (a : string) (n i : nat) :
  String.length a < i + n -> String.length (substring i n a) = n -> n = 0.
Proof.
  revert n i; induction a as [|c a IH]; intros n i Hgt Hl.
  - destruct i, n; simpl in *; lia.
  - destruct i as [|i]; simpl in *.
    + destruct n as [|n]; [reflexivity|]. simpl in Hl.
      assert (n = 0) by (apply (IH n 0); simpl; lia). lia.
    + apply (IH n i); [lia | exact Hl].
Qed.

Lemma contains_app_r (a b w : string) : contains a w -> contains (a ++ b) w.
Proof.
  intros [i Hi].
  destruct (Nat.le_gt_cases (i + String.length w) (String.length a)) as [Hle|Hgt].
  - exists i. now rewrite substring_app_left.
  - (* an occurrence sticking out of [a] is an occurrence of the empty word *)
    assert (Hl : String.length (substring i (String.length w) a) = String.length w)
      by now rewrite Hi.
    apply substring_overrun in Hl; [|exact Hgt].
    destruct w; [|discriminate Hl].
    exists 0. now destruct (a ++ b).
Qed.

End PyStrFacts.

(** ** Highlights *)

Section Highlight.
Import PyStr PyStrFacts.

(** The loop over the query words keeps the smallest position found. *)
Lemma best_pos_fold (cl : string) (words : list string) (best : option nat) :
  match fold_left (best_pos_step cl) words best with
  | None => best = None /\ forall w, In w words -> find cl w = None
  | Some bp =>
      (best = Some bp \/ exists w, In w words /\ find cl w = Some bp) /\
      (forall b, best = Some b -> bp <= b) /\
      (forall w p, In w words -> find cl w = Some p -> bp <= p)
  end.
Proof.
  revert best; induction words as [|w words IH]; intro best; simpl.
  - destruct best as [b|].
    + split; [now left|]. split; [intros ? [= ->]; lia | intros ? ? []].
    + split; [reflexivity | intros ? []].
  - specialize (IH (best_pos_step cl best w)).
    destruct (fold_left (best_pos_step cl) words (best_pos_step cl best w)) as [bp|].
    + destruct IH as (Hsrc & Hle & Hall).
      unfold best_pos_step in Hsrc, Hle.
      destruct (find cl w) as [pos|] eqn:Ew.
      * destruct best as [b|].
        -- destruct (pos <? b) eqn:Elt.
           ++ apply Nat.ltb_lt in Elt. specialize (Hle _ eq_refl). split.
              ** destruct Hsrc as [[= <-]|(w' & Hin & Hf)];
                   right; [exists w | exists w']; auto.
              ** split; [intros ? [= <-]; lia|].
                 intros w' p [<-|Hin] Hf; [|eauto]. rewrite Ew in Hf.
                 injection Hf as <-. exact Hle.
           ++ apply Nat.ltb_ge in Elt. specialize (Hle _ eq_refl). split.
              ** destruct Hsrc as [Hb|(w' & Hin & Hf)]; [now left|].
                 right. exists w'. auto.
              ** split; [intros ? [= <-]; exact Hle|].
                 intros w' p [<-|Hin] Hf; [|eauto]. rewrite Ew in Hf.
                 injection Hf as <-. lia.
        -- specialize (Hle _ eq_refl). split.
           ++ destruct Hsrc as [[= <-]|(w' & Hin & Hf)];
                right; [exists w | exists w']; auto.
           ++ split; [discriminate|].
              intros w' p [<-|Hin] Hf; [|eauto]. rewrite Ew in Hf.
              injection Hf as <-. exact Hle.
      * split.
        -- destruct Hsrc as [Hb|(w' & Hin & Hf)]; [now left|].
           right. exists w'. auto.
        -- split; [exact Hle|].
           intros w' p [<-|Hin] Hf; [congruence | eauto].
    + destruct IH as (Hb & Hall). unfold best_pos_step in Hb.
      destruct (find cl w) as [pos|] eqn:Ew.
      * destruct best as [b|]; [destruct (pos <? b)|]; discriminate.
      * split; [exact Hb|]. intros w' [<-|Hin]; auto.
Qed.

Lemma best_pos_some (cl : string) (words : list string) (bp : nat) :
  best_pos words cl = Some bp ->
  (exists w, In w words /\ find cl w = Some bp) /\
  (forall w p, In w words -> find cl w = Some p -> bp <= p).
Proof.
  intro H. pose proof (best_pos_fold cl words None) as Hf.
  unfold best_pos in H. rewrite H in Hf. destruct Hf as ([Hn|Hs] & _ & Hall).
  - discriminate.
  - split; assumption.
Qed.

Lemma best_pos_none (cl : string) (words : list string) :
  best_pos words cl = None -> forall w, In w words -> find cl w = None.
Proof.
  intro H. pose proof (best_pos_fold cl words None) as Hf.
  unfold best_pos in H. rewrite H in Hf. apply Hf.
Qed.

(** An occurrence of [w] at offset [p] is not before the one [find] returns. *)
Lemma find_le_occurrence (s w : string) (p q : nat) :
  find s w = Some p -> substring q (String.length w) s = w -> p <= q.
Proof.
  intros Hf Hq. destruct (Nat.le_gt_cases p q) as [Hle|Hgt]; [exact Hle|].
  exfalso. unfold find in Hf.
  apply (find_from_earliest _ _ _ _ q Hf); [lia | exact Hgt |].
  now rewrite Nat.sub_0_r.
Qed.

Lemma window_parts (content : string) (bp : nat) :
  window content bp
  = (if 0 <? bp - 100 then "..." else "")
    ++ slice content (bp - 100) (Nat.min (String.length content) (bp + 200))
    ++ (if Nat.min (String.length content) (bp + 200) <? String.length content
        then "..." else "").
Proof.
  unfold window. rewrite Nat.max_0_l.
  assert (Hnil : forall s, s ++ "" = s).
  { induction s as [|c s IH]; simpl; [reflexivity | now rewrite IH]. }
  destruct (0 <? bp - 100); destruct (_ <? String.length content); simpl;
    now rewrite ?Hnil.
Qed.

(** The window holds at most 100 characters before the match position, 200
    from it on, and two ellipsis markers. *)
Lemma window_length (content : string) (bp : nat) :
  String.length (window content bp) <= 306.
Proof.
  rewrite window_parts, !length_app. unfold slice.
  pose proof (substring_length_le (bp - 100)
                (Nat.min (String.length content) (bp + 200) - (bp - 100)) content).
  assert (Nat.min (String.length content) (bp + 200) - (bp - 100) <= 300) by lia.
  destruct (0 <? bp - 100); destruct (_ <? String.length content); simpl; lia.
Qed.

(** The window holds the word found at the match position, unless the
    word is longer than the 200 characters kept from that position. *)
Lemma window_contains (content w : string) (bp : nat) :
  find (lower content) w = Some bp -> String.length w <= 200 ->
  contains (lower (window content bp)) w.
Proof.
  intros Hf Hlen. unfold find in Hf. apply find_from_sound in Hf.
  rewrite Nat.sub_0_r, length_lower in Hf. destruct Hf as (_ & Hsub & Hin).
  rewrite window_parts, !lower_app.
  apply contains_app_l, contains_app_r.
  exists (bp - (bp - 100)). unfold slice. rewrite lower_substring.
  rewrite substring_substring by lia.
  replace (bp - 100 + (bp - (bp - 100))) with bp by lia. exact Hsub.
Qed.

End Highlight.

(** ** Scores, sorting, slicing and deduplication *)

Lemma Qltb_true (x y : Q) : Qltb x y = true <-> (x < y)%Q.
Proof.
  unfold Qltb. rewrite negb_true_iff. split; intro H.
  - apply Qnot_le_lt. intro Hle. apply Qle_bool_iff in Hle. congruence.
  - destruct (Qle_bool y x) eqn:E; [|reflexivity].
    apply Qle_bool_iff in E. exfalso. exact (Qlt_not_le _ _ H E).
Qed.

Lemma Qltb_false (x y : Q) : Qltb x y = false <-> (y <= x)%Q.
Proof.
  unfold Qltb. rewrite negb_false_iff. apply Qle_bool_iff.
Qed.

Lemma max0_nonneg (x : Q) : (0 <= max0 x)%Q.
Proof.
  unfold max0. destruct (Qltb 0 x) eqn:E.
  - apply Qltb_true in E. now apply Qlt_le_weak.
  - apply Qle_refl.
Qed.

Lemma max0_le (x b : Q) : (0 <= b)%Q -> (x <= b)%Q -> (max0 x <= b)%Q.
Proof. unfold max0. now destruct (Qltb 0 x). Qed.

Lemma max0_id (x : Q) : (0 < x)%Q -> max0 x = x.
Proof. intro H. unfold max0. apply Qltb_true in H. now rewrite H. Qed.

(** The semantic score [max(0, 1 - distance)] of a non-negative distance
    lies in [0, 1]; the lexical score [max(0, -rank / 10)] is never
    negative. *)
Lemma semantic_score_bounds (distance : Q) :
  (0 <= distance)%Q -> (0 <= max0 (1 - distance) <= 1)%Q.
Proof.
  intro H. split; [apply max0_nonneg|].
  apply max0_le; [discriminate|].
  rewrite <- (Qplus_0_r 1) at 2. unfold Qminus.
  apply Qplus_le_r. rewrite <- (Qopp_involutive 0) . apply Qopp_le_compat.
  exact H.
Qed.

Section Sorting.

Lemma insert_desc_perm (x : SearchResult) (l : list SearchResult) :
  Permutation (insert_desc x l) (x :: l).
Proof.
  induction l as [|y l IH]; simpl; [reflexivity|].
  destruct (Qltb (score x) (score y)); [|reflexivity].
  rewrite IH. apply perm_swap.
Qed.

Lemma sort_perm (l : list SearchResult) : Permutation (sort_by_score_desc l) l.
Proof.
  induction l as [|x l IH]; simpl; [reflexivity|].
  rewrite insert_desc_perm. now apply perm_skip.
Qed.

Lemma ge_score_trans (a b c : SearchResult) :
  ge_score a b -> ge_score b c -> ge_score a c.
Proof. unfold ge_score. intros H1 H2. eapply Qle_trans; eassumption. Qed.

Lemma insert_desc_sorted (x : SearchResult) (l : list SearchResult) :
  StronglySorted ge_score l -> StronglySorted ge_score (insert_desc x l).
Proof.
  induction 1 as [|y l Hs IH Hy]; simpl.
  - constructor; constructor.
  - destruct (Qltb (score x) (score y)) eqn:E.
    + constructor; [exact IH|].
      eapply Permutation_Forall; [symmetry; apply insert_desc_perm|].
      constructor; [|exact Hy].
      apply Qltb_true in E. unfold ge_score. now apply Qlt_le_weak.
    + apply Qltb_false in E.
      constructor; [constructor; assumption|].
      constructor; [exact E|].
      eapply Forall_impl; [|exact Hy].
      intros z Hz. eapply ge_score_trans; [exact E | exact Hz].
Qed.

Lemma sort_sorted (l : list SearchResult) :
  StronglySorted ge_score (sort_by_score_desc l).
Proof.
  induction l as [|x l IH]; simpl; [constructor | now apply insert_desc_sorted].
Qed.

(** Stability: the results of any one score keep their order. *)
Lemma insert_desc_filter (q : Q) (x : SearchResult) (l : list SearchResult) :
  filter (has_score q) (insert_desc x l) = filter (has_score q) (x :: l).
Proof.
  induction l as [|y l IH]; [reflexivity|].
  simpl insert_desc. destruct (Qltb (score x) (score y)) eqn:E; [|reflexivity].
  simpl filter at 1. rewrite IH. simpl.
  destruct (has_score q x) eqn:Ex; [|reflexivity].
  destruct (has_score q y) eqn:Ey; [|reflexivity].
  exfalso. apply Qltb_true in E.
  unfold has_score in Ex, Ey. apply Qeq_bool_iff in Ex, Ey.
  rewrite Ex, Ey in E. exact (Qlt_irrefl _ E).
Qed.

Lemma sort_stable (q : Q) (l : list SearchResult) :
  filter (has_score q) (sort_by_score_desc l) = filter (has_score q) l.
Proof.
  induction l as [|x l IH]; [reflexivity|].
  simpl sort_by_score_desc. rewrite insert_desc_filter. simpl. now rewrite IH.
Qed.

End Sorting.

Section Slicing.
Context {A : Type}.

Lemma slice_to_firstn (l : list A) (n : Z) : exists k, slice_to l n = firstn k l.
Proof. unfold slice_to. destruct (0 <=? n)%Z; eexists; reflexivity. Qed.

Lemma slice_to_all (l : list A) (n : Z) :
  (Z.of_nat (List.length l) <= n)%Z -> slice_to l n = l.
Proof.
  intro H. unfold slice_to.
  destruct (0 <=? n)%Z eqn:E; [|apply Z.leb_gt in E; lia].
  apply firstn_all2. lia.
Qed.

Lemma firstn_In (k : nat) (l : list A) (x : A) : In x (firstn k l) -> In x l.
Proof.
  intro H. rewrite <- (firstn_skipn k l). apply in_or_app. now left.
Qed.

Lemma firstn_sorted (R : A -> A -> Prop) (k : nat) (l : list A) :
  StronglySorted R l -> StronglySorted R (firstn k l).
Proof.
  intro H. revert k. induction H as [|x l Hs IH Hx]; intro k.
  - rewrite firstn_nil. constructor.
  - destruct k as [|k]; simpl; constructor; [apply IH|].
    apply Forall_forall. intros y Hy. apply firstn_In in Hy.
    revert y Hy. now apply Forall_forall.
Qed.

Lemma firstn_NoDup (k : nat) (l : list A) : NoDup l -> NoDup (firstn k l).
Proof.
  intro H. rewrite <- (firstn_skipn k l) in H.
  now apply NoDup_app_remove_r in H.
Qed.

End Slicing.

Section Dedup.

Lemma existsb_eqb_In (s : string) (l : list string) :
  existsb (String.eqb s) l = true <-> In s l.
Proof.
  rewrite existsb_exists. split.
  - intros (x & Hx & E). apply String.eqb_eq in E. now subst.
  - intro H. exists s. split; [exact H | apply String.eqb_refl].
Qed.

Lemma dedup_In (seen : list string) (l : list SearchResult) (r : SearchResult) :
  In r (dedup seen l) -> In r l /\ ~ In (rid r) seen.
Proof.
  revert seen; induction l as [|x l IH]; intros seen H; simpl in H; [contradiction|].
  destruct (existsb (String.eqb (id (item x))) seen) eqn:E.
  - apply IH in H. simpl. tauto.
  - destruct H as [<-|H].
    + split; [now left|]. intro Hin. apply existsb_eqb_In in Hin.
      unfold rid in Hin. congruence.
    + apply IH in H. simpl in *. tauto.
Qed.

Lemma dedup_NoDup (seen : list string) (l : list SearchResult) :
  NoDup (map rid (dedup seen l)).
Proof.
  revert seen; induction l as [|x l IH]; intro seen; simpl; [constructor|].
  destruct (existsb (String.eqb (id (item x))) seen); [apply IH|].
  simpl. constructor; [|apply IH].
  intro Hin. apply in_map_iff in Hin. destruct Hin as (r & Hr & Hin).
  apply dedup_In in Hin. destruct Hin as [_ Hn]. apply Hn.
  rewrite Hr. now left.
Qed.

(** A result that survives is the first one of its id. *)
Lemma dedup_first (seen : list string) (l : list SearchResult) (r : SearchResult) :
  In r (dedup seen l) ->
  List.find (fun r' => String.eqb (rid r') (rid r)) l = Some r.
Proof.
  revert seen; induction l as [|x l IH]; intros seen H; simpl in H; [contradiction|].
  simpl. destruct (existsb (String.eqb (id (item x))) seen) eqn:E.
  - pose proof (dedup_In _ _ _ H) as [_ Hn].
    destruct (String.eqb (rid x) (rid r)) eqn:Ex; [|eapply IH; eassumption].
    apply String.eqb_eq in Ex. apply existsb_eqb_In in E.
    unfold rid in *. rewrite Ex in E. contradiction.
  - destruct H as [<-|H]; [now rewrite String.eqb_refl|].
    pose proof (dedup_In _ _ _ H) as [_ Hn].
    destruct (String.eqb (rid x) (rid r)) eqn:Ex; [|eapply IH; eassumption].
    apply String.eqb_eq in Ex. exfalso. apply Hn. left. exact Ex.
Qed.

(** Every id that is not yet seen survives. *)
Lemma dedup_complete (seen : list string) (l : list SearchResult) (i : string) :
  In i (map rid l) -> ~ In i seen -> In i (map rid (dedup seen l)).
Proof.
  revert seen; induction l as [|x l IH]; intros seen H Hn; simpl in *; [contradiction|].
  destruct (existsb (String.eqb (id (item x))) seen) eqn:E.
  - destruct H as [H|H]; [|now apply IH].
    apply existsb_eqb_In in E. unfold rid in H. congruence.
  - simpl. destruct (string_dec (rid x) i) as [Hx|Hx]; [now left|].
    right. destruct H as [H|H]; [contradiction|].
    apply IH; [exact H|]. intros [Hc|Hc]; [apply Hx; exact Hc | contradiction].
Qed.

End Dedup.

(** ** The engine: what a search can and cannot change *)

Section EngineFacts.

Variable Collection : Type.
Variable collection_add : Collection -> list Chroma.Entry -> Result Collection.
Variable collection_query :
  Collection -> Embedding -> Z -> option Chroma.Where -> Result (list Chroma.Hit).
Variable encode : string -> Embedding.
Variable fts_select :
  list Sqlite.FtsRow -> string -> option (list string) -> option (list string) -> Z ->
  Result (list (Sqlite.FtsRow * Q)).
Variable clock : nat -> datetime.

Local Abbreviation World := (World Collection).
Local Abbreviation M := (M Collection).
Local Abbreviation semantic := (_semantic_search Collection collection_query encode clock).
Local Abbreviation fulltext := (_fulltext_search Collection fts_select clock).
Local Abbreviation search_ := (search Collection collection_query encode fts_select clock).
Local Abbreviation search_api :=
  (search_knowledge_base Collection collection_query encode fts_select clock).
Local Abbreviation refresh := (refresh_knowledge_base Collection collection_add encode clock).

Lemma frame_refl (w : World) : frame w w.
Proof. repeat split. Qed.

Lemma frame_trans (w1 w2 w3 : World) : frame w1 w2 -> frame w2 w3 -> frame w1 w3.
Proof. unfold frame. intuition congruence. Qed.

Lemma quiet_ret {A} (a : A) : quiet (ret a : M A).
Proof. intro w. apply frame_refl. Qed.

Lemma quiet_lift {A} (r : Result A) : quiet (lift r : M A).
Proof. intro w. apply frame_refl. Qed.

Lemma quiet_get_world : quiet (get_world : M World).
Proof. intro w. apply frame_refl. Qed.

Lemma quiet_logger (r : LogRecord) : quiet (logger r : M unit).
Proof. intro w. repeat split. Qed.

Lemma quiet_now : quiet (datetime_now clock : M datetime).
Proof. intro w. repeat split. Qed.

Lemma quiet_connect : quiet (sqlite_connect : M unit).
Proof. intro w. unfold sqlite_connect. destruct (db_up w); apply frame_refl. Qed.

Lemma quiet_bind {A B} (m : M A) (k : A -> M B) :
  quiet m -> (forall a, quiet (k a)) -> quiet (bind m k).
Proof.
  intros Hm Hk w. unfold bind. specialize (Hm w).
  destruct (m w) as [[a|e] w']; simpl in *; [|exact Hm].
  eapply frame_trans; [exact Hm | apply Hk].
Qed.

Lemma quiet_try {A} (m : M A) (h : Exn -> M A) :
  quiet m -> (forall e, quiet (h e)) -> quiet (try_except m h).
Proof.
  intros Hm Hh w. unfold try_except. specialize (Hm w).
  destruct (m w) as [[a|e] w']; simpl in *; [exact Hm|].
  eapply frame_trans; [exact Hm | apply Hh].
Qed.

Lemma quiet_mapM {A B} (f : A -> M B) (l : list A) :
  (forall a, quiet (f a)) -> quiet (mapM f l).
Proof.
  intro Hf. induction l as [|a l IH]; simpl; [apply quiet_ret|].
  apply quiet_bind; [apply Hf|]. intro b.
  apply quiet_bind; [exact IH|]. intro bs. apply quiet_ret.
Qed.

Lemma quiet_init (args : KnowledgeItem) :
  quiet (KnowledgeItem_init clock args : M KnowledgeItem).
Proof.
  unfold KnowledgeItem_init. destruct (created_at args); [apply quiet_ret|].
  apply quiet_bind; [apply quiet_now | intro; apply quiet_ret].
Qed.

Lemma quiet_semantic_result (query : string) (h : Chroma.Hit) :
  quiet (semantic_result Collection clock query h).
Proof.
  unfold semantic_result.
  repeat (apply quiet_bind; [first [apply quiet_lift | apply quiet_init]|]; intro).
  apply quiet_ret.
Qed.

Lemma quiet_fulltext_result (query : string) (row : Sqlite.FtsRow * Q) :
  quiet (fulltext_result Collection clock query row).
Proof.
  unfold fulltext_result.
  repeat (apply quiet_bind; [first [apply quiet_lift | apply quiet_init]|]; intro).
  apply quiet_ret.
Qed.

(** The semantic search never raises, leaves the stores alone and issues
    exactly one vector query. *)
Lemma semantic_search_runs (query : string) (limit : Z)
    (cts : option (list ContentType)) (srcs tags : option (list string)) (w : World) :
  exists rs w',
    semantic query limit cts srcs tags w = (Ok rs, w') /\ stores w w' /\
    queries w' = (queries w ++ [VectorQuery query limit])%list.
Proof.
  unfold _semantic_search, try_except.
  match goal with |- context [bind (record_query ?ev) ?k] =>
    set (rest := k); assert (Hq : quiet (rest tt)) end.
  { subst rest. cbv beta.
    apply quiet_bind; [apply quiet_get_world|]. intro w0.
    apply quiet_bind; [apply quiet_lift|]. intro hits.
    apply quiet_mapM. intro. apply quiet_semantic_result. }
  unfold bind at 1. simpl.
  match goal with |- context [rest tt ?w0] => specialize (Hq w0); set (w1 := w0) in * end.
  destruct (rest tt w1) as [[rs|e] w'] eqn:E; simpl in Hq.
  - exists rs, w'. split; [reflexivity|].
    unfold frame, stores in *. subst w1. simpl in Hq. intuition.
  - eexists _, _. split; [reflexivity|].
    unfold frame, stores in *. subst w1. simpl in *. intuition.
Qed.

(** The lexical search never raises and leaves the stores alone; it issues
    its query when the database can be opened, and no query otherwise. *)
Lemma fulltext_search_runs (query : string) (limit : Z)
    (cts : option (list ContentType)) (srcs tags : option (list string)) (w : World) :
  exists rs w',
    fulltext query limit cts srcs tags w = (Ok rs, w') /\ stores w w' /\
    queries w' = (queries w ++ if db_up w then [LexicalQuery query limit] else [])%list.
Proof.
  unfold _fulltext_search, try_except, bind at 1, sqlite_connect.
  destruct (db_up w) eqn:Hup.
  - match goal with |- context [bind (record_query ?ev) ?k] =>
      set (rest := k); assert (Hq : quiet (rest tt)) end.
    { subst rest. cbv beta.
      apply quiet_bind; [apply quiet_get_world|]. intro w0.
      apply quiet_bind; [apply quiet_lift|]. intro rows.
      apply quiet_mapM. intro. apply quiet_fulltext_result. }
    unfold bind at 1. simpl.
    match goal with |- context [rest tt ?w0] => specialize (Hq w0); set (w1 := w0) in * end.
    destruct (rest tt w1) as [[rs|e] w'] eqn:E; simpl in Hq.
    + exists rs, w'. split; [reflexivity|].
      unfold frame, stores in *. subst w1. simpl in Hq. intuition.
    + eexists _, _. split; [reflexivity|].
      unfold frame, stores in *. subst w1. simpl in *. intuition.
  - eexists _, _. split; [reflexivity|].
    unfold stores. simpl. rewrite app_nil_r. intuition.
Qed.

(** [search] is the truncated, sorted, deduplicated concatenation of what
    the two searches return. *)
Lemma search_unfold (query : string) (limit : Z)
    (cts : option (list ContentType)) (srcs tags : option (list string))
    (w w1 w2 : World) (sem fts : list SearchResult) :
  semantic query (limit * 2) cts srcs tags w = (Ok sem, w1) ->
  fulltext query (limit * 2) cts srcs tags w1 = (Ok fts, w2) ->
  search_ query limit cts srcs tags w
  = (Ok (slice_to (sort_by_score_desc (dedup [] (sem ++ fts)%list)) limit), w2).
Proof.
  intros Hs Hf. unfold search, bind. now rewrite Hs, Hf.
Qed.

(** What the two searches put in a result. *)
Lemma mapM_In {A B} (f : A -> M B) (l : list A) (w w' : World) (bs : list B) :
  mapM f l w = (Ok bs, w') ->
  forall b, In b bs -> exists a w0 w0', In a l /\ f a w0 = (Ok b, w0').
Proof.
  revert w bs; induction l as [|a l IH]; intros w bs H b Hb.
  - injection H as Hbs _. subst bs. contradiction.
  - simpl in H. unfold bind in H.
    destruct (f a w) as [[b0|e] w0] eqn:Ea; [|discriminate].
    destruct (mapM f l w0) as [[bs0|e] w1] eqn:El; [|discriminate].
    injection H as Hbs Hw. subst bs w1. destruct Hb as [<-|Hb].
    + exists a, w, w0. split; [now left | exact Ea].
    + destruct (IH _ _ El b Hb) as (a' & v & v' & Hin & Hf).
      exists a', v, v'. split; [now right | exact Hf].
Qed.

Lemma semantic_result_shape (query : string) (h : Chroma.Hit) (w w' : World)
    (r : SearchResult) :
  semantic_result Collection clock query h w = (Ok r, w') ->
  rid r = Chroma.hit_id h /\ context r = Semantic (Chroma.hit_distance h) /\
  score r = max0 (1 - Chroma.hit_distance h)%Q /\
  _generate_highlight (Chroma.hit_document h) query = Ok (highlight r).
Proof.
  unfold semantic_result, bind, lift, KnowledgeItem_init, ret. cbn [created_at].
  destruct (to_ContentType _) as [ct|e]; [|discriminate].
  unfold bind, datetime_now, ret.
  destruct (_generate_highlight _ _) as [hl|e]; [|discriminate].
  intro H. injection H as <- _. repeat split.
Qed.

Lemma fulltext_result_shape (query : string) (row : Sqlite.FtsRow * Q) (w w' : World)
    (r : SearchResult) :
  fulltext_result Collection clock query row w = (Ok r, w') ->
  rid r = Sqlite.id (fst row) /\ context r = Fulltext (snd row) /\
  score r = max0 (- snd row / 10)%Q /\
  _generate_highlight (Sqlite.content (fst row)) query = Ok (highlight r).
Proof.
  unfold fulltext_result, bind, lift, KnowledgeItem_init, ret. cbn [created_at].
  destruct (to_ContentType _) as [ct|e]; [|discriminate].
  unfold bind, datetime_now, ret.
  destruct (_generate_highlight _ _) as [hl|e]; [|discriminate].
  intro H. injection H as <- _. repeat split.
Qed.

Lemma semantic_results_shape (query : string) (limit : Z)
    (cts : option (list ContentType)) (srcs tags : option (list string))
    (w w' : World) (rs : list SearchResult) :
  semantic query limit cts srcs tags w = (Ok rs, w') ->
  forall r, In r rs ->
    exists d, context r = Semantic d /\ score r = max0 (1 - d)%Q.
Proof.
  unfold _semantic_search, try_except, bind at 1, record_query.
  unfold bind at 1, get_world. unfold bind at 1, lift. cbn [collection].
  destruct (collection_query _ _ _ _) as [hits|e].
  - match goal with |- context [mapM ?f hits ?v] =>
      destruct (mapM f hits v) as [[bs|e] w1] eqn:E end.
    + intros H r Hr. injection H as <- _.
      destruct (mapM_In _ _ _ _ _ E r Hr) as (h & v & v' & _ & Hf).
      apply semantic_result_shape in Hf. exists (Chroma.hit_distance h). tauto.
    + unfold bind, logger, ret. intros H r Hr. injection H as <- _. contradiction.
  - unfold bind, logger, ret. intros H r Hr. injection H as <- _. contradiction.
Qed.

Lemma fulltext_results_shape (query : string) (limit : Z)
    (cts : option (list ContentType)) (srcs tags : option (list string))
    (w w' : World) (rs : list SearchResult) :
  fulltext query limit cts srcs tags w = (Ok rs, w') ->
  forall r, In r rs ->
    exists rank, context r = Fulltext rank /\ score r = max0 (- rank / 10)%Q.
Proof.
  unfold _fulltext_search, try_except, bind at 1, sqlite_connect.
  destruct (db_up w).
  - unfold bind at 1, record_query. unfold bind at 1, get_world.
    unfold bind at 1, lift. cbn [knowledge_fts].
    destruct (fts_select _ _ _ _ _) as [rows|e].
    + match goal with |- context [mapM ?f rows ?v] =>
        destruct (mapM f rows v) as [[bs|e] w1] eqn:E end.
      * intros H r Hr. injection H as <- _.
        destruct (mapM_In _ _ _ _ _ E r Hr) as (row & v & v' & _ & Hf).
        apply fulltext_result_shape in Hf. exists (snd row). tauto.
      * unfold bind, logger, ret. intros H r Hr. injection H as <- _. contradiction.
    + unfold bind, logger, ret. intros H r Hr. injection H as <- _. contradiction.
  - unfold bind, logger, ret. intros H r Hr. injection H as <- _. contradiction.
Qed.

(** Both searches run, one after the other, on unchanged stores. *)
Lemma search_runs (query : string) (limit : Z)
    (cts : option (list ContentType)) (srcs tags : option (list string)) (w : World) :
  exists sem fts w1 w2,
    semantic query (limit * 2) cts srcs tags w = (Ok sem, w1) /\
    fulltext query (limit * 2) cts srcs tags w1 = (Ok fts, w2) /\
    search_ query limit cts srcs tags w
    = (Ok (slice_to (sort_by_score_desc (dedup [] (sem ++ fts)%list)) limit), w2) /\
    stores w w2 /\
    queries w2
    = (queries w ++ VectorQuery query (limit * 2)
         :: (if db_up w then [LexicalQuery query (limit * 2)] else []))%list.
Proof.
  destruct (semantic_search_runs query (limit * 2) cts srcs tags w)
    as (sem & w1 & Hs & Hst1 & Hq1).
  destruct (fulltext_search_runs query (limit * 2) cts srcs tags w1)
    as (fts & w2 & Hf & Hst2 & Hq2).
  exists sem, fts, w1, w2.
  split; [exact Hs|]. split; [exact Hf|].
  split; [exact (search_unfold _ _ _ _ _ _ _ _ _ _ Hs Hf)|].
  split.
  - unfold stores in *. intuition congruence.
  - rewrite Hq2, Hq1. destruct Hst1 as (_ & _ & _ & ->).
    now rewrite <- app_assoc.
Qed.

Lemma find_app_left {A} (p : A -> bool) (l1 l2 : list A) (r x : A) :
  List.find p (l1 ++ l2)%list = Some r -> In x l1 -> p x = true -> In r l1.
Proof.
  induction l1 as [|y l1 IH]; simpl; intros H Hx Hp; [contradiction|].
  destruct (p y) eqn:E.
  - injection H as <-. now left.
  - destruct Hx as [->|Hx]; [congruence|]. right. now apply IH.
Qed.

Lemma find_app_right {A} (p : A -> bool) (l1 l2 : list A) (r : A) :
  List.find p (l1 ++ l2)%list = Some r -> (forall x, In x l1 -> p x = false) -> In r l2.
Proof.
  induction l1 as [|y l1 IH]; simpl; intros H Hn.
  - now apply find_some in H.
  - rewrite (Hn y (or_introl eq_refl)) in H. apply IH; [exact H|].
    intros x Hx. apply Hn. now right.
Qed.

(** ** Merging the two result lists *)

(** C2 (amended): a search never raises; the ids of the list it returns
    are pairwise distinct; every returned result is the first result of its
    id in the semantic results followed by the lexical results, so an id
    found by both searches keeps the semantic result (its score and its
    context) and an id found by one search only keeps that search's result;
    when the limit does not cut the merged list, every id found by either
    search is returned. *)
Theorem search_keeps_first_seen (query : string) (limit : Z)
    (cts : option (list ContentType)) (srcs tags : option (list string)) (w : World) :
  exists sem fts res w1 w2,
    semantic query (limit * 2) cts srcs tags w = (Ok sem, w1) /\
    fulltext query (limit * 2) cts srcs tags w1 = (Ok fts, w2) /\
    search_ query limit cts srcs tags w = (Ok res, w2) /\
    NoDup (map rid res) /\
    (forall r, In r res ->
       List.find (fun r' => String.eqb (rid r') (rid r)) (sem ++ fts)%list = Some r) /\
    (forall r, In r res -> In (rid r) (map rid sem) -> In r sem) /\
    (forall r, In r res -> ~ In (rid r) (map rid sem) -> In r fts) /\
    ((Z.of_nat (List.length (dedup [] (sem ++ fts)%list)) <= limit)%Z ->
     forall i, In i (map rid (sem ++ fts)%list) -> In i (map rid res)) /\
    (forall r, In r sem ->
       exists d, context r = Semantic d /\ score r = max0 (1 - d)%Q) /\
    (forall r, In r fts ->
       exists rank, context r = Fulltext rank /\ score r = max0 (- rank / 10)%Q).
Proof.
  destruct (search_runs query limit cts srcs tags w)
    as (sem & fts & w1 & w2 & Hs & Hf & Hr & _ & _).
  pose proof (semantic_results_shape _ _ _ _ _ _ _ _ Hs) as Hshape_s.
  pose proof (fulltext_results_shape _ _ _ _ _ _ _ _ Hf) as Hshape_f.
  set (merged := dedup [] (sem ++ fts)%list) in *.
  set (res := slice_to (sort_by_score_desc merged) limit) in *.
  exists sem, fts, res, w1, w2.
  assert (Hin : forall r, In r res -> In r merged).
  { intros r H.
    destruct (slice_to_firstn (sort_by_score_desc merged) limit) as [k Hk].
    unfold res in H. rewrite Hk in H.
    apply firstn_In in H. eapply Permutation_in; [apply sort_perm | exact H]. }
  assert (Hfirst : forall r, In r res ->
            List.find (fun r' => String.eqb (rid r') (rid r)) (sem ++ fts)%list = Some r).
  { intros r H. apply (dedup_first []). now apply Hin. }
  repeat split; try assumption.
  - destruct (slice_to_firstn (sort_by_score_desc merged) limit) as [k Hk].
    unfold res. rewrite Hk.
    rewrite <- firstn_map. apply firstn_NoDup.
    eapply Permutation_NoDup;
      [apply Permutation_map; symmetry; apply sort_perm | apply dedup_NoDup].
  - intros r H Hid. apply in_map_iff in Hid. destruct Hid as (x & Hx & Hxin).
    eapply find_app_left; [apply Hfirst; exact H | exact Hxin |].
    cbv beta. rewrite Hx. apply String.eqb_refl.
  - intros r H Hid. eapply find_app_right; [apply Hfirst; exact H|].
    intros x Hx. cbv beta. apply String.eqb_neq. intro E.
    apply Hid. rewrite <- E. now apply in_map.
  - intros Hlen i Hi. unfold res. rewrite slice_to_all.
    + eapply Permutation_in;
        [apply Permutation_map; symmetry; apply sort_perm|].
      apply dedup_complete; [exact Hi | intros []].
    + erewrite Permutation_length; [exact Hlen | apply sort_perm].
Qed.

(** ** Ordering of the result list *)

(** C3 (amended): the list a search returns is sorted by score, highest
    first; it is a prefix of a stable sort of the merged list, so results of
    equal score keep the order in which they were merged (semantic results
    before lexical ones, each in the order its index returned them). *)
Theorem search_sorted_stable (query : string) (limit : Z)
    (cts : option (list ContentType)) (srcs tags : option (list string)) (w : World) :
  exists sem fts res w1 w2,
    semantic query (limit * 2) cts srcs tags w = (Ok sem, w1) /\
    fulltext query (limit * 2) cts srcs tags w1 = (Ok fts, w2) /\
    search_ query limit cts srcs tags w = (Ok res, w2) /\
    StronglySorted ge_score res /\
    let merged := dedup [] (sem ++ fts)%list in
    let ranked := sort_by_score_desc merged in
    res = slice_to ranked limit /\
    (exists k, res = firstn k ranked) /\
    Permutation ranked merged /\
    forall q, filter (has_score q) ranked = filter (has_score q) merged.
Proof.
  destruct (search_runs query limit cts srcs tags w)
    as (sem & fts & w1 & w2 & Hs & Hf & Hr & _ & _).
  eexists sem, fts, _, w1, w2.
  split; [exact Hs|]. split; [exact Hf|]. split; [exact Hr|].
  split.
  - destruct (slice_to_firstn (sort_by_score_desc (dedup [] (sem ++ fts)%list)) limit)
      as [k ->].
    apply firstn_sorted, sort_sorted.
  - cbv zeta. split; [reflexivity|]. split; [apply slice_to_firstn|].
    split; [apply sort_perm | intro q; apply sort_stable].
Qed.

(** ** The empty query *)

(** C4 (amended): a search with the empty query string never raises and
    is run like any other: it sends the empty string to the vector index
    and, when the database opens, to the lexical index, and returns the
    truncated, sorted, deduplicated merge of what they answer. *)
Theorem search_empty_query_runs_both (limit : Z)
    (cts : option (list ContentType)) (srcs tags : option (list string)) (w : World) :
  exists sem fts w1 w2,
    semantic "" (limit * 2) cts srcs tags w = (Ok sem, w1) /\
    fulltext "" (limit * 2) cts srcs tags w1 = (Ok fts, w2) /\
    search_ "" limit cts srcs tags w
    = (Ok (slice_to (sort_by_score_desc (dedup [] (sem ++ fts)%list)) limit), w2) /\
    queries w2
    = (queries w ++ VectorQuery "" (limit * 2)
         :: (if db_up w then [LexicalQuery "" (limit * 2)] else []))%list.
Proof.
  destruct (search_runs "" limit cts srcs tags w)
    as (sem & fts & w1 & w2 & Hs & Hf & Hr & _ & Hq).
  exists sem, fts, w1, w2. auto.
Qed.

(** ** Failing indexes *)

Lemma semantic_search_fails (query : string) (limit : Z)
    (cts : option (list ContentType)) (srcs tags : option (list string))
    (w : World) (e : Exn) :
  collection_query (collection w) (encode query) limit (where_clause cts srcs) = Raise e ->
  exists w',
    semantic query limit cts srcs tags w = (Ok [], w') /\ stores w w' /\
    ticks w' = ticks w /\
    log w' = (log w ++ [LogError "Semantic search error" e])%list.
Proof.
  intro H. unfold _semantic_search, try_except, bind, record_query, get_world, lift.
  cbn [collection]. rewrite H. unfold logger, ret.
  eexists. split; [reflexivity|]. repeat split.
Qed.

Lemma fulltext_search_offline (query : string) (limit : Z)
    (cts : option (list ContentType)) (srcs tags : option (list string)) (w : World) :
  db_up w = false ->
  exists w' e,
    fulltext query limit cts srcs tags w = (Ok [], w') /\ stores w w' /\
    ticks w' = ticks w /\
    log w' = (log w ++ [LogError "Full-text search error" e])%list.
Proof.
  intro H. unfold _fulltext_search, try_except, bind, sqlite_connect.
  rewrite H. unfold logger, ret.
  eexists _, _. split; [reflexivity|]. repeat split.
Qed.

Lemma slice_to_nil {A} (n : Z) : slice_to (@nil A) n = [].
Proof. unfold slice_to. destruct (0 <=? n)%Z; apply firstn_nil. Qed.

(** The conversion loop keeps the valid content types, in order, and only
    writes warnings. *)
Lemma convert_content_types_runs (cts : list string) (w : World) :
  exists w',
    convert_content_types Collection cts w = (Ok (valid_content_types cts), w') /\
    frame w w' /\ ticks w' = ticks w /\
    log w' = (log w ++ invalid_warnings cts)%list.
Proof.
  revert w; induction cts as [|ct cts IH]; intro w;
    cbn [convert_content_types valid_content_types].
  - exists w. split; [reflexivity|]. split; [apply frame_refl|].
    split; [reflexivity|]. unfold invalid_warnings. cbn [filter map].
    now rewrite app_nil_r.
  - unfold invalid_warnings. cbn [filter].
    destruct (ContentType_of_value ct) as [e|]; cbn [is_none].
    + destruct (IH w) as (w' & H & Hf & Ht & Hl). exists w'. unfold bind. rewrite H.
      split; [reflexivity|]. split; [exact Hf|]. split; [exact Ht | exact Hl].
    + unfold bind at 1, logger.
      match goal with |- context [convert_content_types _ cts ?v] =>
        destruct (IH v) as (w' & H & Hf & Ht & Hl) end.
      exists w'. split; [exact H|]. split; [|split; [exact Ht|]].
      * unfold frame in *. cbn [collection knowledge_fts knowledge_metadata db_up queries] in Hf.
        exact Hf.
      * rewrite Hl. cbn [log map]. now rewrite <- app_assoc.
Qed.

(** C7 (amended): when the vector index fails on every query and the
    database cannot be opened, nothing is raised: each failure is logged,
    [search] returns the empty list and [search_knowledge_base] replies
    with a success carrying zero results, as it does for a query without
    matches. *)
Theorem search_swallows_index_failures (query : string) (limit : Z)
    (cts : option (list ContentType)) (content_types srcs tags : option (list string))
    (w : World) (e : Exn) :
  (forall emb n wh, collection_query (collection w) emb n wh = Raise e) ->
  db_up w = false ->
  (exists w' e',
     search_ query limit cts srcs tags w = (Ok [], w') /\
     log w' = (log w ++ [LogError "Semantic search error" e;
                         LogError "Full-text search error" e'])%list) /\
  (exists w' timestamp,
     search_api query limit content_types srcs tags w
     = (Ok (Success query 0 [] timestamp), w')).
Proof.
  intros Hvec Hdb.
  assert (Hsearch : forall c (v : World), collection v = collection w -> db_up v = false ->
            exists v' e',
              search_ query limit c srcs tags v = (Ok [], v') /\
              log v' = (log v ++ [LogError "Semantic search error" e;
                                  LogError "Full-text search error" e'])%list).
  { intros c v Hc Hd.
    destruct (semantic_search_fails query (limit * 2) c srcs tags v e)
      as (v1 & Hs & Hst & _ & Hl1); [rewrite Hc; apply Hvec|].
    destruct (fulltext_search_offline query (limit * 2) c srcs tags v1)
      as (v2 & e' & Hf & _ & _ & Hl2).
    { destruct Hst as (_ & _ & _ & ->). exact Hd. }
    exists v2, e'. split.
    - rewrite (search_unfold _ _ _ _ _ _ _ _ _ _ Hs Hf). simpl.
      now rewrite slice_to_nil.
    - rewrite Hl2, Hl1. now rewrite <- app_assoc. }
  split; [apply Hsearch; [reflexivity | exact Hdb]|].
  unfold search_knowledge_base, try_except. unfold bind at 1.
  assert (Hconv : exists (l : list ContentType) (v : World),
            match content_types with
            | Some c => convert_content_types Collection c
            | None => ret []
            end w = (Ok l, v) /\ frame w v).
  { destruct content_types as [c|].
    - destruct (convert_content_types_runs c w) as (v & H & Hf & _). eauto.
    - exists [], w. split; [reflexivity | apply frame_refl]. }
  destruct Hconv as (l & v & -> & Hf).
  destruct (Hsearch (match l with [] => None | _ :: _ => Some l end) v)
    as (v' & e' & Hs & _).
  { apply Hf. }
  { destruct Hf as (_ & _ & _ & Hd & _). now rewrite Hd. }
  unfold bind at 1. rewrite Hs. unfold bind, datetime_now, ret. simpl.
  eexists _, _. reflexivity.
Qed.

(** ** Invalid filter values *)

(** C9 (amended): a content-type string outside the enumeration is logged
    with a warning (one warning per invalid string, in the order of the
    request) and dropped; the request is not rejected:
    [search_knowledge_base] replies with the success of the search run with
    the remaining valid content types, or with no content-type filter when
    none remains. *)
Theorem invalid_content_types_are_dropped (query : string) (limit : Z)
    (content_types : list string) (srcs tags : option (list string)) (w : World) :
  exists w0 res w1 w2,
    convert_content_types Collection content_types w
    = (Ok (valid_content_types content_types), w0) /\
    frame w w0 /\
    log w0 = (log w ++ invalid_warnings content_types)%list /\
    search_ query limit
      (match valid_content_types content_types with
       | [] => None
       | _ :: _ => Some (valid_content_types content_types)
       end) srcs tags w0 = (Ok res, w1) /\
    search_api query limit (Some content_types) srcs tags w
    = (Ok (Success query (List.length res) (map result_dict res) (clock (ticks w1))), w2).
Proof.
  destruct (convert_content_types_runs content_types w) as (w0 & Hc & Hf & _ & Hl).
  destruct (search_runs query limit
              (match valid_content_types content_types with
               | [] => None
               | _ :: _ => Some (valid_content_types content_types)
               end) srcs tags w0)
    as (sem & fts & v1 & w1 & _ & _ & Hs & _ & _).
  eexists w0, _, w1, _. split; [exact Hc|]. split; [exact Hf|]. split; [exact Hl|].
  split; [exact Hs|].
  unfold search_knowledge_base, try_except. unfold bind at 1. rewrite Hc.
  unfold bind at 1. rewrite Hs. unfold bind, datetime_now, ret. reflexivity.
Qed.

(** ** Re-ingestion *)

Lemma select_after_replace (row : Sqlite.MetaRow) (table : list Sqlite.MetaRow) :
  Sqlite.select_by_id (Sqlite.m_id row) (Sqlite.insert_or_replace row table) = [row].
Proof.
  unfold Sqlite.select_by_id, Sqlite.insert_or_replace.
  rewrite filter_app. simpl. rewrite String.eqb_refl.
  replace (filter _ (filter _ table)) with (@nil Sqlite.MetaRow); [reflexivity|].
  symmetry. induction table as [|r table IH]; [reflexivity|].
  simpl. destruct (String.eqb (Sqlite.m_id r) (Sqlite.m_id row)) eqn:E; simpl;
    [exact IH | rewrite E; exact IH].
Qed.

Lemma select_other (i : string) (row : Sqlite.MetaRow) (table : list Sqlite.MetaRow) :
  Sqlite.m_id row <> i ->
  Sqlite.select_by_id i (Sqlite.insert_or_replace row table) = Sqlite.select_by_id i table.
Proof.
  intro Hne. unfold Sqlite.select_by_id, Sqlite.insert_or_replace.
  rewrite filter_app. cbn [filter].
  apply String.eqb_neq in Hne. rewrite Hne, app_nil_r.
  induction table as [|r table IH]; [reflexivity|].
  cbn [filter]. destruct (String.eqb (Sqlite.m_id r) (Sqlite.m_id row)) eqn:E;
    cbn [negb filter].
  - apply String.eqb_eq in E. rewrite E, Hne. exact IH.
  - destruct (String.eqb (Sqlite.m_id r) i); [f_equal|]; exact IH.
Qed.

Lemma meta_row_fields (it : KnowledgeItem) (row : Sqlite.MetaRow) :
  meta_row it = Ok row ->
  Sqlite.m_id row = id it /\
  created_at it = Some (Sqlite.m_created_at row) /\
  updated_at it = Some (Sqlite.m_updated_at row).
Proof.
  unfold meta_row.
  destruct (created_at it), (updated_at it), (tags it); try discriminate.
  intro H. injection H as <-. repeat split.
Qed.

Lemma sqlite_inserts_app (l1 l2 : list KnowledgeItem)
    (fts : list Sqlite.FtsRow) (meta : list Sqlite.MetaRow) :
  sqlite_inserts (l1 ++ l2)%list fts meta
  = match sqlite_inserts l1 fts meta with
    | Ok tables => sqlite_inserts l2 (fst tables) (snd tables)
    | Raise e => Raise e
    end.
Proof.
  revert fts meta; induction l1 as [|it l1 IH]; intros fts meta; [reflexivity|].
  cbn [app sqlite_inserts].
  destruct (fts_row it); [|reflexivity]. destruct (meta_row it); [|reflexivity].
  apply IH.
Qed.

(** Inserting items of other ids leaves the rows of an id alone. *)
Lemma sqlite_inserts_other (i : string) (items : list KnowledgeItem) :
  ~ In i (map id items) ->
  forall fts meta tables,
    sqlite_inserts items fts meta = Ok tables ->
    Sqlite.select_by_id i (snd tables) = Sqlite.select_by_id i meta.
Proof.
  induction items as [|it items IH]; intros Hn fts meta tables H.
  - injection H as <-. reflexivity.
  - cbn [sqlite_inserts] in H.
    destruct (fts_row it) as [fr|e]; [|discriminate].
    destruct (meta_row it) as [mr|e] eqn:Em; [|discriminate].
    apply IH in H; [|intro Hi; apply Hn; now right].
    rewrite H. apply select_other.
    destruct (meta_row_fields _ _ Em) as (Hid & _). rewrite Hid.
    intro E. apply Hn. now left.
Qed.

(** After the inserts of a batch, the id of an item that no later item of
    the batch shares has exactly one row: that item's. *)
Lemma sqlite_inserts_last (pre post : list KnowledgeItem) (it : KnowledgeItem)
    (fts : list Sqlite.FtsRow) (meta : list Sqlite.MetaRow)
    (tables : list Sqlite.FtsRow * list Sqlite.MetaRow) :
  ~ In (id it) (map id post) ->
  sqlite_inserts (pre ++ it :: post)%list fts meta = Ok tables ->
  exists row,
    meta_row it = Ok row /\ Sqlite.select_by_id (id it) (snd tables) = [row].
Proof.
  intros Hn H. rewrite sqlite_inserts_app in H.
  destruct (sqlite_inserts pre fts meta) as [[f1 m1]|e]; [|discriminate].
  cbn [fst snd sqlite_inserts] in H.
  destruct (fts_row it) as [fr|e]; [|discriminate].
  destruct (meta_row it) as [mr|e] eqn:Em; [|discriminate].
  exists mr. split; [reflexivity|].
  rewrite (sqlite_inserts_other _ _ Hn _ _ _ H).
  destruct (meta_row_fields _ _ Em) as (Hid & _). rewrite <- Hid.
  apply select_after_replace.
Qed.

(** What a successful [add_items] of a batch leaves in the tables. *)
Lemma add_items_ok (items : list KnowledgeItem) (w w1 : World) :
  items <> [] ->
  add_items Collection collection_add encode items w = (Ok tt, w1) ->
  sqlite_inserts items (knowledge_fts w) (knowledge_metadata w)
  = Ok (knowledge_fts w1, knowledge_metadata w1) /\
  collection_add (collection w) (batch_entries encode items) = Ok (collection w1) /\
  ticks w1 = ticks w.
Proof.
  intros Hne H. destruct items as [|it items]; [contradiction|].
  unfold batch_entries, chroma_entries.
  unfold add_items, bind, lift, logger, get_world, set_collection, sqlite_connect,
    set_tables, ret in H.
  destruct (mapR chroma_meta (it :: items)) as [metas|e]; [|discriminate].
  cbn [collection] in H.
  destruct (collection_add _ _) as [c'|e]; [|discriminate].
  cbn [db_up] in H. destruct (db_up w); [|discriminate].
  cbn [knowledge_fts knowledge_metadata] in H.
  destruct (sqlite_inserts (it :: items) (knowledge_fts w) (knowledge_metadata w))
    as [[fts' meta']|e]; [|discriminate].
  injection H as <-. cbn [knowledge_fts knowledge_metadata collection ticks fst snd].
  repeat split.
Qed.

Lemma clock_reads_app (l1 l2 : list KnowledgeItem) :
  clock_reads (l1 ++ l2)%list = clock_reads l1 + clock_reads l2.
Proof. unfold clock_reads. now rewrite filter_app, length_app. Qed.

Lemma stamp_ids (n : nat) (records : list KnowledgeItem) :
  map id (stamp clock n records) = map id records.
Proof.
  revert n; induction records as [|r records IH]; intro n; [reflexivity|].
  cbn [stamp]. destruct (created_at r); cbn [map]; now rewrite IH.
Qed.

Lemma stamp_length (n : nat) (records : list KnowledgeItem) :
  List.length (stamp clock n records) = List.length records.
Proof. rewrite <- (length_map id), stamp_ids. apply length_map. Qed.

Lemma stamp_app (n : nat) (l1 l2 : list KnowledgeItem) :
  stamp clock n (l1 ++ l2)%list
  = (stamp clock n l1 ++ stamp clock (n + clock_reads l1) l2)%list.
Proof.
  revert n; induction l1 as [|r l1 IH]; intro n.
  - cbn [app stamp]. unfold clock_reads. cbn [filter List.length].
    now rewrite Nat.add_0_r.
  - cbn [app stamp]. unfold clock_reads. cbn [filter].
    destruct (created_at r); cbn [is_none List.length app]; rewrite IH;
      unfold clock_reads; do 2 f_equal; f_equal; lia.
Qed.

Lemma init_step (args : KnowledgeItem) (w : World) :
  KnowledgeItem_init clock args w
  = match created_at args with
    | Some c => (Ok (__post_init__ c args), w)
    | None =>
        (Ok (__post_init__ (clock (ticks w)) args),
         mkWorld (S (ticks w)) (collection w) (knowledge_fts w)
           (knowledge_metadata w) (db_up w) (queries w) (log w))
    end.
Proof. unfold KnowledgeItem_init. destruct (created_at args); reflexivity. Qed.

(** [collect_all_data] builds the stamped items, reading the clock once
    per record without [created_at]. *)
Lemma collect_stamps (records : list KnowledgeItem) (w : World) :
  exists w',
    collect_all_data Collection clock records w
    = (Ok (stamp clock (ticks w) records), w') /\
    ticks w' = ticks w + clock_reads records /\ frame w w'.
Proof.
  unfold collect_all_data.
  assert (H : exists v,
             mapM (KnowledgeItem_init clock) records w
             = (Ok (stamp clock (ticks w) records), v) /\
             ticks v = ticks w + clock_reads records /\ frame w v).
  { revert w; induction records as [|r records IH]; intro w.
    - exists w. cbn [mapM stamp]. unfold ret, clock_reads. cbn [filter List.length].
      split; [reflexivity|]. split; [lia | apply frame_refl].
    - cbn [mapM stamp]. unfold bind at 1. rewrite init_step.
      unfold clock_reads. cbn [filter].
      destruct (created_at r) as [c|]; cbn [is_none List.length].
      + destruct (IH w) as (v & E & Ht & Hf).
        unfold bind. rewrite E. exists v. split; [reflexivity|]. now split.
      + match goal with |- context [bind _ _ ?w0] =>
          destruct (IH w0) as (v & E & Ht & Hf) end.
        cbn [ticks] in E, Ht. unfold bind. rewrite E. exists v.
        split; [reflexivity|]. split; [unfold clock_reads in Ht; lia|].
        unfold frame in *.
        cbn [collection knowledge_fts knowledge_metadata db_up queries] in Hf.
        exact Hf. }
  destruct H as (v & E & Ht & Hf).
  unfold bind. rewrite E. unfold logger, ret. eexists. split; [reflexivity|].
  cbn [ticks]. split; [exact Ht|].
  unfold frame in *. cbn [collection knowledge_fts knowledge_metadata db_up queries].
  exact Hf.
Qed.

(** A refresh that replies success has added the stamped items. *)
Lemma refresh_ok (records : list KnowledgeItem) (w w1 : World)
    (n : nat) (t : datetime) :
  records <> [] ->
  refresh records w = (Ok (RefreshSuccess n t), w1) ->
  sqlite_inserts (stamp clock (ticks w) records) (knowledge_fts w) (knowledge_metadata w)
  = Ok (knowledge_fts w1, knowledge_metadata w1) /\
  collection_add (collection w) (batch_entries encode (stamp clock (ticks w) records))
  = Ok (collection w1) /\
  ticks w1 = ticks w + clock_reads records + 1.
Proof.
  intros Hne H.
  destruct (collect_stamps records w) as (w0 & Hc & Ht & Hf).
  unfold refresh_knowledge_base, try_except in H. unfold bind at 1 in H.
  rewrite Hc in H. unfold bind at 1 in H.
  assert (Hitems : stamp clock (ticks w) records <> []).
  { intro E. apply (f_equal (@List.length _)) in E. rewrite stamp_length in E.
    destruct records; [contradiction | discriminate E]. }
  destruct (stamp clock (ticks w) records) as [|it items] eqn:Es; [contradiction|].
  destruct (add_items Collection collection_add encode (it :: items) w0)
    as [[[]|e] w0'] eqn:Ea.
  - unfold bind, datetime_now, ret in H. injection H as _ _ <-.
    cbn [knowledge_fts knowledge_metadata collection ticks].
    destruct (add_items_ok _ _ _ Hitems Ea) as (Hins & Hadd & Ht').
    destruct Hf as (Hcol & Hfts & Hmeta & _).
    rewrite Hfts, Hmeta in Hins. rewrite Hcol in Hadd.
    split; [exact Hins|]. split; [exact Hadd | lia].
  - unfold bind, logger, datetime_now, ret in H. discriminate H.
Qed.

(** ** Idempotence of ingestion *)

(** C5 (amended): when a record built by a collector without timestamps
    is part of the batches of two successful refreshes (in each batch as the
    last record of its id), [knowledge_metadata] holds exactly one row under
    its id after each of them.  The row left by a refresh carries the
    construction time of the item of that refresh both as [created_at] and
    as [updated_at]; so, with a clock that advances, [updated_at] advances
    on the second ingestion, and [created_at] advances with it. *)
Theorem reingest_replaces_metadata_row (rec : KnowledgeItem)
    (pre1 post1 pre2 post2 : list KnowledgeItem) (w w1 w2 : World)
    (n1 n2 : nat) (t1 t2 : datetime) :
  created_at rec = None -> updated_at rec = None ->
  ~ In (id rec) (map id post1) -> ~ In (id rec) (map id post2) ->
  refresh (pre1 ++ rec :: post1)%list w = (Ok (RefreshSuccess n1 t1), w1) ->
  refresh (pre2 ++ rec :: post2)%list w1 = (Ok (RefreshSuccess n2 t2), w2) ->
  exists row1 row2,
    Sqlite.select_by_id (id rec) (knowledge_metadata w1) = [row1] /\
    Sqlite.select_by_id (id rec) (knowledge_metadata w2) = [row2] /\
    Sqlite.m_created_at row1 = clock (ticks w + clock_reads pre1) /\
    Sqlite.m_updated_at row1 = clock (ticks w + clock_reads pre1) /\
    Sqlite.m_created_at row2 = clock (ticks w1 + clock_reads pre2) /\
    Sqlite.m_updated_at row2 = clock (ticks w1 + clock_reads pre2) /\
    ticks w + clock_reads pre1 < ticks w1 + clock_reads pre2 /\
    ((forall m n, m < n -> (clock m < clock n)%Z) ->
     (Sqlite.m_created_at row1 < Sqlite.m_created_at row2)%Z /\
     (Sqlite.m_updated_at row1 < Sqlite.m_updated_at row2)%Z).
Proof.
  intros Hc Hu Hn1 Hn2 H1 H2.
  assert (Hrow : forall pre post v v' n t,
            ~ In (id rec) (map id post) ->
            refresh (pre ++ rec :: post)%list v = (Ok (RefreshSuccess n t), v') ->
            exists row,
              Sqlite.select_by_id (id rec) (knowledge_metadata v') = [row] /\
              Sqlite.m_created_at row = clock (ticks v + clock_reads pre) /\
              Sqlite.m_updated_at row = clock (ticks v + clock_reads pre) /\
              ticks v' = ticks v + clock_reads (pre ++ rec :: post)%list + 1).
  { intros pre post v v' n t Hn H.
    assert (Hne : (pre ++ rec :: post)%list <> [])
      by (intro E; destruct pre; discriminate E).
    destruct (refresh_ok _ _ _ _ _ Hne H) as (Hins & _ & Ht).
    rewrite stamp_app in Hins. cbn [stamp] in Hins. rewrite Hc in Hins.
    apply sqlite_inserts_last in Hins.
    2:{ rewrite stamp_ids. exact Hn. }
    destruct Hins as (row & Hr & Hsel).
    cbn [snd id __post_init__] in Hsel.
    destruct (meta_row_fields _ _ Hr) as (_ & Hca & Hua).
    unfold __post_init__ in Hca, Hua. rewrite Hc, Hu in *.
    cbn [created_at updated_at] in Hca, Hua.
    injection Hca as Hca. injection Hua as Hua.
    exists row. split; [exact Hsel|]. split; [now symmetry|].
    split; [now symmetry | exact Ht]. }
  destruct (Hrow _ _ _ _ _ _ Hn1 H1) as (row1 & Hs1 & Hc1 & Hu1 & Ht1).
  destruct (Hrow _ _ _ _ _ _ Hn2 H2) as (row2 & Hs2 & Hc2 & Hu2 & _).
  exists row1, row2.
  assert (Hlt : ticks w + clock_reads pre1 < ticks w1 + clock_reads pre2).
  { rewrite Ht1, clock_reads_app. lia. }
  repeat split; try assumption.
  - rewrite Hc1, Hc2. auto.
  - rewrite Hu1, Hu2. auto.
Qed.

(** ** The tags filter *)

(** The [tags] argument is passed down to both searches and read by
    neither: a search with a tags filter is the search without it. *)
Lemma search_ignores_tags (query : string) (limit : Z)
    (cts : option (list ContentType)) (srcs tags : option (list string)) :
  search_ query limit cts srcs tags = search_ query limit cts srcs None.
Proof. reflexivity. Qed.

End EngineFacts.

(** ** Runs on the in-memory instance *)

Section Runs.

Local Open Scope Z_scope.

(** C1: with an FTS rank of -25 the lexical score [max(0, -rank / 10)] is
    5/2; [_fulltext_search] returns it as it is and, the row not being among
    the semantic results, [search] returns it as the score of its first
    result: a score above 1. *)
Theorem lexical_score_exceeds_one :
  exists rf rf' w1 r w2,
    Mem.fulltext_search Mem.ranks_large "retry" 2 None None None Mem.indexed
    = (Ok [rf; rf'], w1) /\
    context rf = Fulltext (-25) /\ (score rf == 5 # 2)%Q /\
    Mem.search Mem.ranks_large "retry" 1 None None None Mem.indexed = (Ok [r], w2) /\
    rid r = "a3" /\ context r = Fulltext (-25) /\ (score r == 5 # 2)%Q /\
    (1 < score r)%Q.
Proof.
  do 5 eexists.
  split; [vm_compute; reflexivity|].
  split; [reflexivity|]. split; [reflexivity|].
  split; [vm_compute; reflexivity|].
  split; [reflexivity|]. split; [reflexivity|]. split; reflexivity.
Qed.

(** C2 (as stated) fails: "a2" is found by both searches, with semantic
    score 3/4 and lexical score 9/10; the merged list holds it once, with
    score 3/4, which is not the maximum of the two, and with the semantic
    context alone. *)
Lemma merged_score_is_not_the_maximum :
  exists rs sem_rest w1 rf fts_rest w2 r rest w3,
    Mem.semantic_search "retry" 10 None None None Mem.indexed
    = (Ok (rs :: sem_rest), w1) /\
    Mem.fulltext_search Mem.ranks_small "retry" 10 None None None w1
    = (Ok (rf :: fts_rest), w2) /\
    Mem.search Mem.ranks_small "retry" 5 None None None Mem.indexed
    = (Ok (r :: rest), w3) /\
    rid rs = "a2" /\ rid rf = "a2" /\ rid r = "a2" /\
    (score rs == 3 # 4)%Q /\ (score rf == 9 # 10)%Q /\
    ~ (score r == Qmax (score rs) (score rf))%Q /\
    context r = Semantic (1 # 4).
Proof.
  do 9 eexists.
  split; [vm_compute; reflexivity|].
  split; [vm_compute; reflexivity|].
  split; [vm_compute; reflexivity|].
  repeat (split; [reflexivity|]).
  split; [|reflexivity].
  intro H. vm_compute in H. discriminate H.
Qed.

(** C3 (as stated) fails: the results "a1" and "a3" have the same score 0
    and are returned in that order, although "a1" is the less recent one,
    both by the [updated_at] of the result items and by the [updated_at]
    stored at ingestion. *)
Lemma equal_scores_keep_merge_order :
  exists r1 r2 r3 w',
    Mem.search Mem.ranks_small "retry" 5 None None None Mem.indexed
    = (Ok [r1; r2; r3], w') /\
    rid r2 = "a1" /\ rid r3 = "a3" /\ (score r2 == score r3)%Q /\
    updated_at (item r2) = Some 1005 /\ updated_at (item r3) = Some 1006 /\
    map Sqlite.m_updated_at (Sqlite.select_by_id "a1" (knowledge_metadata Mem.indexed))
    = [1000] /\
    map Sqlite.m_updated_at (Sqlite.select_by_id "a3" (knowledge_metadata Mem.indexed))
    = [1002].
Proof.
  do 4 eexists.
  split; [vm_compute; reflexivity|].
  repeat (split; [reflexivity|]). reflexivity.
Qed.

(** C4 (as stated) fails: the empty query is sent to both indexes; the
    vector index answers with its nearest entries and the search returns
    them. *)
Lemma empty_query_returns_results :
  exists r rest w',
    Mem.search Mem.ranks_small "" 5 None None None Mem.indexed = (Ok (r :: rest), w') /\
    queries Mem.indexed = [] /\
    queries w' = [VectorQuery "" 10; LexicalQuery "" 10].
Proof.
  do 3 eexists.
  split; [vm_compute; reflexivity|]. split; reflexivity.
Qed.

(** C5 (as stated) fails: after the record "a1" has been ingested twice,
    the row of [knowledge_metadata] has the [created_at] of the second
    ingestion, not of the first; moreover the lexical index holds two rows
    under the id, and the vector index still holds the first entry. *)
Lemma reingestion_moves_created_at :
  fst (Mem.refresh [Mem.a1] Mem.empty_world) = Ok (RefreshSuccess 1 1001) /\
  fst (Mem.refresh [Mem.a1] Mem.once) = Ok (RefreshSuccess 1 1003) /\
  map Sqlite.m_created_at (Sqlite.select_by_id "a1" (knowledge_metadata Mem.once))
  = [1000] /\
  map Sqlite.m_created_at (Sqlite.select_by_id "a1" (knowledge_metadata Mem.twice))
  = [1002] /\
  map Sqlite.id (knowledge_fts Mem.twice) = ["a1"; "a1"] /\
  map (fun e => Chroma.created_at (Chroma.metadata e)) (collection Mem.twice) = [1000].
Proof. repeat split; vm_compute; reflexivity. Qed.

(** C5 (amended), on two batches that both hold "a1". *)
Lemma reingest_replaces_metadata_row_run :
  exists row1 row2,
    Sqlite.select_by_id (id Mem.a1) (knowledge_metadata MemMore.first_batch) = [row1] /\
    Sqlite.select_by_id (id Mem.a1) (knowledge_metadata MemMore.second_batch) = [row2] /\
    Sqlite.m_created_at row1 = Mem.clock (ticks Mem.empty_world + clock_reads []) /\
    Sqlite.m_updated_at row1 = Mem.clock (ticks Mem.empty_world + clock_reads []) /\
    Sqlite.m_created_at row2
    = Mem.clock (ticks MemMore.first_batch + clock_reads [Mem.a3]) /\
    Sqlite.m_updated_at row2
    = Mem.clock (ticks MemMore.first_batch + clock_reads [Mem.a3]) /\
    (ticks Mem.empty_world + clock_reads []
     < ticks MemMore.first_batch + clock_reads [Mem.a3])%nat /\
    ((forall m n, (m < n)%nat -> Mem.clock m < Mem.clock n) ->
     Sqlite.m_created_at row1 < Sqlite.m_created_at row2 /\
     Sqlite.m_updated_at row1 < Sqlite.m_updated_at row2).
Proof.
  apply (reingest_replaces_metadata_row Mem.Collection Mem.collection_add
           (Mem.encode Mem.embeddings) Mem.clock Mem.a1
           [] [Mem.a2] [Mem.a3] [] Mem.empty_world
           MemMore.first_batch MemMore.second_batch 2 2 1002 1005).
  - reflexivity.
  - reflexivity.
  - intros [H|[]]. discriminate H.
  - intros [].
  - vm_compute. reflexivity.
  - vm_compute. reflexivity.
Defined.

(** C6 (as stated) fails: on a content of 200 letters "a" and the query
    "a", the word occurs and the highlight has 1000 characters, more than
    the 306 of the longest window. *)
Lemma highlight_longer_than_window :
  exists h,
    _generate_highlight Mem.many_a "a" = Ok h /\
    PyStr.contains (PyStr.lower Mem.many_a) "a" /\
    String.length h = 1000%nat /\ (306 < String.length h)%nat.
Proof.
  eexists. split; [vm_compute; reflexivity|].
  split; [exists 0%nat; reflexivity|].
  split; [vm_compute; reflexivity|].
  apply Nat.ltb_lt. vm_compute. reflexivity.
Qed.

(** The words are marked one after the other: a later pass rewrites the
    marks of an earlier one, and a word can be hidden by the marks written
    before its pass. *)
Lemma marking_goes_word_by_word :
  _generate_highlight "ab" "ab b" = Ok "**A**B****" /\
  _generate_highlight "ab" "b ab" = Ok "a**B**".
Proof. split; vm_compute; reflexivity. Qed.

(** C7 (as stated) fails: with the vector index unreachable and the
    database closed, the reply is a success with no result, not an error. *)
Lemma unavailable_search_replies_success :
  exists timestamp w',
    Mem.unreachable_query (collection Mem.offline) (Mem.encode Mem.embeddings "retry") 10 None
    = Raise (IndexFailure "could not connect to the collection") /\
    db_up Mem.offline = false /\
    search_knowledge_base Mem.Collection Mem.unreachable_query
      (Mem.encode Mem.embeddings) (Mem.fts_select Mem.ranks_small) Mem.clock
      "retry" 5 None None None Mem.offline
    = (Ok (Success "retry" 0 [] timestamp), w').
Proof.
  do 2 eexists. split; [reflexivity|]. split; [reflexivity|].
  vm_compute. reflexivity.
Qed.

(** C7 (amended), on the same run. *)
Lemma search_swallows_index_failures_run :
  (exists w' e',
     search Mem.Collection Mem.unreachable_query (Mem.encode Mem.embeddings)
       (Mem.fts_select Mem.ranks_small) Mem.clock "retry" 5 None None None Mem.offline
     = (Ok [], w') /\
     log w' = (log Mem.offline
               ++ [LogError "Semantic search error"
                     (IndexFailure "could not connect to the collection");
                   LogError "Full-text search error" e'])%list) /\
  (exists w' timestamp,
     search_knowledge_base Mem.Collection Mem.unreachable_query
       (Mem.encode Mem.embeddings) (Mem.fts_select Mem.ranks_small) Mem.clock
       "retry" 5 None None None Mem.offline
     = (Ok (Success "retry" 0 [] timestamp), w')).
Proof.
  apply (search_swallows_index_failures Mem.Collection Mem.unreachable_query
           (Mem.encode Mem.embeddings) (Mem.fts_select Mem.ranks_small) Mem.clock
           "retry" 5 None None None None Mem.offline
           (IndexFailure "could not connect to the collection")).
  - intros emb n wh. reflexivity.
  - reflexivity.
Defined.

(** C8: a search for "retry" with the tags filter ["queue"] returns "a2"
    and "a3", whose tags are ["fonts"] and ["release"]; the results are
    those of the search without the filter. *)
Theorem tags_filter_is_not_applied :
  exists r1 r2 r3 w',
    Mem.search Mem.ranks_small "retry" 5 None None (Some ["queue"]) Mem.indexed
    = (Ok [r1; r2; r3], w') /\
    Mem.search Mem.ranks_small "retry" 5 None None None Mem.indexed
    = (Ok [r1; r2; r3], w') /\
    rid r1 = "a2" /\ tags (item r1) = Some ["fonts"] /\
    rid r3 = "a3" /\ tags (item r3) = Some ["release"] /\
    ~ In "queue" ["fonts"] /\ ~ In "queue" ["release"].
Proof.
  do 4 eexists.
  split; [vm_compute; reflexivity|].
  split; [vm_compute; reflexivity|].
  repeat (split; [reflexivity|]).
  split; intros [H|[]]; discriminate H.
Qed.

(** C9 (as stated) fails: a request whose only content type is "bogus",
    which is no member of the enumeration, is answered with a success and
    three results. *)
Lemma invalid_content_type_is_answered :
  exists results timestamp w',
    ContentType_of_value "bogus" = None /\
    Mem.search_knowledge_base Mem.ranks_small "retry" 5 (Some ["bogus"]) None None
      Mem.indexed
    = (Ok (Success "retry" 3 results timestamp), w') /\
    map r_id results = ["a2"; "a1"; "a3"].
Proof.
  do 3 eexists. split; [reflexivity|].
  split; [vm_compute; reflexivity|]. reflexivity.
Qed.

End Runs.

(** * Further properties of the engine *)

(** ** Content types and tags survive storage *)

Section RoundTrips.
Import PyStr.

Lemma ContentType_of_value_value (ct : ContentType) :
  ContentType_of_value (value ct) = Some ct.
Proof. destruct ct; reflexivity. Qed.

(** X1: the value of a content type names that content type and no other:
    [ContentType(ct.value)] is [ct], and [ContentType(s)] succeeds only on
    the value of the member it returns. *)
Theorem ContentType_value_roundtrip :
  (forall ct, ContentType_of_value (value ct) = Some ct) /\
  (forall s ct, ContentType_of_value s = Some ct -> value ct = s) /\
  (forall a b, value a = value b -> a = b).
Proof.
  pose proof ContentType_of_value_value as H1.
  split; [exact H1|]. split.
  - intros s ct H. unfold ContentType_of_value in H.
    apply find_some in H. destruct H as [_ H]. now apply String.eqb_eq in H.
  - intros a b H. pose proof (H1 a) as Ha. rewrite H, H1 in Ha. congruence.
Qed.

Lemma split_on_plain (s : string) :
  all_chars not_comma s = true -> split_on "," s = [s].
Proof.
  induction s as [|c s IH]; simpl; [reflexivity|].
  intro H. apply andb_true_iff in H. destruct H as [Hc Hs].
  unfold not_comma in Hc. apply negb_true_iff in Hc. rewrite Hc.
  now rewrite (IH Hs).
Qed.

Lemma split_on_joined (a b : string) :
  all_chars not_comma a = true ->
  split_on "," (a ++ "," ++ b) = a :: split_on "," b.
Proof.
  induction a as [|c a IH]; simpl; [reflexivity|].
  intro H. apply andb_true_iff in H. destruct H as [Hc Hs].
  unfold not_comma in Hc. apply negb_true_iff in Hc. rewrite Hc.
  change (a ++ String "," b) with (a ++ "," ++ b).
  now rewrite (IH Hs).
Qed.

Lemma split_on_join (t : string) (ts : list string) :
  Forall (fun x => all_chars not_comma x = true) (t :: ts) ->
  split_on "," (join "," (t :: ts)) = t :: ts.
Proof.
  revert t; induction ts as [|t' ts IH]; intros t H.
  - simpl. apply split_on_plain. now inversion H.
  - inversion H as [|? ? Ht Hts]; subst.
    change (join "," (t :: t' :: ts)) with (t ++ "," ++ join "," (t' :: ts)).
    rewrite split_on_joined by exact Ht. f_equal. now apply IH.
Qed.

Lemma split_tags_join_cons (t : string) (ts : list string) :
  Forall (fun x => all_chars not_comma x = true) (t :: ts) ->
  t :: ts <> [""] ->
  split_tags (join "," (t :: ts)) = t :: ts.
Proof.
  intros Hc Hne. unfold split_tags.
  destruct (join "," (t :: ts)) as [|c s] eqn:E.
  - exfalso. destruct ts as [|t' ts].
    + simpl in E. subst t. now apply Hne.
    + change (join "," (t :: t' :: ts)) with (t ++ "," ++ join "," (t' :: ts)) in E.
      destruct t; discriminate E.
  - rewrite <- E. now apply split_on_join.
Qed.

(** X2: tags written as [",".join(tags)] and read back with
    [s.split(',') if s else []] are the same tags, provided no tag holds a
    comma and the list is not the single empty tag. *)
Theorem tags_roundtrip (tgs : list string) :
  Forall (fun x => all_chars not_comma x = true) tgs ->
  tgs <> [""] ->
  split_tags (join "," tgs) = tgs.
Proof.
  intros Hc Hne. destruct tgs as [|t ts].
  - reflexivity.
  - apply split_tags_join_cons; assumption.
Qed.

Lemma tags_roundtrip_run : split_tags (join "," ["queue"; "retry"]) = ["queue"; "retry"].
Proof.
  apply (tags_roundtrip ["queue"; "retry"]).
  - repeat constructor.
  - discriminate.
Defined.

End RoundTrips.

(** ** When a highlight can be computed *)

Section HighlightTotality.
Import PyStr PyStrFacts.

Ltac by_cases_on c :=
  destruct c as [[|] [|] [|] [|] [|] [|] [|] [|]]; vm_compute;
  intros; try reflexivity; try assumption; try discriminate.

Lemma lower_char_keeps_not_backslash (c : ascii) :
  not_backslash c = true -> not_backslash (lower_char c) = true.
Proof. by_cases_on c. Qed.

Lemma upper_char_keeps_not_backslash (c : ascii) :
  not_backslash c = true -> not_backslash (upper_char c) = true.
Proof. by_cases_on c. Qed.

Lemma lower_char_space (c : ascii) : is_space c = true -> lower_char c = c.
Proof. by_cases_on c. Qed.

Lemma all_chars_app (p : ascii -> bool) (a b : string) :
  all_chars p (a ++ b) = all_chars p a && all_chars p b.
Proof.
  induction a as [|c a IH]; simpl; [reflexivity|].
  now rewrite IH, andb_assoc.
Qed.

Lemma lower_keeps_not_backslash (s : string) :
  all_chars not_backslash s = true -> all_chars not_backslash (lower s) = true.
Proof.
  induction s as [|c s IH]; simpl; [reflexivity|].
  intro H. apply andb_true_iff in H. destruct H as [Hc Hs].
  now rewrite (lower_char_keeps_not_backslash _ Hc), (IH Hs).
Qed.

Lemma upper_keeps_not_backslash (s : string) :
  all_chars not_backslash s = true -> all_chars not_backslash (upper s) = true.
Proof.
  induction s as [|c s IH]; simpl; [reflexivity|].
  intro H. apply andb_true_iff in H. destruct H as [Hc Hs].
  now rewrite (upper_char_keeps_not_backslash _ Hc), (IH Hs).
Qed.

(** The words of [s.split()] are made of characters of [s]. *)
Lemma split_words_chars (p : ascii -> bool) (s : string) :
  all_chars p s = true -> forall w, In w (split s) -> all_chars p w = true.
Proof.
  induction s as [|c s IH]; intros H w Hw; [contradiction|].
  simpl in H. apply andb_true_iff in H. destruct H as [Hc Hs].
  specialize (IH Hs). simpl in Hw.
  destruct (is_space c); [now apply IH|].
  destruct s as [|c' s'].
  - destruct Hw as [<-|[]]. simpl. now rewrite Hc.
  - destruct (is_space c').
    + destruct Hw as [<-|Hw]; [simpl; now rewrite Hc | now apply IH].
    + destruct (split (String c' s')) as [|w0 ws].
      * destruct Hw as [<-|[]]. simpl. now rewrite Hc.
      * destruct Hw as [<-|Hw].
        -- simpl. rewrite Hc. apply IH. now left.
        -- apply IH. now right.
Qed.

Lemma split_all_space (s : string) : all_chars is_space s = true -> split s = [].
Proof.
  induction s as [|c s IH]; simpl; [reflexivity|].
  intro H. apply andb_true_iff in H. destruct H as [Hc Hs].
  rewrite Hc. now apply IH.
Qed.

Lemma lower_all_space (s : string) : all_chars is_space s = true -> lower s = s.
Proof.
  induction s as [|c s IH]; simpl; [reflexivity|].
  intro H. apply andb_true_iff in H. destruct H as [Hc Hs].
  now rewrite (lower_char_space _ Hc), (IH Hs).
Qed.

(** A replacement template without a backslash stands for itself. *)
Lemma expand_template_plain (t : string) :
  all_chars not_backslash t = true -> Re.expand_template t = Ok t.
Proof.
  induction t as [|c t IH]; [reflexivity|].
  intro H. simpl in H. apply andb_true_iff in H. destruct H as [Hc Ht].
  cbn [Re.expand_template]. unfold not_backslash in Hc. rewrite Hc.
  now rewrite (IH Ht).
Qed.

Lemma mark_words_plain (words : list string) :
  (forall w, In w words -> all_chars not_backslash w = true) ->
  forall snippet, exists h, mark_words words snippet = Ok h.
Proof.
  induction words as [|w words IH]; intros H snippet; simpl.
  - now exists snippet.
  - unfold Re.sub. rewrite expand_template_plain.
    + apply IH. intros w' Hw'. apply H. now right.
    + simpl. rewrite all_chars_app.
      rewrite upper_keeps_not_backslash; [reflexivity|]. apply H. now left.
Qed.

(** X3: for a query without a backslash, [_generate_highlight] returns a
    highlight: it raises on no content. *)
Theorem highlight_of_plain_query (content query : string) :
  all_chars not_backslash query = true ->
  exists h, _generate_highlight content query = Ok h.
Proof.
  intro H. unfold _generate_highlight.
  destruct (best_pos _ _) as [bp|]; [|eexists; reflexivity].
  apply mark_words_plain. apply split_words_chars.
  now apply lower_keeps_not_backslash.
Qed.

Lemma highlight_of_plain_query_run :
  exists h,
    _generate_highlight "add retry logic to the queue consumer" "Retry QUEUE" = Ok h.
Proof.
  apply (highlight_of_plain_query "add retry logic to the queue consumer" "Retry QUEUE").
  reflexivity.
Defined.

(** X4: for a query made of white space only, the empty query included,
    nothing is searched for: the highlight is the content when it has at
    most 200 characters, else its first 200 characters followed by an
    ellipsis; it has at most 203 characters. *)
Theorem highlight_of_blank_query (content query : string) :
  all_chars is_space query = true ->
  exists h,
    _generate_highlight content query = Ok h /\
    h = (if 200 <? String.length content then slice content 0 200 ++ "..." else content) /\
    String.length h <= 203.
Proof.
  intro H. unfold _generate_highlight.
  rewrite (lower_all_space _ H), (split_all_space _ H). cbn [best_pos fold_left].
  eexists. split; [reflexivity|]. split; [reflexivity|].
  destruct (200 <? String.length content) eqn:E.
  - rewrite length_app. unfold slice. cbn [String.length].
    pose proof (substring_length_le 0 (200 - 0) content). lia.
  - apply Nat.ltb_ge in E. lia.
Qed.

Lemma highlight_of_blank_query_run :
  exists h,
    _generate_highlight "add retry logic to the queue consumer" "  " = Ok h /\
    h = (if 200 <? String.length "add retry logic to the queue consumer"
         then slice "add retry logic to the queue consumer" 0 200 ++ "..."
         else "add retry logic to the queue consumer") /\
    String.length h <= 203.
Proof.
  apply (highlight_of_blank_query "add retry logic to the queue consumer" "  ").
  reflexivity.
Defined.

End HighlightTotality.

(** ** Marking a one-word query *)

Section HighlightMarking.
Import PyStr PyStrFacts.

Lemma lower_char_fixed (c : ascii) : lower_fixed (lower_char c) = true.
Proof. destruct c as [[|] [|] [|] [|] [|] [|] [|] [|]]; vm_compute; reflexivity. Qed.

Lemma lower_all_fixed (s : string) : all_chars lower_fixed (lower s) = true.
Proof.
  induction s as [|c s IH]; simpl; [reflexivity|].
  now rewrite lower_char_fixed, IH.
Qed.

Lemma contains_self (s : string) : contains s s.
Proof. exists 0. induction s as [|c s IH]; simpl; [reflexivity | now rewrite IH]. Qed.

Lemma contains_after_char (c : ascii) (s w : string) :
  contains s w -> contains (String c s) w.
Proof. intros [i Hi]. exists (S i). exact Hi. Qed.

(** A lower-case word read at the head of the lower-cased text is matched
    there by the case-insensitive pattern. *)
Lemma match_here_lower (w s : string) :
  all_chars lower_fixed w = true ->
  substring 0 (String.length w) (lower s) = w -> Re.match_here w s = true.
Proof.
  revert s; induction w as [|a w IH]; intros s Hfix Hsub; [reflexivity|].
  simpl in Hfix. apply andb_true_iff in Hfix. destruct Hfix as [Ha Hw].
  destruct s as [|b s]; [discriminate Hsub|].
  simpl in Hsub. injection Hsub as Hb Hsub.
  cbn [Re.match_here]. rewrite (IH s Hw Hsub), andb_true_r.
  unfold lower_fixed in Ha. apply Ascii.eqb_eq in Ha. rewrite Ha, Hb.
  apply Ascii.eqb_refl.
Qed.

(** If the word occurs somewhere, the substitution writes the replacement
    at least once. *)
Lemma sub_lit_writes (w repl : string) :
  w <> "" -> all_chars lower_fixed w = true ->
  forall s p,
    substring p (String.length w) (lower s) = w ->
    contains (Re.sub_lit w repl 0 s) repl.
Proof.
  intros Hne Hfix. induction s as [|c s IH]; intros p Hp.
  - exfalso. apply Hne. rewrite <- Hp. now destruct p, (String.length w).
  - cbn [Re.sub_lit].
    destruct (Re.match_here w (String c s)) eqn:E.
    + apply contains_app_r, contains_self.
    + destruct p as [|p].
      * rewrite (match_here_lower _ _ Hfix Hp) in E. discriminate E.
      * apply contains_after_char. apply (IH p). exact Hp.
Qed.

Lemma split_words_nonempty (s w : string) : In w (split s) -> w <> "".
Proof.
  revert w; induction s as [|c s IH]; intros w Hw; [contradiction|].
  simpl in Hw. destruct (is_space c); [now apply IH|].
  destruct s as [|c' s'].
  - destruct Hw as [<-|[]]. discriminate.
  - destruct (is_space c').
    + destruct Hw as [<-|Hw]; [discriminate | now apply IH].
    + destruct (split (String c' s')) as [|w0 ws].
      * destruct Hw as [<-|[]]. discriminate.
      * destruct Hw as [<-|Hw]; [discriminate|]. apply IH. now right.
Qed.

Lemma sapp_nil_r (s : string) : s ++ "" = s.
Proof. induction s as [|c s IH]; simpl; [reflexivity | now rewrite IH]. Qed.

Lemma sapp_assoc (a b c : string) : (a ++ b) ++ c = a ++ b ++ c.
Proof. induction a as [|x a IH]; simpl; [reflexivity | now rewrite IH]. Qed.

Lemma length_upper (s : string) : String.length (upper s) = String.length s.
Proof. induction s as [|c s IH]; simpl; [reflexivity | now rewrite IH]. Qed.

Lemma lower_fixed_word (w : string) : all_chars lower_fixed w = true -> lower w = w.
Proof.
  induction w as [|a w IH]; simpl; [reflexivity|].
  intro H. apply andb_true_iff in H. destruct H as [Ha Hw].
  unfold lower_fixed in Ha. apply Ascii.eqb_eq in Ha. now rewrite Ha, (IH Hw).
Qed.

Lemma take_drop (k : nat) (s : string) : substring 0 k s ++ drop k s = s.
Proof.
  revert k; induction s as [|c s IH]; intros [|k]; simpl; try reflexivity.
  now rewrite IH.
Qed.

Lemma substring_nil (i n : nat) : substring i n "" = "".
Proof. now destruct i, n. Qed.

Lemma occurs_at_nil (w : string) (i : nat) : w <> "" -> ~ occurs_at w "" i.
Proof.
  intros Hne H. unfold occurs_at in H. rewrite substring_nil in H.
  destruct w; [now apply Hne | discriminate H].
Qed.

Lemma occurs_at_tail (w : string) (c : ascii) (s : string) (i : nat) :
  occurs_at w (String c s) (S i) <-> occurs_at w s i.
Proof. unfold occurs_at. simpl. tauto. Qed.

(** The case-insensitive pattern matches at the head of a text exactly
    when the word is read there whatever the case. *)
Lemma match_here_occurs (w s : string) : Re.match_here w s = true <-> occurs_at w s 0.
Proof.
  unfold occurs_at. revert s; induction w as [|a w IH]; intro s.
  - simpl. split; [intros _ | reflexivity]. now destruct s.
  - destruct s as [|b s]; simpl.
    + split; discriminate.
    + rewrite andb_true_iff, Ascii.eqb_eq, IH. split.
      * intros [H1 H2]. now rewrite H1, H2.
      * intros [= H1 H2]. split; [symmetry|]; assumption.
Qed.

Lemma occurs_at_length (w s : string) (i : nat) :
  occurs_at w s i -> String.length (substring i (String.length w) s) = String.length w.
Proof.
  unfold occurs_at. intro H. apply (f_equal String.length) in H.
  now rewrite !length_lower in H.
Qed.

(** A character that starts no occurrence is kept in front of the marked
    rest. *)
Lemma marked_after_char (w : string) (c : ascii) (s r : string) :
  ~ occurs_at w (String c s) 0 -> marked w s r -> marked w (String c s) (String c r).
Proof.
  intros H0 Hm.
  inversion Hm as [s0 Hno | before m rest rest' Hl Hbefore Hrest]; subst.
  - apply marked_none. intros [|i] Hi; [exact (H0 Hi)|].
    apply occurs_at_tail in Hi. exact (Hno _ Hi).
  - change (marked w (String c before ++ m ++ rest)
              (String c before ++ "**" ++ upper w ++ "**" ++ rest')).
    apply marked_first; [exact Hl | | exact Hrest].
    intros [|i] Hi Ho; [exact (H0 Ho)|].
    cbn [String.length] in Hi. apply occurs_at_tail in Ho.
    apply (Hbefore i); [lia | exact Ho].
Qed.

(** One pass of the substitution marks the leftmost non-overlapping
    occurrences of the word. *)
Lemma sub_lit_marked (w : string) :
  w <> "" ->
  forall s k, marked w (drop k s) (Re.sub_lit w ("**" ++ upper w ++ "**") k s).
Proof.
  intro Hne. induction s as [|c s IH]; intro k.
  - destruct k; cbn [drop Re.sub_lit]; apply marked_none;
      intros i; now apply occurs_at_nil.
  - destruct k as [|k]; cbn [drop Re.sub_lit]; [|apply IH].
    destruct (Re.match_here w (String c s)) eqn:E.
    + apply match_here_occurs in E.
      specialize (IH (String.length w - 1)).
      assert (Hd : drop (String.length w) (String c s)
                   = drop (String.length w - 1) s).
      { destruct w; [contradiction|]. cbn [String.length drop Nat.sub].
        now rewrite ?Nat.sub_0_r. }
      rewrite <- Hd in IH.
      rewrite <- (take_drop (String.length w) (String c s)) at 1.
      replace (("**" ++ upper w ++ "**")
               ++ Re.sub_lit w ("**" ++ upper w ++ "**") (String.length w - 1) s)
        with ("" ++ "**" ++ upper w ++ "**"
              ++ Re.sub_lit w ("**" ++ upper w ++ "**") (String.length w - 1) s)
        by (simpl; now rewrite sapp_assoc).
      apply (marked_first w "" (substring 0 (String.length w) (String c s)));
        [exact E | intros i Hi; cbn in Hi; lia | exact IH].
    + apply marked_after_char; [|apply (IH 0)].
      intro Ho. apply match_here_occurs in Ho. congruence.
Qed.

(** The loop over the words of a query without a backslash marks the
    words one after the other. *)
Lemma mark_words_marked (words : list string) :
  (forall w, In w words -> w <> "" /\ all_chars not_backslash w = true) ->
  forall s, exists h, mark_words words s = Ok h /\ marked_all words s h.
Proof.
  induction words as [|w ws IH]; intros Hw s.
  - exists s. split; [reflexivity | constructor].
  - destruct (Hw w (or_introl eq_refl)) as [Hne Hbs].
    cbn [mark_words]. unfold Re.sub. rewrite expand_template_plain.
    2:{ simpl. rewrite all_chars_app. now rewrite (upper_keeps_not_backslash _ Hbs). }
    destruct w as [|a w']; [contradiction|].
    destruct (IH (fun w Hin => Hw w (or_intror Hin))
                (Re.sub_lit (String a w') ("**" ++ upper (String a w') ++ "**") 0 s))
      as (h & E & M).
    exists h. split; [exact E|]. econstructor; [|exact M].
    apply (sub_lit_marked (String a w') Hne s 0).
Qed.

(** A pass leaves the text as it is, or lengthens it by four characters
    at least and writes a pair of asterisks. *)
Lemma marked_cases (w s s' : string) :
  marked w s s' ->
  (s' = s /\ forall i, ~ occurs_at w s i) \/
  (String.length s + 4 <= String.length s' /\ contains s' "**").
Proof.
  induction 1 as [s Hno | before m rest rest' Hl Hbefore Hrest IH].
  - left. split; [reflexivity | exact Hno].
  - right. split.
    + assert (Hr : String.length rest <= String.length rest').
      { destruct IH as [[-> _]|[Hlen _]]; lia. }
      apply (f_equal String.length) in Hl. rewrite !length_lower in Hl.
      rewrite !length_app, length_upper. cbn [String.length]. lia.
    + apply contains_app_l. exists 0. simpl. now destruct (upper w ++ _).
Qed.

Lemma marked_all_grows (words : list string) (s h : string) :
  marked_all words s h ->
  String.length s <= String.length h /\ (contains s "**" -> contains h "**").
Proof.
  induction 1 as [s | w ws s s1 s' Hm Hrest IH]; [split; [lia | auto]|].
  destruct IH as [IHl IHc].
  destruct (marked_cases _ _ _ Hm) as [[-> _]|[Hlen Hc]]; [split; assumption|].
  split; [lia | intros _; now apply IHc].
Qed.

(** If one of the words occurs in the text, the marked text is longer by
    four characters at least and holds a pair of asterisks. *)
Lemma marked_all_marks (words : list string) (s h : string) :
  marked_all words s h ->
  forall w0 i, In w0 words -> occurs_at w0 s i ->
  String.length s + 4 <= String.length h /\ contains h "**".
Proof.
  induction 1 as [s | w ws s s1 s' Hm Hrest IH]; intros w0 i Hin Ho; [contradiction|].
  destruct (marked_all_grows _ _ _ Hrest) as [Hl Hc].
  destruct (marked_cases _ _ _ Hm) as [[-> Hno]|[Hlen Hst]].
  - destruct Hin as [->|Hin]; [exfalso; exact (Hno _ Ho)|].
    exact (IH w0 i Hin Ho).
  - split; [lia | now apply Hc].
Qed.

Lemma substring_whole (s : string) : substring 0 (String.length s) s = s.
Proof. induction s as [|c s IH]; simpl; [reflexivity | now rewrite IH]. Qed.

Lemma sapp_inj (a a' b b' : string) :
  String.length a = String.length a' -> a ++ b = a' ++ b' -> a = a' /\ b = b'.
Proof.
  revert a'; induction a as [|c a IH]; intros [|c' a'] Hl H;
    try discriminate Hl; [now split|].
  simpl in H. injection H as -> H. injection Hl as Hl.
  destruct (IH a' Hl H) as [-> ->]. now split.
Qed.

(** The first occurrence a pass replaces is an occurrence. *)
Lemma occurs_at_first (w before m rest : string) :
  lower m = lower w -> occurs_at w (before ++ m ++ rest) (String.length before).
Proof.
  intro Hl. unfold occurs_at.
  rewrite <- (Nat.add_0_r (String.length before)), substring_app_right.
  assert (Hlen : String.length m = String.length w).
  { apply (f_equal String.length) in Hl. now rewrite !length_lower in Hl. }
  rewrite substring_app_left by lia.
  rewrite <- Hlen, substring_whole. exact Hl.
Qed.

(** A text has one marking: [marked w] is a function of the text. *)
Lemma marked_unique (w s s1 : string) :
  marked w s s1 -> forall s2, marked w s s2 -> s1 = s2.
Proof.
  induction 1 as [s Hno | before m rest rest' Hl Hbefore Hrest IH]; intros s2 H2.
  - inversion H2 as [s0 Hno2 | before2 m2 rest2 rest2' Hl2 Hbefore2 Hrest2];
      subst; [reflexivity|].
    exfalso. apply (Hno (String.length before2)). now apply occurs_at_first.
  - remember (before ++ m ++ rest) as s eqn:Es.
    inversion H2 as [s0 Hno2 | before2 m2 rest2 rest2' Hl2 Hbefore2 Hrest2].
    + subst. exfalso. apply (Hno2 (String.length before)). now apply occurs_at_first.
    + subst s. rename H into Es2.
      assert (Hlen : String.length before = String.length before2).
      { destruct (Nat.lt_trichotomy (String.length before) (String.length before2))
          as [Hlt|[Heq|Hgt]]; [|exact Heq|].
        - exfalso. apply (Hbefore2 _ Hlt). rewrite Es2. now apply occurs_at_first.
        - exfalso. apply (Hbefore _ Hgt). rewrite <- Es2. now apply occurs_at_first. }
      destruct (sapp_inj _ _ _ _ (eq_sym Hlen) Es2) as [-> Hmr].
      assert (Hm : String.length m2 = String.length m).
      { apply (f_equal String.length) in Hl, Hl2.
        rewrite !length_lower in Hl, Hl2. congruence. }
      destruct (sapp_inj _ _ _ _ Hm Hmr) as [-> ->].
      now rewrite (IH _ Hrest2).
Qed.

Lemma marked_all_unique (words : list string) (s h : string) :
  marked_all words s h -> forall h', marked_all words s h' -> h' = h.
Proof.
  induction 1 as [s | w ws s s1 s' Hm Hrest IH]; intros h' H'.
  - now inversion H'.
  - inversion H' as [|w0 ws0 s0 s2 s0' Hm2 Hrest2]; subst.
    rewrite (marked_unique _ _ _ Hm2 _ Hm) in Hrest2. now apply IH.
Qed.

(** The window taken at the position of a word holds an occurrence of
    it. *)
Lemma window_occurs (content w : string) (bp : nat) :
  all_chars lower_fixed w = true ->
  find (lower content) w = Some bp -> String.length w <= 200 ->
  exists i, occurs_at w (window content bp) i.
Proof.
  intros Hfix Hf Hlen. destruct (window_contains content w bp Hf Hlen) as [i Hi].
  exists i. unfold occurs_at.
  now rewrite lower_substring, Hi, (lower_fixed_word _ Hfix).
Qed.

(** C6 (amended), for ASCII texts.  If no word of the query occurs in the
    lower-cased content, the highlight is the content itself, or its first
    200 characters followed by an ellipsis when it is longer.  If some word
    occurs, a window is taken at the earliest position where any word
    occurs; it has at most 306 characters (100 before the position, 200 from
    it on, two ellipsis markers) and holds the word found there when that
    word has at most 200 characters.  For a query without a backslash the
    highlight is that window with the query words marked one after the
    other, in the order of the query: each pass replaces the leftmost
    non-overlapping occurrences of its word, whatever their case, in the
    text the passes before it have left, by the word in upper case between
    two pairs of asterisks; this determines the highlight.  The highlight is
    never shorter than the window;
    when the word found has at most 200 characters it is longer by four
    characters at least and holds a pair of asterisks. *)
Theorem generate_highlight_window (content query : string) :
  is_ascii content = true -> is_ascii query = true ->
  let words := split (lower query) in
  ((forall w, In w words -> ~ contains (lower content) w) ->
   _generate_highlight content query
   = Ok (if 200 <? String.length content
         then slice content 0 200 ++ "..."
         else content)) /\
  ((exists w, In w words /\ contains (lower content) w) ->
   exists bp w0,
     In w0 words /\ find (lower content) w0 = Some bp /\
     (forall w p, In w words ->
        substring p (String.length w) (lower content) = w -> bp <= p) /\
     String.length (window content bp) <= 306 /\
     (String.length w0 <= 200 -> contains (lower (window content bp)) w0) /\
     (all_chars not_backslash query = true ->
      exists h,
        _generate_highlight content query = Ok h /\
        marked_all words (window content bp) h /\
        (forall h', marked_all words (window content bp) h' -> h' = h) /\
        String.length (window content bp) <= String.length h /\
        (String.length w0 <= 200 ->
         String.length (window content bp) + 4 <= String.length h /\
         contains h "**"))).
Proof.
  intros _ _ words. unfold _generate_highlight. fold words. split.
  - intro Hno. destruct (best_pos words (lower content)) as [bp|] eqn:E;
      [|reflexivity].
    exfalso. apply best_pos_some in E. destruct E as ((w & Hin & Hf) & _).
    apply (Hno w Hin). unfold find in Hf. apply find_from_sound in Hf.
    exists bp. rewrite Nat.sub_0_r in Hf. tauto.
  - intros (w & Hin & Hocc).
    destruct (best_pos words (lower content)) as [bp|] eqn:E.
    + pose proof (best_pos_some _ _ _ E) as ((w0 & Hin0 & Hf0) & Hmin).
      exists bp, w0. split; [exact Hin0|]. split; [exact Hf0|].
      split.
      * intros w' p Hin' Hp.
        destruct (find (lower content) w') as [p'|] eqn:E'.
        -- pose proof (Hmin _ _ Hin' E').
           pose proof (find_le_occurrence _ _ _ _ E' Hp). lia.
        -- apply find_none_iff in E'. exfalso. apply E'. now exists p.
      * split; [apply window_length|].
        split; [intro Hlen; now apply window_contains|].
        intro Hplain.
        destruct (mark_words_marked words) with (s := window content bp)
          as (h & Eh & Hm).
        { intros w' Hin'. split; [eapply split_words_nonempty; exact Hin'|].
          eapply split_words_chars; [|exact Hin'].
          now apply lower_keeps_not_backslash. }
        exists h. split; [exact Eh|]. split; [exact Hm|].
        split; [exact (marked_all_unique _ _ _ Hm)|].
        split; [apply (marked_all_grows _ _ _ Hm)|].
        intro Hlen.
        destruct (window_occurs content w0 bp) as [i Hi]; [|exact Hf0|exact Hlen|].
        { eapply split_words_chars; [apply lower_all_fixed | exact Hin0]. }
        exact (marked_all_marks _ _ _ Hm w0 i Hin0 Hi).
    + exfalso. pose proof (best_pos_none _ _ E w Hin) as Hn.
      apply find_none_iff in Hn. contradiction.
Qed.

(** C6 (amended) on a query of two words, both found in the content. *)
Lemma generate_highlight_window_run :
  exists bp w0 h,
    In w0 (split (lower "Retry LOGIC")) /\
    find (lower "add retry logic to the queue consumer") w0 = Some bp /\
    String.length (window "add retry logic to the queue consumer" bp) <= 306 /\
    _generate_highlight "add retry logic to the queue consumer" "Retry LOGIC" = Ok h /\
    marked_all (split (lower "Retry LOGIC"))
      (window "add retry logic to the queue consumer" bp) h /\
    String.length (window "add retry logic to the queue consumer" bp) + 4
    <= String.length h /\
    contains h "**".
Proof.
  destruct (generate_highlight_window "add retry logic to the queue consumer"
              "Retry LOGIC" eq_refl eq_refl) as [_ H].
  destruct H as (bp & w0 & Hin & Hf & _ & Hlen & _ & Hmark).
  - exists "retry". split; [left; reflexivity | exists 4; reflexivity].
  - destruct (Hmark eq_refl) as (h & Eh & Hm & _ & _ & Hlong).
    exists bp, w0, h. repeat (split; [assumption|]).
    apply Hlong.
    destruct Hin as [<-|[<-|[]]]; cbn [String.length]; lia.
Defined.

(** X22, for ASCII texts: when the query is one word without a backslash,
    of at most 200 characters, that occurs in the content whatever the case,
    the highlight holds the word marked, upper-cased between two pairs of
    asterisks. *)
Theorem one_word_query_is_marked (content query w : string) :
  is_ascii content = true -> is_ascii query = true ->
  split (lower query) = [w] ->
  all_chars not_backslash query = true ->
  String.length w <= 200 ->
  contains (lower content) w ->
  exists h,
    _generate_highlight content query = Ok h /\
    contains h ("**" ++ upper w ++ "**").
Proof.
  intros _ _ Hsplit Hplain Hlen Hocc.
  assert (Hin : In w (split (lower query))) by (rewrite Hsplit; now left).
  assert (Hne : w <> "") by (eapply split_words_nonempty; exact Hin).
  assert (Hfix : all_chars lower_fixed w = true).
  { eapply split_words_chars; [apply lower_all_fixed | exact Hin]. }
  assert (Hbs : all_chars not_backslash w = true).
  { eapply split_words_chars; [apply lower_keeps_not_backslash; exact Hplain | exact Hin]. }
  destruct (find (lower content) w) as [bp|] eqn:Ef.
  2:{ apply find_none_iff in Ef. contradiction. }
  unfold _generate_highlight. rewrite Hsplit.
  unfold best_pos. cbn [fold_left]. unfold best_pos_step. rewrite Ef.
  cbn [mark_words]. unfold Re.sub.
  rewrite expand_template_plain.
  2:{ simpl. rewrite all_chars_app.
      now rewrite (upper_keeps_not_backslash _ Hbs). }
  destruct w as [|a w']; [contradiction|].
  eexists. split; [reflexivity|].
  destruct (window_contains content (String a w') bp Ef Hlen) as [i Hi].
  eapply sub_lit_writes; eassumption.
Qed.

Lemma one_word_query_is_marked_run :
  exists h,
    _generate_highlight "add retry logic to the queue consumer" "Retry" = Ok h /\
    contains h ("**" ++ upper "retry" ++ "**").
Proof.
  apply (one_word_query_is_marked "add retry logic to the queue consumer"
           "Retry" "retry").
  - reflexivity.
  - reflexivity.
  - reflexivity.
  - reflexivity.
  - cbn [String.length]. lia.
  - exists 4. reflexivity.
Defined.

End HighlightMarking.

(** ** More on searching *)

Section SearchFacts.

Variable Collection : Type.
Variable collection_query :
  Collection -> Embedding -> Z -> option Chroma.Where -> Result (list Chroma.Hit).
Variable encode : string -> Embedding.
Variable fts_select :
  list Sqlite.FtsRow -> string -> option (list string) -> option (list string) -> Z ->
  Result (list (Sqlite.FtsRow * Q)).
Variable clock : nat -> datetime.

Local Abbreviation World := (World Collection).
Local Abbreviation M := (M Collection).
Local Abbreviation semantic := (_semantic_search Collection collection_query encode clock).
Local Abbreviation fulltext := (_fulltext_search Collection fts_select clock).
Local Abbreviation search_ := (search Collection collection_query encode fts_select clock).
Local Abbreviation search_api :=
  (search_knowledge_base Collection collection_query encode fts_select clock).

Lemma mapM_fails {A B} (f : A -> M B) (l : list A) (a : A) :
  In a l -> (forall v, exists e v', f a v = (Raise e, v')) ->
  forall w, exists e w', mapM f l w = (Raise e, w').
Proof.
  intros Hin Hf. induction l as [|a0 l IH]; [contradiction|].
  intro w. simpl. unfold bind.
  destruct Hin as [->|Hin].
  - destruct (Hf w) as (e & v' & ->). eauto.
  - destruct (f a0 w) as [[b|e] v]; [|eauto].
    destruct (IH Hin v) as (e & w' & ->). eauto.
Qed.

Lemma mapM_succeeds {A B} (P : A -> B -> Prop) (f : A -> M B) (l : list A) :
  (forall a, In a l -> forall v, exists b v', f a v = (Ok b, v') /\ P a b) ->
  forall w, exists bs w', mapM f l w = (Ok bs, w') /\ Forall2 P l bs.
Proof.
  induction l as [|a l IH]; intros Hf w; simpl.
  - exists [], w. split; [reflexivity | constructor].
  - unfold bind. destruct (Hf a (or_introl eq_refl) w) as (b & v & -> & Hb).
    destruct (IH (fun a' Ha' => Hf a' (or_intror Ha')) v) as (bs & w' & -> & Hbs).
    exists (b :: bs), w'. split; [reflexivity | now constructor].
Qed.

Lemma semantic_result_fails (query : string) (h : Chroma.Hit) :
  is_ok (to_ContentType (Chroma.content_type (Chroma.hit_metadata h))) = false \/
  is_ok (_generate_highlight (Chroma.hit_document h) query) = false ->
  forall v : World, exists e v', semantic_result Collection clock query h v = (Raise e, v').
Proof.
  intros H v. unfold semantic_result, bind, lift, KnowledgeItem_init, ret.
  cbn [created_at].
  destruct (to_ContentType _) as [ct|e]; [|eauto].
  destruct H as [H|H]; [discriminate H|].
  unfold bind, datetime_now, ret.
  destruct (_generate_highlight _ _) as [hl|e]; [discriminate H | eauto].
Qed.

Lemma semantic_result_succeeds (query : string) (h : Chroma.Hit) :
  is_ok (to_ContentType (Chroma.content_type (Chroma.hit_metadata h))) = true ->
  is_ok (_generate_highlight (Chroma.hit_document h) query) = true ->
  forall v : World, exists r v',
    semantic_result Collection clock query h v = (Ok r, v') /\
    (rid r = Chroma.hit_id h /\ score r = max0 (1 - Chroma.hit_distance h)%Q /\
     content (item r) = Chroma.hit_document h /\
     context r = Semantic (Chroma.hit_distance h)).
Proof.
  intros H1 H2 v. unfold semantic_result, bind, lift, KnowledgeItem_init, ret.
  cbn [created_at].
  destruct (to_ContentType _) as [ct|e]; [|discriminate H1].
  unfold bind, datetime_now, ret.
  destruct (_generate_highlight _ _) as [hl|e]; [|discriminate H2].
  eexists _, _. split; [reflexivity|]. repeat split.
Qed.

(** X5: one hit that cannot be turned into a result (a stored content
    type outside the enumeration, or a highlight that raises) empties the
    semantic search: the exception is caught and no hit at all is returned. *)
Theorem bad_hit_empties_semantic_search (query : string) (limit : Z)
    (cts : option (list ContentType)) (srcs tags : option (list string))
    (w : World) (hits : list Chroma.Hit) (h : Chroma.Hit) :
  collection_query (collection w) (encode query) limit (where_clause cts srcs) = Ok hits ->
  In h hits ->
  is_ok (to_ContentType (Chroma.content_type (Chroma.hit_metadata h))) = false \/
  is_ok (_generate_highlight (Chroma.hit_document h) query) = false ->
  exists w', semantic query limit cts srcs tags w = (Ok [], w').
Proof.
  intros Hq Hin Hbad.
  unfold _semantic_search, try_except, bind at 1, record_query.
  unfold bind at 1, get_world. unfold bind at 1, lift. cbn [collection]. rewrite Hq.
  match goal with |- context [mapM ?f hits ?v] =>
    destruct (mapM_fails f hits h Hin (semantic_result_fails query h Hbad) v)
      as (e & w' & E); rewrite E end.
  unfold bind, logger, ret. eexists. reflexivity.
Qed.

(** X6: when every hit has a valid content type and a highlight, the
    semantic search returns one result per hit, in the order of the index:
    the ids are those of the hits, the contents their documents, the scores
    [max(0, 1 - distance)]. *)
Theorem semantic_search_one_result_per_hit (query : string) (limit : Z)
    (cts : option (list ContentType)) (srcs tags : option (list string))
    (w : World) (hits : list Chroma.Hit) :
  collection_query (collection w) (encode query) limit (where_clause cts srcs) = Ok hits ->
  (forall h, In h hits ->
     is_ok (to_ContentType (Chroma.content_type (Chroma.hit_metadata h))) = true /\
     is_ok (_generate_highlight (Chroma.hit_document h) query) = true) ->
  exists rs w',
    semantic query limit cts srcs tags w = (Ok rs, w') /\
    map rid rs = map Chroma.hit_id hits /\
    map (fun r => content (item r)) rs = map Chroma.hit_document hits /\
    map score rs = map (fun h => max0 (1 - Chroma.hit_distance h)%Q) hits /\
    map context rs = map (fun h => Semantic (Chroma.hit_distance h)) hits.
Proof.
  intros Hq Hgood.
  unfold _semantic_search, try_except, bind at 1, record_query.
  unfold bind at 1, get_world. unfold bind at 1, lift. cbn [collection]. rewrite Hq.
  match goal with |- context [mapM ?f hits ?v] =>
    destruct (mapM_succeeds
                (fun h r => rid r = Chroma.hit_id h /\
                            score r = max0 (1 - Chroma.hit_distance h)%Q /\
                            content (item r) = Chroma.hit_document h /\
                            context r = Semantic (Chroma.hit_distance h))
                f hits
                (fun h Hh => semantic_result_succeeds query h
                               (proj1 (Hgood h Hh)) (proj2 (Hgood h Hh))) v)
      as (rs & w' & E & HF); rewrite E end.
  exists rs, w'. split; [reflexivity|].
  clear E Hq Hgood.
  induction HF as [|h r hits' rs' (H1 & H2 & H3 & H4) _ IH]; cbn [map].
  - repeat split.
  - destruct IH as (I1 & I2 & I3 & I4).
    rewrite H1, H2, H3, H4, I1, I2, I3, I4. repeat split.
Qed.

Lemma search_outcome (query : string) (limit : Z)
    (cts : option (list ContentType)) (srcs tags : option (list string)) (w : World) :
  exists res w',
    search_ query limit cts srcs tags w = (Ok res, w') /\
    stores w w' /\
    (forall r, In r res -> (0 <= score r)%Q) /\
    ((0 <= limit)%Z -> List.length res <= Z.to_nat limit).
Proof.
  destruct (search_runs Collection collection_query encode fts_select clock
              query limit cts srcs tags w)
    as (sem & fts & w1 & w2 & Hs & Hf & Hr & Hst & _).
  eexists _, w2. split; [exact Hr|]. split; [exact Hst|].
  set (merged := dedup [] (sem ++ fts)%list).
  split.
  - intros r Hin.
    destruct (slice_to_firstn (sort_by_score_desc merged) limit) as [k Hk].
    rewrite Hk in Hin. apply firstn_In in Hin.
    apply (Permutation_in _ (sort_perm merged)) in Hin.
    apply dedup_In in Hin. destruct Hin as [Hin _].
    apply in_app_or in Hin. destruct Hin as [Hin|Hin].
    + destruct (semantic_results_shape Collection collection_query encode clock
                  _ _ _ _ _ _ _ _ Hs r Hin) as (d & _ & E).
      rewrite E. apply max0_nonneg.
    + destruct (fulltext_results_shape Collection encode fts_select clock
                  _ _ _ _ _ _ _ _ Hf r Hin) as (d & _ & E).
      rewrite E. apply max0_nonneg.
  - intro Hl. unfold slice_to. apply Z.leb_le in Hl. rewrite Hl.
    rewrite length_firstn. lia.
Qed.

(** X7: a search returns at most [limit] results when [limit] is not
    negative (none when it is 0), none of them with a negative score, and it
    leaves both indexes as they were. *)
Theorem search_result_bounds (query : string) (limit : Z)
    (cts : option (list ContentType)) (srcs tags : option (list string)) (w : World) :
  exists res w',
    search_ query limit cts srcs tags w = (Ok res, w') /\
    stores w w' /\
    (forall r, In r res -> (0 <= score r)%Q) /\
    ((0 <= limit)%Z -> List.length res <= Z.to_nat limit) /\
    (limit = 0%Z -> res = []).
Proof.
  destruct (search_outcome query limit cts srcs tags w)
    as (res & w' & Hs & Hst & Hpos & Hlen).
  exists res, w'. repeat split; try assumption; try apply Hst.
  intros ->. specialize (Hlen (Z.le_refl 0)).
  destruct res; [reflexivity | simpl in Hlen; lia].
Qed.

(** X8: [search_knowledge_base] always replies with a success whose
    [total_results] is the number of results listed, whatever the query and
    the filters, and leaves both indexes as they were. *)
Theorem search_api_always_succeeds (query : string) (limit : Z)
    (content_types srcs tags : option (list string)) (w : World) :
  exists results timestamp w',
    search_api query limit content_types srcs tags w
    = (Ok (Success query (List.length results) results timestamp), w') /\
    stores w w' /\
    ((0 <= limit)%Z -> List.length results <= Z.to_nat limit).
Proof.
  assert (Hconv : exists (l : list ContentType) (v : World),
            match content_types with
            | Some c => convert_content_types Collection c
            | None => ret []
            end w = (Ok l, v) /\ frame w v).
  { destruct content_types as [c|].
    - destruct (convert_content_types_runs Collection c w) as (v & H & Hf & _). eauto.
    - exists [], w. split; [reflexivity | apply frame_refl]. }
  destruct Hconv as (l & v & Hc & Hf).
  destruct (search_outcome query limit
              (match l with [] => None | _ :: _ => Some l end) srcs tags v)
    as (res & w1 & Hs & Hst & _ & Hlen).
  unfold search_knowledge_base, try_except. unfold bind at 1. rewrite Hc.
  unfold bind at 1. rewrite Hs. unfold bind, datetime_now, ret.
  eexists _, _, _. split.
  - rewrite <- (length_map result_dict res). reflexivity.
  - split.
    + unfold stores, frame in *. cbn [collection knowledge_fts knowledge_metadata db_up].
      intuition congruence.
    + intro Hl. rewrite length_map. now apply Hlen.
Qed.

End SearchFacts.

(** ** More on ingestion *)

Section IngestionFacts.

Variable Collection : Type.
Variable collection_add : Collection -> list Chroma.Entry -> Result Collection.
Variable encode : string -> Embedding.
Variable clock : nat -> datetime.

Local Abbreviation World := (World Collection).
Local Abbreviation M := (M Collection).
Local Abbreviation add := (add_items Collection collection_add encode).
Local Abbreviation refresh := (refresh_knowledge_base Collection collection_add encode clock).

Lemma insert_or_replace_ids (row : Sqlite.MetaRow) (table : list Sqlite.MetaRow) :
  (NoDup (meta_ids table) -> NoDup (meta_ids (Sqlite.insert_or_replace row table))) /\
  In (Sqlite.m_id row) (meta_ids (Sqlite.insert_or_replace row table)) /\
  (forall i, In i (meta_ids table) -> In i (meta_ids (Sqlite.insert_or_replace row table))).
Proof.
  unfold meta_ids, Sqlite.insert_or_replace. rewrite map_app. cbn [map].
  split; [|split].
  - intro Hnd. apply NoDup_app.
    + induction table as [|r table IH]; cbn [filter map]; [constructor|].
      inversion Hnd as [|? ? Hn Hnd']; subst.
      destruct (negb _); [|now apply IH].
      cbn [map]. constructor; [|now apply IH].
      intro Hin. apply Hn. apply in_map_iff in Hin. destruct Hin as (x & Hx & Hin).
      apply filter_In in Hin. apply in_map_iff. exists x. tauto.
    + repeat constructor. intros [].
    + intros i Hi [Hr|[]]. subst i.
      apply in_map_iff in Hi. destruct Hi as (x & Hx & Hin).
      apply filter_In in Hin. destruct Hin as [_ Hne].
      rewrite Hx, String.eqb_refl in Hne. discriminate Hne.
  - apply in_or_app. right. now left.
  - intros i Hi. apply in_or_app.
    destruct (String.eqb i (Sqlite.m_id row)) eqn:E.
    + apply String.eqb_eq in E. subst i. right. now left.
    + left. apply in_map_iff in Hi. destruct Hi as (x & Hx & Hin).
      apply in_map_iff. exists x. split; [exact Hx|].
      apply filter_In. split; [exact Hin|]. now rewrite Hx, E.
Qed.

(** What the loop of inserts leaves when it succeeds. *)
Lemma sqlite_inserts_ok (items : list KnowledgeItem) :
  forall fts meta fts' meta',
    sqlite_inserts items fts meta = Ok (fts', meta') ->
    exists frows,
      mapR fts_row items = Ok frows /\
      fts' = (fts ++ frows)%list /\
      map Sqlite.id frows = map id items /\
      (NoDup (meta_ids meta) -> NoDup (meta_ids meta')) /\
      (forall i, In i (map id items) -> In i (meta_ids meta')) /\
      (forall i, In i (meta_ids meta) -> In i (meta_ids meta')).
Proof.
  induction items as [|it items IH]; intros fts meta fts' meta' H.
  - injection H as <- <-. exists []. rewrite app_nil_r.
    repeat split; auto. intros i [].
  - cbn [sqlite_inserts] in H.
    destruct (fts_row it) as [fr|e] eqn:Ef; [|discriminate].
    destruct (meta_row it) as [mr|e] eqn:Em; [|discriminate].
    apply IH in H. destruct H as (frows & Hm & -> & Hids & Hnd & Hin & Hold).
    destruct (insert_or_replace_ids mr meta) as (Hnd1 & Hin1 & Hold1).
    assert (Hfr : Sqlite.id fr = id it).
    { unfold fts_row in Ef. destruct (tags it); [|discriminate].
      injection Ef as <-. reflexivity. }
    assert (Hmr : Sqlite.m_id mr = id it).
    { unfold meta_row in Em.
      destruct (created_at it), (updated_at it), (tags it); try discriminate.
      injection Em as <-. reflexivity. }
    exists (fr :: frows). cbn [mapR]. rewrite Ef, Hm.
    split; [reflexivity|]. split.
    { unfold Sqlite.insert_fts. now rewrite <- app_assoc. }
    split; [cbn [map]; now rewrite Hfr, Hids|].
    split; [auto|]. split; [|auto].
    intros i [<-|Hi]; [|auto]. apply Hold. now rewrite <- Hmr.
Qed.

(** X9: a successful [add_items] appends one row per item to
    [knowledge_fts], in the order of the batch, whatever rows the table
    already holds under the same ids. *)
Theorem add_items_appends_fts_rows (items : list KnowledgeItem) (w w1 : World) :
  items <> [] ->
  add items w = (Ok tt, w1) ->
  exists frows,
    mapR fts_row items = Ok frows /\
    knowledge_fts w1 = (knowledge_fts w ++ frows)%list /\
    map Sqlite.id frows = map id items /\
    List.length (knowledge_fts w1) = List.length (knowledge_fts w) + List.length items.
Proof.
  intros Hne H. destruct items as [|it items]; [contradiction|].
  unfold add_items, bind, lift, logger, get_world, set_collection, sqlite_connect,
    set_tables, ret in H.
  destruct (mapR chroma_meta (it :: items)) as [metas|e]; [|discriminate].
  cbn [collection] in H.
  destruct (collection_add _ _) as [c'|e]; [|discriminate].
  cbn [db_up] in H. destruct (db_up w); [|discriminate].
  cbn [knowledge_fts knowledge_metadata] in H.
  destruct (sqlite_inserts (it :: items) (knowledge_fts w) (knowledge_metadata w))
    as [[fts' meta']|e] eqn:E; [|discriminate].
  injection H as <-. cbn [knowledge_fts fst].
  apply sqlite_inserts_ok in E. destruct E as (frows & Hm & -> & Hids & _).
  exists frows. repeat split; try assumption.
  rewrite length_app. f_equal.
  rewrite <- (length_map Sqlite.id frows), Hids. apply length_map.
Qed.

(** X10: a successful [add_items] keeps the ids of [knowledge_metadata]
    pairwise distinct, keeps every id the table held, and leaves a row under
    the id of every item of the batch. *)
Theorem add_items_keeps_metadata_keyed (items : list KnowledgeItem) (w w1 : World) :
  add items w = (Ok tt, w1) ->
  (NoDup (meta_ids (knowledge_metadata w)) -> NoDup (meta_ids (knowledge_metadata w1))) /\
  (forall it, In it items -> In (id it) (meta_ids (knowledge_metadata w1))) /\
  (forall i, In i (meta_ids (knowledge_metadata w)) ->
             In i (meta_ids (knowledge_metadata w1))).
Proof.
  intro H. destruct items as [|it items].
  - injection H as <-. repeat split; auto. intros it [].
  - unfold add_items, bind, lift, logger, get_world, set_collection, sqlite_connect,
      set_tables, ret in H.
    destruct (mapR chroma_meta (it :: items)) as [metas|e]; [|discriminate].
    cbn [collection] in H.
    destruct (collection_add _ _) as [c'|e]; [|discriminate].
    cbn [db_up] in H. destruct (db_up w); [|discriminate].
    cbn [knowledge_fts knowledge_metadata] in H.
    destruct (sqlite_inserts (it :: items) (knowledge_fts w) (knowledge_metadata w))
      as [[fts' meta']|e] eqn:E; [|discriminate].
    injection H as <-. cbn [knowledge_metadata snd].
    apply sqlite_inserts_ok in E.
    destruct E as (frows & _ & _ & _ & Hnd & Hin & Hold).
    split; [exact Hnd|]. split; [|exact Hold].
    intros it' Hit. apply Hin. now apply in_map.
Qed.

Lemma init_runs (args : KnowledgeItem) (v : World) :
  exists it v',
    KnowledgeItem_init clock args v = (Ok it, v') /\ (ready it /\ id it = id args).
Proof.
  unfold KnowledgeItem_init, ready.
  destruct (created_at args) as [c|] eqn:Ec.
  - eexists _, _. split; [reflexivity|]. unfold __post_init__. rewrite Ec.
    cbn [created_at updated_at tags id]. split; [|reflexivity].
    destruct (updated_at args), (tags args); eexists _, _, _; repeat split.
  - unfold bind, datetime_now, ret. eexists _, _. split; [reflexivity|].
    unfold __post_init__. rewrite Ec.
    cbn [created_at updated_at tags id]. split; [|reflexivity].
    destruct (updated_at args), (tags args); eexists _, _, _; repeat split.
Qed.

Lemma Forall2_ready_ids (records items : list KnowledgeItem) :
  Forall2 (fun args it => ready it /\ id it = id args) records items ->
  Forall ready items /\ map id items = map id records /\
  List.length items = List.length records.
Proof.
  induction 1 as [|a b l l' [Hr Hi] _ (IH1 & IH2 & IH3)]; cbn [map List.length].
  - repeat split. constructor.
  - split; [now constructor|]. split; congruence.
Qed.

(** [collect_all_data] builds one ready item per record and writes nothing. *)
Lemma collect_runs (records : list KnowledgeItem) (w : World) :
  exists items w',
    collect_all_data Collection clock records w = (Ok items, w') /\
    Forall ready items /\ map id items = map id records /\
    List.length items = List.length records /\ frame w w'.
Proof.
  unfold collect_all_data, bind at 1.
  destruct (mapM_succeeds Collection (fun args it => ready it /\ id it = id args)
              (KnowledgeItem_init clock) records
              (fun a _ v => init_runs a v) w) as (items & w0 & E & HF).
  pose proof (quiet_mapM Collection (KnowledgeItem_init clock) records
                (quiet_init Collection clock) w) as Hq.
  rewrite E in *. cbn [snd] in Hq.
  unfold bind, logger, ret. eexists items, _. split; [reflexivity|].
  destruct (Forall2_ready_ids _ _ HF) as (H1 & H2 & H3).
  repeat split; try assumption; apply Hq.
Qed.

Lemma mapR_length {A B} (f : A -> Result B) (l : list A) (bs : list B) :
  mapR f l = Ok bs -> List.length bs = List.length l.
Proof.
  revert bs; induction l as [|a l IH]; intros bs H; cbn [mapR] in H.
  - now injection H as <-.
  - destruct (f a); [|discriminate]. destruct (mapR f l); [|discriminate].
    injection H as <-. cbn [List.length]. f_equal. now apply IH.
Qed.

Lemma mapR_chroma_ready (items : list KnowledgeItem) :
  Forall ready items -> exists metas, mapR chroma_meta items = Ok metas.
Proof.
  induction 1 as [|it items (c & u & tg & Hc & Hu & Ht) _ [metas IH]]; cbn [mapR].
  - eauto.
  - rewrite IH. unfold chroma_meta. rewrite Hc, Ht. eauto.
Qed.

(** The entries handed to [collection.add] carry the ids of the items. *)
Lemma entries_ids (items : list KnowledgeItem) (metas : list Chroma.Meta) :
  List.length metas = List.length items ->
  map Chroma.id
    (map (fun e => Chroma.mkEntry (fst (fst (fst e))) (snd (fst (fst e)))
                     (snd (fst e)) (snd e))
       (combine (combine (combine (map id items) (map encode (map content items)))
                   metas) (map content items)))
  = map id items.
Proof.
  revert metas; induction items as [|it items IH]; intros [|m metas] H;
    try discriminate H; [reflexivity|].
  cbn [map combine fst snd Chroma.id]. f_equal. apply IH.
  now injection H.
Qed.

Lemma post_init_ready (now : datetime) (r : KnowledgeItem) : ready (__post_init__ now r).
Proof.
  unfold ready, __post_init__. cbn [created_at updated_at tags].
  destruct (created_at r), (updated_at r), (tags r); eexists _, _, _; repeat split.
Qed.

Lemma stamp_ready (n : nat) (records : list KnowledgeItem) :
  Forall ready (stamp clock n records).
Proof.
  revert n; induction records as [|r records IH]; intro n; cbn [stamp]; [constructor|].
  destruct (created_at r); constructor; auto using post_init_ready.
Qed.

Lemma stamp_nonempty (n : nat) (records : list KnowledgeItem) :
  records <> [] -> stamp clock n records <> [].
Proof.
  intros Hne E. apply (f_equal (@List.length _)) in E. rewrite stamp_length in E.
  destruct records; [contradiction | discriminate E].
Qed.

(** The entries of a batch of ready items carry the ids of the items. *)
Lemma batch_entries_ids (items : list KnowledgeItem) :
  Forall ready items -> map Chroma.id (batch_entries encode items) = map id items.
Proof.
  intro Hready. destruct (mapR_chroma_ready _ Hready) as (metas & Hm).
  unfold batch_entries, chroma_entries. rewrite Hm. apply entries_ids.
  now apply mapR_length in Hm.
Qed.

(** X11: when the vector index rejects the entries built from the
    collected records, the refresh replies with that error and neither
    index has been written. *)
Theorem refresh_stops_at_vector_failure (records : list KnowledgeItem)
    (w : World) (e : Exn) :
  records <> [] ->
  collection_add (collection w) (batch_entries encode (stamp clock (ticks w) records))
  = Raise e ->
  exists timestamp w',
    refresh records w = (Ok (RefreshError e timestamp), w') /\ stores w w'.
Proof.
  intros Hne Hadd.
  destruct (collect_stamps Collection clock records w) as (w0 & Hc & _ & Hf).
  pose proof (stamp_ready (ticks w) records) as Hready.
  pose proof (stamp_nonempty (ticks w) records Hne) as Hitems.
  unfold refresh_knowledge_base, try_except. unfold bind at 1. rewrite Hc.
  destruct (stamp clock (ticks w) records) as [|it items]; [contradiction|].
  destruct (mapR_chroma_ready _ Hready) as (metas & Hm).
  unfold batch_entries, chroma_entries in Hadd. rewrite Hm in Hadd.
  unfold bind at 1.
  unfold add_items, bind at 1, logger. unfold bind at 1, lift. rewrite Hm.
  unfold bind at 1, get_world. unfold bind at 1, lift. cbn [collection].
  destruct Hf as (Hcol & Hfts & Hmeta & Hdb & _). rewrite Hcol, Hadd.
  unfold bind, logger, datetime_now, ret.
  eexists _, _. split; [reflexivity|].
  unfold stores. cbn [collection knowledge_fts knowledge_metadata db_up]. auto.
Qed.

(** X12: the vector index is written before the database is opened: when
    the database cannot be opened and the vector index accepts the entries
    built from the collected records, which carry the ids of the records,
    the refresh replies with the error of the database, the collection is
    the one [collection.add] returned, and the two tables are unchanged. *)
Theorem refresh_with_closed_database (records : list KnowledgeItem) (w : World)
    (c' : Collection) :
  records <> [] ->
  db_up w = false ->
  collection_add (collection w) (batch_entries encode (stamp clock (ticks w) records))
  = Ok c' ->
  map Chroma.id (batch_entries encode (stamp clock (ticks w) records)) = map id records /\
  exists timestamp w',
    refresh records w
    = (Ok (RefreshError (OperationalError "unable to open database file") timestamp), w') /\
    collection w' = c' /\
    knowledge_fts w' = knowledge_fts w /\
    knowledge_metadata w' = knowledge_metadata w.
Proof.
  intros Hne Hdown Hadd.
  destruct (collect_stamps Collection clock records w) as (w0 & Hc & _ & Hf).
  pose proof (stamp_ready (ticks w) records) as Hready.
  pose proof (stamp_nonempty (ticks w) records Hne) as Hitems.
  split.
  { rewrite (batch_entries_ids _ Hready). apply stamp_ids. }
  unfold refresh_knowledge_base, try_except. unfold bind at 1. rewrite Hc.
  destruct (stamp clock (ticks w) records) as [|it items]; [contradiction|].
  destruct (mapR_chroma_ready _ Hready) as (metas & Hm).
  unfold batch_entries, chroma_entries in Hadd. rewrite Hm in Hadd.
  unfold bind at 1.
  unfold add_items, bind at 1, logger. unfold bind at 1, lift. rewrite Hm.
  unfold bind at 1, get_world. unfold bind at 1, lift. cbn [collection].
  destruct Hf as (Hcol & Hfts & Hmeta & Hdb & _). rewrite Hcol, Hadd.
  unfold bind at 1, set_collection. unfold bind at 1, sqlite_connect.
  cbn [db_up]. rewrite Hdb, Hdown.
  unfold bind, logger, datetime_now, ret.
  eexists _, _. split; [reflexivity|].
  cbn [collection knowledge_fts knowledge_metadata]. auto.
Qed.

(** X13: a refresh that collected nothing succeeds, reports 0 items and
    writes to neither index; and whenever a refresh succeeds, the number it
    reports is the number of records collected. *)
Theorem refresh_reports_collected (w : World) :
  (exists timestamp w',
     refresh [] w = (Ok (RefreshSuccess 0 timestamp), w') /\ stores w w') /\
  (forall records n timestamp w',
     refresh records w = (Ok (RefreshSuccess n timestamp), w') ->
     n = List.length records).
Proof.
  split.
  - eexists _, _. split; [reflexivity|]. repeat split.
  - intros records n timestamp w' H.
    destruct (collect_runs records w) as (items & w0 & Hc & _ & _ & Hlen & _).
    unfold refresh_knowledge_base, try_except in H. unfold bind at 1 in H.
    rewrite Hc in H. unfold bind at 1 in H.
    destruct (match items with [] => ret tt | _ :: _ => add items end w0)
      as [[u|e] w1].
    + unfold bind, datetime_now, ret in H. injection H as <- _ _. exact Hlen.
    + unfold bind, logger, datetime_now, ret in H. discriminate H.
Qed.

(** A successful [add_items] of a batch has opened the database. *)
Lemma add_items_opened (items : list KnowledgeItem) (w w1 : World) :
  items <> [] -> add items w = (Ok tt, w1) -> db_up w = true.
Proof.
  intros Hne H. destruct items as [|it items]; [contradiction|].
  unfold add_items, bind, lift, logger, get_world, set_collection, sqlite_connect,
    set_tables, ret in H.
  destruct (mapR chroma_meta (it :: items)) as [metas|e]; [|discriminate].
  cbn [collection] in H.
  destruct (collection_add _ _) as [c'|e]; [|discriminate].
  cbn [db_up] in H. destruct (db_up w); [reflexivity | discriminate].
Qed.

(** X14: a refresh that replies success has written every collected record
    to the three stores: it reports the number of records, every collected
    id has a row in [knowledge_metadata], [knowledge_fts] has grown by one
    row per record, and, when something was collected, the database was
    open and the collection is the one [collection.add] returned for the
    entries built from the records. *)
Theorem successful_refresh_has_written (records : list KnowledgeItem) (w w' : World)
    (n : nat) (timestamp : datetime) :
  refresh records w = (Ok (RefreshSuccess n timestamp), w') ->
  n = List.length records /\
  (forall r, In r records -> In (id r) (meta_ids (knowledge_metadata w'))) /\
  List.length (knowledge_fts w')
  = List.length (knowledge_fts w) + List.length records /\
  (records <> [] ->
   db_up w = true /\
   collection_add (collection w) (batch_entries encode (stamp clock (ticks w) records))
   = Ok (collection w')).
Proof.
  intro H. destruct records as [|r0 records].
  - unfold refresh_knowledge_base, try_except, collect_all_data, bind, logger,
      datetime_now, ret in H. cbn [mapM] in H. unfold ret in H.
    injection H as <- _ <-. cbn [knowledge_fts List.length].
    split; [reflexivity|]. split; [intros r []|]. split; [lia|]. now intros [].
  - assert (Hne : r0 :: records <> []) by discriminate.
    set (batch := r0 :: records) in *.
    destruct (refresh_ok Collection collection_add encode clock batch w w' n timestamp
                Hne H) as (Hins & Hadd & _).
    split.
    { destruct (collect_stamps Collection clock batch w) as (w0 & Hc & _ & _).
      unfold refresh_knowledge_base, try_except in H. unfold bind at 1 in H.
      rewrite Hc in H. unfold bind at 1 in H.
      destruct (match stamp clock (ticks w) batch with
                | [] => ret tt
                | _ :: _ => add (stamp clock (ticks w) batch)
                end w0) as [[u|e] w1].
      - unfold bind, datetime_now, ret in H. injection H as <- _ _.
        exact (stamp_length clock (ticks w) batch).
      - unfold bind, logger, datetime_now, ret in H. discriminate H. }
    apply sqlite_inserts_ok in Hins.
    destruct Hins as (frows & Hfr & Hfts & Hfids & _ & Hin & _).
    split; [|split].
    + intros r Hr. apply Hin. rewrite stamp_ids. now apply in_map.
    + rewrite Hfts, length_app. f_equal.
      rewrite <- (length_map Sqlite.id frows), Hfids, length_map.
      apply stamp_length.
    + intros _. split; [|exact Hadd].
      destruct (collect_stamps Collection clock batch w) as (w0 & Hc & _ & Hf).
      unfold refresh_knowledge_base, try_except in H. unfold bind at 1 in H.
      rewrite Hc in H. unfold bind at 1 in H.
      pose proof (stamp_nonempty (ticks w) batch Hne) as Hitems.
      destruct (stamp clock (ticks w) batch) as [|it items]; [contradiction|].
      destruct (add (it :: items) w0) as [[[]|e] w1] eqn:Ea.
      * destruct Hf as (_ & _ & _ & Hdb & _). rewrite <- Hdb.
        now apply (add_items_opened (it :: items) w0 w1).
      * unfold bind, logger, datetime_now, ret in H. discriminate H.
Qed.

(** X15: what ingestion stores comes back from the lexical search: from the
    row [add_items] writes for an item, a search result is built whose item
    has the same id, title, content, content type, source and metadata, and
    the same tags when no tag holds a comma (and the tags are not the single
    empty tag); its score is [max(0, -rank / 10)]. *)
Theorem stored_row_comes_back (it : KnowledgeItem) (tg : list string)
    (row : Sqlite.FtsRow) (rank : Q) (query hl : string) (w : World) :
  fts_row it = Ok row ->
  tags it = Some tg ->
  Forall (fun x => all_chars not_comma x = true) tg ->
  tg <> [""] ->
  _generate_highlight (content it) query = Ok hl ->
  exists r w',
    fulltext_result Collection clock query (row, rank) w = (Ok r, w') /\
    id (item r) = id it /\ title (item r) = title it /\
    content (item r) = content it /\ content_type (item r) = content_type it /\
    source (item r) = source it /\ metadata (item r) = metadata it /\
    tags (item r) = Some tg /\
    highlight r = hl /\ score r = max0 (- rank / 10)%Q /\
    context r = Fulltext rank.
Proof.
  intros Hrow Ht Hcomma Hne Hhl.
  unfold fts_row in Hrow. rewrite Ht in Hrow. injection Hrow as <-.
  unfold fulltext_result, bind, lift, KnowledgeItem_init, ret, to_ContentType.
  cbn [fst snd Sqlite.content_type Sqlite.content Sqlite.id Sqlite.title
       Sqlite.source Sqlite.metadata Sqlite.tags created_at].
  rewrite ContentType_of_value_value. rewrite Hhl.
  unfold bind, datetime_now, ret.
  eexists _, _. split; [reflexivity|].
  cbn [item __post_init__ id title content content_type source metadata tags
       created_at updated_at highlight score context].
  assert (Htags : split_tags (join "," tg) = tg).
  { destruct tg as [|t0 ts]; [reflexivity | now apply split_tags_join_cons]. }
  rewrite Htags. repeat split.
Qed.

End IngestionFacts.

(** ** Statistics *)

Section GroupByFacts.

Context {K : Type} (eqb : K -> K -> bool).
Hypothesis eqb_spec : forall a b, eqb a b = true <-> a = b.

Lemma eqb_same (a : K) : eqb a a = true.
Proof. now apply eqb_spec. Qed.

Lemma count_in_bump (k k' : K) (acc : list (K * nat)) :
  count_in eqb (bump eqb k acc) k'
  = if eqb k k' then S (count_in eqb acc k') else count_in eqb acc k'.
Proof.
  induction acc as [|[k0 n] acc IH]; cbn [bump count_in].
  - destruct (eqb k k'); reflexivity.
  - destruct (eqb k0 k) eqn:E0; cbn [count_in].
    + apply eqb_spec in E0. subst k0. destruct (eqb k k'); reflexivity.
    + destruct (eqb k0 k') eqn:E1; [|exact IH].
      apply eqb_spec in E1. subst k0.
      destruct (eqb k k') eqn:E2; [|reflexivity].
      apply eqb_spec in E2. subst k'. rewrite eqb_same in E0. discriminate.
Qed.

Lemma bump_keys (k k' : K) (acc : list (K * nat)) :
  In k' (map fst (bump eqb k acc)) <-> k' = k \/ In k' (map fst acc).
Proof.
  induction acc as [|[k0 n] acc IH]; cbn [bump map fst In].
  - intuition.
  - destruct (eqb k0 k) eqn:E0; cbn [map fst In].
    + apply eqb_spec in E0. subst k0. intuition.
    + rewrite IH. intuition.
Qed.

Lemma bump_NoDup (k : K) (acc : list (K * nat)) :
  NoDup (map fst acc) -> NoDup (map fst (bump eqb k acc)).
Proof.
  induction acc as [|[k0 n] acc IH]; cbn [bump map fst]; intro H.
  - repeat constructor. intros [].
  - inversion H as [|? ? Hn Hnd]; subst.
    destruct (eqb k0 k) eqn:E0; cbn [map fst].
    + now constructor.
    + constructor; [|now apply IH].
      rewrite bump_keys. intros [->|Hin]; [|contradiction].
      rewrite eqb_same in E0. discriminate.
Qed.

Lemma bump_positive (k : K) (acc : list (K * nat)) :
  Forall (fun kv => 0 < snd kv) acc -> Forall (fun kv => 0 < snd kv) (bump eqb k acc).
Proof.
  induction 1 as [|[k0 n] acc Hn Hacc IH]; cbn [bump].
  - repeat constructor.
  - destruct (eqb k0 k); constructor; cbn [snd] in *; auto; lia.
Qed.

Lemma bump_total (k : K) (acc : list (K * nat)) :
  total (bump eqb k acc) = S (total acc).
Proof.
  induction acc as [|[k0 n] acc IH]; cbn [bump total fold_right snd]; [reflexivity|].
  destruct (eqb k0 k); cbn [total fold_right snd]; [reflexivity|].
  fold (total (bump eqb k acc)). fold (total acc). rewrite IH. lia.
Qed.

Lemma occurrences_snoc (k k' : K) (keys : list K) :
  occurrences eqb k' (keys ++ [k])
  = if eqb k k' then S (occurrences eqb k' keys) else occurrences eqb k' keys.
Proof.
  unfold occurrences. rewrite filter_app, length_app. cbn [filter].
  destruct (eqb k k'); cbn [List.length]; lia.
Qed.

(** The counting loop, from any accumulator. *)
Lemma fold_bump (keys : list K) :
  forall acc,
    let res := fold_left (fun a k => bump eqb k a) keys acc in
    (forall k, count_in eqb res k = count_in eqb acc k + occurrences eqb k keys) /\
    (NoDup (map fst acc) -> NoDup (map fst res)) /\
    (Forall (fun kv => 0 < snd kv) acc -> Forall (fun kv => 0 < snd kv) res) /\
    total res = total acc + List.length keys /\
    (forall k, In k (map fst res) <-> In k (map fst acc) \/ In k keys).
Proof.
  induction keys as [|k keys IH]; intro acc; cbn [fold_left].
  - cbv zeta. unfold occurrences. cbn [filter List.length In].
    repeat split; auto; try lia; intuition.
  - specialize (IH (bump eqb k acc)). cbv zeta in *.
    destruct IH as (Hc & Hnd & Hpos & Htot & Hkeys).
    split; [|split; [|split; [|split]]].
    + intro k'. rewrite Hc, count_in_bump. unfold occurrences. cbn [filter].
      destruct (eqb k k'); cbn [List.length]; lia.
    + intro H. now apply Hnd, bump_NoDup.
    + intro H. now apply Hpos, bump_positive.
    + rewrite Htot, bump_total. cbn [List.length]. lia.
    + intro k'. rewrite Hkeys, bump_keys. cbn [In]. intuition.
Qed.

Lemma count_in_listed (acc : list (K * nat)) (k : K) (n : nat) :
  NoDup (map fst acc) -> In (k, n) acc -> count_in eqb acc k = n.
Proof.
  induction acc as [|[k0 m] acc IH]; intros Hnd Hin; [contradiction|].
  cbn [map fst] in Hnd. inversion Hnd as [|? ? Hn Hnd']; subst.
  cbn [count_in]. destruct Hin as [[= -> ->]|Hin].
  - now rewrite eqb_same.
  - destruct (eqb k0 k) eqn:E; [|now apply IH].
    apply eqb_spec in E. subst k0. exfalso. apply Hn.
    apply in_map_iff. now exists (k, n).
Qed.

Lemma insert_by_count_perm (x : K * nat) (l : list (K * nat)) :
  Permutation (insert_by_count x l) (x :: l).
Proof.
  induction l as [|y l IH]; cbn [insert_by_count]; [reflexivity|].
  destruct (snd x <? snd y); [|reflexivity].
  rewrite IH. apply perm_swap.
Qed.

Lemma order_by_count_perm (l : list (K * nat)) :
  Permutation (order_by_count_desc l) l.
Proof.
  induction l as [|x l IH]; cbn [order_by_count_desc fold_right]; [reflexivity|].
  fold (order_by_count_desc l). rewrite insert_by_count_perm. now apply perm_skip.
Qed.

Lemma insert_by_count_sorted (x : K * nat) (l : list (K * nat)) :
  StronglySorted by_count_desc l -> StronglySorted by_count_desc (insert_by_count x l).
Proof.
  induction 1 as [|y l Hs IH Hy]; cbn [insert_by_count].
  - repeat constructor.
  - destruct (snd x <? snd y) eqn:E.
    + apply Nat.ltb_lt in E. constructor; [exact IH|].
      eapply Permutation_Forall; [symmetry; apply insert_by_count_perm|].
      constructor; [unfold by_count_desc; lia | exact Hy].
    + apply Nat.ltb_ge in E.
      constructor; [now constructor|].
      constructor; [exact E|].
      eapply Forall_impl; [|exact Hy]. unfold by_count_desc. intros; lia.
Qed.

Lemma order_by_count_sorted (l : list (K * nat)) :
  StronglySorted by_count_desc (order_by_count_desc l).
Proof.
  induction l as [|x l IH]; cbn [order_by_count_desc fold_right]; [constructor|].
  now apply insert_by_count_sorted.
Qed.

Lemma total_perm (l l' : list (K * nat)) : Permutation l l' -> total l = total l'.
Proof.
  induction 1 as [| x l l' _ IH | x y l | l l' l'' _ IH1 _ IH2];
    unfold total in *; cbn [fold_right] in *; lia.
Qed.

(** What [GROUP BY ... ORDER BY count DESC] returns. *)
Lemma group_by_count_spec (keys : list K) :
  let groups := group_by_count eqb keys in
  total groups = List.length keys /\
  NoDup (map fst groups) /\
  StronglySorted by_count_desc groups /\
  (forall k n, In (k, n) groups -> n = occurrences eqb k keys /\ 0 < n) /\
  (forall k, In k keys -> In k (map fst groups)).
Proof.
  cbv zeta. unfold group_by_count.
  pose proof (order_by_count_perm (group_count eqb keys)) as Hp.
  destruct (fold_bump keys []) as (Hc & Hnd & Hpos & Htot & Hkeys).
  cbv zeta in *. fold (group_count eqb keys) in *.
  split; [|split; [|split; [|split]]].
  - rewrite (total_perm _ _ Hp), Htot. reflexivity.
  - eapply Permutation_NoDup; [apply Permutation_map; symmetry; exact Hp|].
    apply Hnd. constructor.
  - apply order_by_count_sorted.
  - intros k n Hin. apply (Permutation_in _ Hp) in Hin. split.
    + rewrite <- (count_in_listed _ _ _ (Hnd (NoDup_nil _)) Hin). now rewrite Hc.
    + specialize (Hpos (Forall_nil _)). rewrite Forall_forall in Hpos.
      apply (Hpos _ Hin).
  - intros k Hin.
    eapply Permutation_in; [apply Permutation_map; symmetry; exact Hp|].
    apply Hkeys. now right.
Qed.

End GroupByFacts.

Lemma pair_eqb_spec (a b : string * string) : pair_eqb a b = true <-> a = b.
Proof.
  unfold pair_eqb. rewrite andb_true_iff, !String.eqb_eq.
  destruct a, b; cbn [fst snd]. split; [intros [-> ->]; reflexivity | intros [= -> ->]; auto].
Qed.

Section StatisticsFacts.

Variable Collection : Type.
Variable collection_count : Collection -> Result nat.
Variable clock : nat -> datetime.

Local Abbreviation World := (World Collection).
Local Abbreviation statistics := (get_statistics Collection collection_count clock).

(** X16: when the collection can be counted and the database opens,
    [get_statistics] replies with the collection's count as [total_items]
    and with three breakdowns of [knowledge_metadata] whose counts each add
    up to the number of its rows; the stores are left as they were. *)
Theorem statistics_add_up (w : World) (n : nat) :
  collection_count (collection w) = Ok n ->
  db_up w = true ->
  exists s w',
    statistics w = (Ok (Stats s), w') /\
    stores w w' /\
    total_items s = n /\
    last_updated s = clock (ticks w) /\
    total (by_type s) = List.length (knowledge_metadata w) /\
    total (by_source s) = List.length (knowledge_metadata w) /\
    total (by_type_source s) = List.length (knowledge_metadata w).
Proof.
  intros Hn Hup.
  unfold get_statistics, try_except, bind, get_world, lift, sqlite_connect,
    datetime_now, ret.
  rewrite Hn, Hup.
  eexists _, _. split; [reflexivity|].
  cbn [total_items last_updated by_type by_source by_type_source].
  split; [repeat split|]. split; [reflexivity|]. split; [reflexivity|].
  split; [|split].
  - rewrite (proj1 (group_by_count_spec String.eqb String.eqb_eq _)).
    apply length_map.
  - rewrite (proj1 (group_by_count_spec String.eqb String.eqb_eq _)).
    apply length_map.
  - rewrite (proj1 (group_by_count_spec pair_eqb pair_eqb_spec _)).
    apply length_map.
Qed.

(** X17: in the reply of [get_statistics], [by_type] lists every content
    type of [knowledge_metadata] exactly once, with the number of rows of
    that type, which is positive, and in order of decreasing count. *)
Theorem statistics_by_type_counts (w : World) (n : nat) :
  collection_count (collection w) = Ok n ->
  db_up w = true ->
  exists s w',
    statistics w = (Ok (Stats s), w') /\
    NoDup (map fst (by_type s)) /\
    StronglySorted by_count_desc (by_type s) /\
    (forall t c, In (t, c) (by_type s) ->
       c = occurrences String.eqb t (map Sqlite.m_content_type (knowledge_metadata w))
       /\ 0 < c) /\
    (forall row, In row (knowledge_metadata w) ->
       In (Sqlite.m_content_type row) (map fst (by_type s))).
Proof.
  intros Hn Hup.
  unfold get_statistics, try_except, bind, get_world, lift, sqlite_connect,
    datetime_now, ret.
  rewrite Hn, Hup.
  eexists _, _. split; [reflexivity|]. cbn [by_type].
  destruct (group_by_count_spec String.eqb String.eqb_eq
              (map Sqlite.m_content_type (knowledge_metadata w)))
    as (_ & Hnd & Hs & Hc & Hk).
  split; [exact Hnd|]. split; [exact Hs|]. split; [exact Hc|].
  intros row Hrow. apply Hk. now apply in_map.
Qed.

(** X18: [get_statistics] does not raise: when the collection cannot be
    counted or the database cannot be opened, the reply is the error, and
    the stores are left as they were. *)
Theorem statistics_reports_failure (w : World) :
  is_ok (collection_count (collection w)) = false \/ db_up w = false ->
  exists e w', statistics w = (Ok (StatsError e), w') /\ stores w w'.
Proof.
  intro H.
  unfold get_statistics, try_except, bind, get_world, lift, sqlite_connect,
    datetime_now, logger, ret.
  destruct (collection_count (collection w)) as [n|e].
  - destruct H as [H|H]; [discriminate H|]. rewrite H.
    eexists _, _. split; [reflexivity | repeat split].
  - eexists _, _. split; [reflexivity | repeat split].
Qed.

End StatisticsFacts.

(** ** The file-system collector *)

Section CollectorFacts.
Import PyStr PyStrFacts Collector.

Lemma substring_prefix_length (n : nat) (s : string) :
  n <= String.length s -> String.length (substring 0 n s) = n.
Proof.
  revert n; induction s as [|c s IH]; intros [|n] H; simpl in *; try lia.
  rewrite IH; lia.
Qed.

(** Whether [stem ++ suffix] ends with a suffix that is not longer is
    decided on [suffix] alone. *)
Lemma endswith_app (stem suffix suffix' : string) :
  String.length suffix' <= String.length suffix ->
  endswith (stem ++ suffix) suffix' = endswith suffix suffix'.
Proof.
  intro H. unfold endswith. rewrite length_app.
  replace (String.length suffix' <=? String.length stem + String.length suffix)
    with true by (symmetry; apply Nat.leb_le; lia).
  replace (String.length suffix' <=? String.length suffix)
    with true by (symmetry; apply Nat.leb_le; lia).
  replace (String.length stem + String.length suffix - String.length suffix')
    with (String.length stem + (String.length suffix - String.length suffix')) by lia.
  now rewrite substring_app_right.
Qed.

Ltac decide_suffixes :=
  unfold file_content_type, endswith_any, documentation_suffixes, config_suffixes;
  cbn [existsb];
  repeat match goal with
         | |- context [endswith (?a ++ ?b) ?c] =>
             rewrite (endswith_app a b c) by (cbn [String.length]; lia)
         end;
  repeat match goal with
         | |- context [endswith (?a ++ ?b) ?c] => destruct (endswith (a ++ b) c)
         end;
  reflexivity.

(** X19: the content type of a collected file is read off the end of its
    name: a name ending in .md, .txt or .rst is documentation, a name ending
    in .json, .yml, .yaml, .toml or .ini is configuration, and a name with
    none of these endings is code. *)
Theorem file_content_type_by_suffix :
  (forall stem suffix, In suffix documentation_suffixes ->
     file_content_type (stem ++ suffix) = DOCUMENTATION) /\
  (forall stem suffix, In suffix config_suffixes ->
     file_content_type (stem ++ suffix) = CONFIG) /\
  (forall name,
     endswith_any name (documentation_suffixes ++ config_suffixes)%list = false ->
     file_content_type name = CODE).
Proof.
  split; [|split].
  - intros stem suffix Hin.
    repeat (destruct Hin as [<-|Hin]; [decide_suffixes|]). destruct Hin.
  - intros stem suffix Hin.
    repeat (destruct Hin as [<-|Hin]; [decide_suffixes|]). destruct Hin.
  - intros name H. unfold endswith_any in H. rewrite existsb_app in H.
    apply orb_false_iff in H. destruct H as [H1 H2].
    unfold file_content_type, endswith_any. now rewrite H1, H2.
Qed.

(** X20: a content of at most 10000 characters is collected as it is; a
    longer one is cut to its first 10000 characters followed by the marker
    "...[truncated]", 10014 characters in all. *)
Theorem truncate_content_bounds (content : string) :
  (String.length content <= max_content -> truncate_content content = content) /\
  (max_content < String.length content ->
     truncate_content content = substring 0 max_content content ++ "...[truncated]" /\
     String.length (truncate_content content) = max_content + 14) /\
  String.length (truncate_content content) <= max_content + 14.
Proof.
  unfold truncate_content, slice. rewrite Nat.sub_0_r.
  destruct (max_content <? String.length content) eqn:E.
  - apply Nat.ltb_lt in E.
    assert (Hl : String.length (substring 0 max_content content ++ "...[truncated]")
                 = max_content + 14).
    { rewrite length_app, substring_prefix_length by lia. reflexivity. }
    split; [lia|]. split; [auto | lia].
  - apply Nat.ltb_ge in E. split; [reflexivity|]. split; lia.
Qed.

Variable Collection : Type.
Variable clock : nat -> datetime.
Variable session : bool.
Variable post_list_files : Post (list FileInfo).
Variable post_read_file : string -> Post Content.
Variable md5_hexdigest : string -> Result string.
Variable path_parent : string -> string.
Variable path_parent_name : string -> string.

Local Abbreviation World := (World Collection).
Local Abbreviation call := (@_call_mcp_server Collection session).
Local Abbreviation step :=
  (file_step Collection clock session post_read_file md5_hexdigest path_parent
     path_parent_name).
Local Abbreviation loop :=
  (collect_loop Collection clock session post_read_file md5_hexdigest path_parent
     path_parent_name).
Local Abbreviation collect :=
  (_collect_filesystem_data Collection clock session post_list_files post_read_file
     md5_hexdigest path_parent path_parent_name).
Local Abbreviation read := (read post_read_file).
Local Abbreviation collectable := (collectable post_read_file md5_hexdigest).
Local Abbreviation listed := (listed session post_list_files).

(** The item the collector builds from an entry of the listing. *)
Local Abbreviation built_from :=
  (fun (file_info : FileInfo) (it : KnowledgeItem) =>
     exists path name text digest t,
       fi_path file_info = Some path /\ fi_name file_info = Some name /\
       read path = Text text /\ md5_hexdigest path = Ok digest /\
       id it = "filesystem_" ++ digest /\
       title it = name /\
       source it = "filesystem_mcp" /\
       content it = truncate_content text /\
       content_type it = file_content_type name /\
       (exists ext dir, tags it = Some [ext; dir]) /\
       (is_ascii name = true -> is_ascii (path_parent_name path) = true ->
        tags it = Some [lower (extension name); lower (path_parent_name path)]) /\
       created_at it = Some t /\ updated_at it = Some t).

(** With a session, a call returns what the collector reads off the reply
    and leaves the stores as they were. *)
Lemma call_read_file (path : string) (w : World) :
  session = true ->
  exists w',
    call "filesystem" "read_file" (post_read_file path) (Text "") w
    = (Ok (read path), w') /\
    frame w w' /\ ticks w' = ticks w.
Proof.
  intro Hs. unfold _call_mcp_server, Collector.read. rewrite Hs.
  destruct (post_read_file path); eexists; (split; [reflexivity|]);
    split; try reflexivity; repeat split.
Qed.

Lemma call_list_files (w : World) :
  exists w',
    (call "filesystem" "list_files" post_list_files [] w
     = (Ok listed, w') \/
     (session = false /\
      exists e, call "filesystem" "list_files" post_list_files [] w
                = (Raise e, w'))) /\
    frame w w' /\ ticks w' = ticks w.
Proof.
  unfold _call_mcp_server, Collector.listed. destruct session.
  - destruct post_list_files; eexists; (split; [left; reflexivity|]);
      split; try reflexivity; repeat split.
  - eexists. split; [right; split; [reflexivity | eexists; reflexivity]|].
    split; [apply frame_refl | reflexivity].
Qed.

(** One turn of the loop, by the kind of the entry. *)
Lemma step_pathless (items : list KnowledgeItem) (file_info : FileInfo) (w : World) :
  fi_path file_info = None ->
  step items file_info w = (Raise (KeyError "path"), w).
Proof.
  intro Hp. unfold file_step, file_body, try_except, bind, lift, getitem.
  rewrite Hp. reflexivity.
Qed.

Lemma step_collects (items : list KnowledgeItem) (file_info : FileInfo) (w : World) :
  session = true -> collectable file_info = true ->
  exists it w',
    step items file_info w = (Ok (items ++ [it])%list, w') /\
    frame w w' /\ ticks w' = S (ticks w) /\ built_from file_info it.
Proof.
  intros Hs Hc. unfold Collector.collectable in Hc.
  destruct (fi_path file_info) as [path|] eqn:Hp; [|discriminate Hc].
  destruct (fi_name file_info) as [name|] eqn:Hn; [|discriminate Hc].
  destruct (read path) as [text|] eqn:Hr; [|discriminate Hc].
  destruct (md5_hexdigest path) as [digest|e] eqn:Hd; [|discriminate Hc].
  destruct (call_read_file path w Hs) as (w1 & E1 & F1 & T1).
  unfold file_step, file_body, try_except, bind, lift, getitem.
  rewrite Hp. fold (@_call_mcp_server Collection session Content).
  rewrite E1, Hr. cbn [truncated]. rewrite Hn, Hd.
  unfold KnowledgeItem_init, bind, datetime_now, ret. cbn [created_at].
  eexists _, _. split; [reflexivity|]. split; [|split].
  - eapply frame_trans; [exact F1 | repeat split].
  - cbn [ticks]. now rewrite T1.
  - exists path, name, text, digest, (clock (ticks w1)).
    cbn [__post_init__ id title source content content_type tags created_at updated_at].
    repeat split; try assumption. eexists _, _. reflexivity.
Qed.

Lemma step_skips (items : list KnowledgeItem) (file_info : FileInfo) (path : string)
    (w : World) :
  session = true -> fi_path file_info = Some path -> collectable file_info = false ->
  exists w', step items file_info w = (Ok items, w') /\ frame w w' /\ ticks w' = ticks w.
Proof.
  intros Hs Hp Hc. unfold Collector.collectable in Hc. rewrite Hp in Hc.
  destruct (call_read_file path w Hs) as (w1 & E1 & F1 & T1).
  unfold file_step, file_body, try_except, bind, lift, getitem.
  rewrite Hp. fold (@_call_mcp_server Collection session Content).
  rewrite E1.
  destruct (read path) as [text|] eqn:Hr; cbn [truncated].
  - destruct (fi_name file_info) as [name|] eqn:Hn.
    + destruct (md5_hexdigest path) as [digest|e] eqn:Hd; [discriminate Hc|].
      unfold logger, ret. eexists. split; [reflexivity|].
      split; [eapply frame_trans; [exact F1 | repeat split] | exact T1].
    + unfold logger, ret. eexists. split; [reflexivity|].
      split; [eapply frame_trans; [exact F1 | repeat split] | exact T1].
  - unfold logger, ret. eexists. split; [reflexivity|].
    split; [eapply frame_trans; [exact F1 | repeat split] | exact T1].
Qed.

(** The loop adds, in order, the items of the collectable entries in front
    of the first entry without a path. *)
Lemma loop_collects (files : list FileInfo) :
  session = true ->
  forall (items : list KnowledgeItem) (w : World),
  exists more w',
    loop files items w = (Ok (items ++ more)%list, w') /\
    frame w w' /\ ticks w' = ticks w + List.length more /\
    Forall2 built_from (filter collectable (before_pathless files)) more.
Proof.
  intro Hs. induction files as [|file_info rest IH]; intros items w.
  - exists [], w. cbn. rewrite app_nil_r.
    split; [reflexivity|]. split; [apply frame_refl|]. split; [lia | constructor].
  - cbn [collect_loop before_pathless].
    destruct (fi_path file_info) as [path|] eqn:Hp.
    + cbn [filter]. destruct (collectable file_info) eqn:Hc.
      * destruct (step_collects items file_info w Hs Hc) as (it & w1 & E & F & T & B).
        rewrite E.
        destruct (IH (items ++ [it])%list w1) as (more & w' & E' & F' & T' & B').
        exists (it :: more), w'. rewrite E', <- app_assoc.
        split; [reflexivity|]. split; [eapply frame_trans; eassumption|].
        split; [cbn [List.length]; lia | constructor; assumption].
      * destruct (step_skips items file_info path w Hs Hp Hc) as (w1 & E & F & T).
        rewrite E.
        destruct (IH items w1) as (more & w' & E' & F' & T' & B').
        exists more, w'. rewrite E'.
        split; [reflexivity|]. split; [eapply frame_trans; eassumption|].
        split; [lia | assumption].
    + rewrite (step_pathless items file_info w Hp).
      unfold bind, logger, ret.
      eexists [], _. rewrite app_nil_r. split; [reflexivity|].
      split; [repeat split|]. split; [cbn; lia | constructor].
Qed.

Lemma before_pathless_length (files : list FileInfo) :
  List.length (before_pathless files) <= List.length files.
Proof.
  induction files as [|file_info rest IH]; cbn; [lia|].
  destruct (fi_path file_info); cbn; lia.
Qed.


End CollectorFacts.

(** ** Runs of the further properties on the in-memory instance *)

Section MoreRuns.

Local Open Scope Z_scope.

Lemma bad_hit_empties_semantic_search_run :
  exists w', Mem.semantic_search "retry \d" 10 None None None Mem.indexed = (Ok [], w').
Proof.
  eapply (bad_hit_empties_semantic_search Mem.Collection Mem.collection_query
            (Mem.encode Mem.embeddings) Mem.clock "retry \d" 10 None None None
            Mem.indexed).
  - vm_compute. reflexivity.
  - left. reflexivity.
  - right. vm_compute. reflexivity.
Defined.

Lemma semantic_search_one_result_per_hit_run :
  exists rs w',
    Mem.semantic_search "retry" 10 None None None Mem.indexed = (Ok rs, w') /\
    map rid rs = ["a2"; "a1"; "a3"]%string.
Proof.
  destruct (semantic_search_one_result_per_hit Mem.Collection Mem.collection_query
              (Mem.encode Mem.embeddings) Mem.clock "retry" 10 None None None
              Mem.indexed
              (match Mem.collection_query (collection Mem.indexed)
                       (Mem.encode Mem.embeddings "retry") 10 None with
               | Ok hits => hits
               | Raise _ => []
               end))
    as (rs & w' & H & Hids & _).
  - vm_compute. reflexivity.
  - intros h Hh. vm_compute in Hh.
    repeat (destruct Hh as [<-|Hh]; [split; vm_compute; reflexivity|]).
    destruct Hh.
  - exists rs, w'. split; [exact H|]. rewrite Hids. vm_compute. reflexivity.
Defined.

Lemma add_items_appends_fts_rows_run :
  exists frows,
    mapR fts_row [MemMore.a1_item] = Ok frows /\
    knowledge_fts (snd (MemMore.add_items [MemMore.a1_item] Mem.once))
    = (knowledge_fts Mem.once ++ frows)%list /\
    map Sqlite.id frows = map id [MemMore.a1_item] /\
    List.length (knowledge_fts (snd (MemMore.add_items [MemMore.a1_item] Mem.once)))
    = (List.length (knowledge_fts Mem.once) + List.length [MemMore.a1_item])%nat.
Proof.
  apply (add_items_appends_fts_rows Mem.Collection Mem.collection_add
           (Mem.encode Mem.embeddings) [MemMore.a1_item] Mem.once).
  - discriminate.
  - vm_compute. reflexivity.
Defined.

Lemma add_items_keeps_metadata_keyed_run :
  (NoDup (meta_ids (knowledge_metadata Mem.once)) ->
   NoDup (meta_ids (knowledge_metadata
                      (snd (MemMore.add_items [MemMore.a1_item] Mem.once))))) /\
  (forall it, In it [MemMore.a1_item] ->
     In (id it) (meta_ids (knowledge_metadata
                             (snd (MemMore.add_items [MemMore.a1_item] Mem.once))))) /\
  (forall i, In i (meta_ids (knowledge_metadata Mem.once)) ->
     In i (meta_ids (knowledge_metadata
                       (snd (MemMore.add_items [MemMore.a1_item] Mem.once))))).
Proof.
  apply (add_items_keeps_metadata_keyed Mem.Collection Mem.collection_add
           (Mem.encode Mem.embeddings) [MemMore.a1_item] Mem.once).
  vm_compute. reflexivity.
Defined.

Lemma refresh_stops_at_vector_failure_run :
  exists timestamp w',
    refresh_knowledge_base Mem.Collection MemMore.rejecting_add
      (Mem.encode Mem.embeddings) Mem.clock [Mem.a1; Mem.a2] Mem.once
    = (Ok (RefreshError (IndexFailure "could not connect to the collection") timestamp), w')
    /\ stores Mem.once w'.
Proof.
  apply (refresh_stops_at_vector_failure Mem.Collection MemMore.rejecting_add
           (Mem.encode Mem.embeddings) Mem.clock [Mem.a1; Mem.a2] Mem.once).
  - discriminate.
  - reflexivity.
Defined.

Lemma refresh_with_closed_database_run :
  map Chroma.id
    (batch_entries (Mem.encode Mem.embeddings)
       (stamp Mem.clock (ticks MemMore.closed_world) [Mem.a1; Mem.a2]))
  = map id [Mem.a1; Mem.a2] /\
  exists timestamp w',
    Mem.refresh [Mem.a1; Mem.a2] MemMore.closed_world
    = (Ok (RefreshError (OperationalError "unable to open database file") timestamp), w') /\
    collection w'
    = batch_entries (Mem.encode Mem.embeddings)
        (stamp Mem.clock (ticks MemMore.closed_world) [Mem.a1; Mem.a2]) /\
    knowledge_fts w' = knowledge_fts MemMore.closed_world /\
    knowledge_metadata w' = knowledge_metadata MemMore.closed_world.
Proof.
  apply (refresh_with_closed_database Mem.Collection Mem.collection_add
           (Mem.encode Mem.embeddings) Mem.clock [Mem.a1; Mem.a2] MemMore.closed_world).
  - discriminate.
  - reflexivity.
  - vm_compute. reflexivity.
Defined.

Lemma successful_refresh_has_written_run :
  2%nat = List.length [Mem.a1; Mem.a2] /\
  (forall r, In r [Mem.a1; Mem.a2] ->
     In (id r) (meta_ids (knowledge_metadata MemMore.first_batch))) /\
  List.length (knowledge_fts MemMore.first_batch)
  = (List.length (knowledge_fts Mem.empty_world) + List.length [Mem.a1; Mem.a2])%nat /\
  ([Mem.a1; Mem.a2] <> [] ->
   db_up Mem.empty_world = true /\
   Mem.collection_add (collection Mem.empty_world)
     (batch_entries (Mem.encode Mem.embeddings)
        (stamp Mem.clock (ticks Mem.empty_world) [Mem.a1; Mem.a2]))
   = Ok (collection MemMore.first_batch)).
Proof.
  apply (successful_refresh_has_written Mem.Collection Mem.collection_add
           (Mem.encode Mem.embeddings) Mem.clock [Mem.a1; Mem.a2] Mem.empty_world
           MemMore.first_batch 2 1002).
  vm_compute. reflexivity.
Defined.

Lemma stored_row_comes_back_run :
  exists row r w',
    fts_row MemMore.a1_item = Ok row /\
    fulltext_result Mem.Collection Mem.clock "retry" (row, -8 # 1)%Q Mem.indexed
    = (Ok r, w') /\
    id (item r) = "a1"%string /\ tags (item r) = Some ["queue"%string] /\
    content_type (item r) = NOTE.
Proof.
  eexists. 
  destruct (stored_row_comes_back Mem.Collection Mem.clock MemMore.a1_item
              ["queue"%string]
              (Sqlite.mkFtsRow "a1" "queue notes" "add retry logic to the queue consumer"
                 "note" "filesystem_mcp" "queue" [])
              (-8 # 1)%Q "retry" "add **RETRY** logic to the queue consumer"
              Mem.indexed)
    as (r & w' & H & Hid & _ & _ & Hct & _ & _ & Htags & _).
  - reflexivity.
  - reflexivity.
  - repeat constructor.
  - discriminate.
  - vm_compute. reflexivity.
  - exists r, w'. split; [reflexivity|]. split; [exact H|].
    rewrite Hid, Htags, Hct. repeat split.
Defined.

Lemma statistics_add_up_run :
  exists s w',
    get_statistics Mem.Collection MemMore.collection_count Mem.clock Mem.indexed
    = (Ok (Stats s), w') /\
    total_items s = 3%nat /\
    total (by_type s) = 3%nat /\ total (by_source s) = 3%nat /\
    total (by_type_source s) = 3%nat.
Proof.
  destruct (statistics_add_up Mem.Collection MemMore.collection_count Mem.clock
              Mem.indexed 3)
    as (s & w' & H & _ & Ht & _ & H1 & H2 & H3).
  - vm_compute. reflexivity.
  - vm_compute. reflexivity.
  - exists s, w'. rewrite H, Ht, H1, H2, H3. repeat split.
Defined.

Lemma statistics_by_type_counts_run :
  exists s w',
    get_statistics Mem.Collection MemMore.collection_count Mem.clock Mem.indexed
    = (Ok (Stats s), w') /\
    NoDup (map fst (by_type s)) /\
    StronglySorted by_count_desc (by_type s).
Proof.
  destruct (statistics_by_type_counts Mem.Collection MemMore.collection_count Mem.clock
              Mem.indexed 3)
    as (s & w' & H & Hnd & Hs & _).
  - vm_compute. reflexivity.
  - vm_compute. reflexivity.
  - exists s, w'. auto.
Defined.

Lemma statistics_reports_failure_run :
  exists e w',
    get_statistics Mem.Collection MemMore.collection_count Mem.clock Mem.offline
    = (Ok (StatsError e), w') /\ stores Mem.offline w'.
Proof.
  apply (statistics_reports_failure Mem.Collection MemMore.collection_count Mem.clock
           Mem.offline).
  right. reflexivity.
Defined.

(** The file-system collector on a listing of five entries: a note, a
    file whose content is null, an entry without a name whose reading fails,
    an entry without a path, and a file after it.  The note is collected,
    the next two entries are skipped with a warning, and the entry without a
    path ends the collection: the last file is not read. *)
Lemma filesystem_collector_run :
  exists it w',
    MemMore.collect_files Mem.empty_world = (Ok [it], w') /\
    id it = "filesystem_/srv/README.md"%string /\
    content_type it = DOCUMENTATION /\
    tags it = Some ["md"; "srv"]%string /\
    log w'
    = [LogWarning "Error reading file /srv/data.json";
       LogWarning "MCP call failed: filesystem/read_file";
       LogWarning "Error reading file /srv/unnamed";
       LogError "Error collecting FileSystem data" (KeyError "path")].
Proof. eexists _, _. vm_compute. repeat split. Qed.

End MoreRuns.
